(** * TraceQL fetch over vparquet blocks, and the query-frontend SLO hook

    A shallow embedding of [tempodb/encoding/vparquet/block_traceql.go],
    of the frontend's [sloHook] and of the block meta of
    [tempodb/backend/block_meta.go], with the properties the
    specification states about them and further properties of the code.

    Conventions.
    - Go's [int], [int64] and [time.Duration] are [Z] restricted to the
      signed 64-bit range; [uint64] is [Z] in [0, 2^64).  Conversions
      between the two wrap and are written out ([int64_of_uint64],
      [uint64_of_int64]).
    - [float64] is [spec_float] at precision 53 and maximal exponent 1024.
    - A Go [map] is a [gmap]; [range] over a map is a fold over
      [map_to_list], one of the orders Go may pick.
    - A function returning [(T, error)] returns [outcome T]; a run-time
      panic is the third outcome. *)

From Stdlib Require Import ZArith Bool List.
From Stdlib Require Import SpecFloat.
From stdpp Require Import base option list gmap strings fin_maps.
From Equations Require Import Equations.

Set Warnings "-register-all".

Local Open Scope string_scope.
Local Open Scope list_scope.
Local Open Scope Z_scope.

(** ** Machine integers and floats *)

Module gotypes.

Definition MaxInt64 : Z := 2 ^ 63 - 1.
Definition MinInt64 : Z := - 2 ^ 63.
Definition MaxUint64 : Z := 2 ^ 64 - 1.

Definition is_int64 (z : Z) : Prop := MinInt64 <= z <= MaxInt64.
Definition is_uint64 (z : Z) : Prop := 0 <= z <= MaxUint64.

(** [int64(u)] for [u : uint64]: the same 64 bits read as two's complement. *)
Definition int64_of_uint64 (u : Z) : Z :=
  let m := u mod 2 ^ 64 in
  if m <? 2 ^ 63 then m else m - 2 ^ 64.

(** [uint64(i)] for [i : int64]. *)
Definition uint64_of_int64 (i : Z) : Z := i mod 2 ^ 64.

(** Wrap-around of a signed 64-bit result (Go's [int] on 64-bit targets). *)
Definition wrap_int64 (z : Z) : Z := int64_of_uint64 (z mod 2 ^ 64).

(** Wrap-around of an unsigned 64-bit result. *)
Definition wrap_uint64 (z : Z) : Z := z mod 2 ^ 64.

Definition float64 : Type := spec_float.
Definition f64_prec : Z := 53.
Definition f64_emax : Z := 1024.

Definition f64_of_Z (z : Z) : float64 := binary_normalize f64_prec f64_emax z 0 false.
Definition f64_div (x y : float64) : float64 := SFdiv f64_prec f64_emax x y.
Definition f64_add (x y : float64) : float64 := SFadd f64_prec f64_emax x y.
Definition f64_eqb (x y : float64) : bool := SFeqb x y.
Definition f64_ltb (x y : float64) : bool := SFltb x y.
Definition f64_leb (x y : float64) : bool := SFleb x y.
Definition f64_zero : float64 := S754_zero false.

(** Go errors: [fmt.Errorf], [errors.Wrap], and the two kinds the
    frontend tells apart ([status.Code], [errors.Is(_, context.Canceled)]). *)
Inductive error : Type :=
| Errorf (msg : string)
| Wrap (cause : error) (msg : string)
| GrpcStatus (code : Z) (msg : string)
| ContextCanceled.

Inductive outcome (A : Type) : Type :=
| Ret (a : A)
| Fail (e : error)
| Panics (msg : string).
Arguments Ret {A} a.
Arguments Fail {A} e.
Arguments Panics {A} msg.

Definition bind {A B} (m : outcome A) (k : A -> outcome B) : outcome B :=
  match m with
  | Ret a => k a
  | Fail e => Fail e
  | Panics s => Panics s
  end.

(** [errors.Wrap(err, msg)] applied to a failing call. *)
Definition wrapping {A} (msg : string) (m : outcome A) : outcome A :=
  match m with
  | Fail e => Fail (Wrap e msg)
  | other => other
  end.

End gotypes.

Export gotypes.

#[global] Instance outcome_ret : MRet outcome := fun A a => Ret a.
#[global] Instance outcome_bind : MBind outcome := fun A B k m => bind m k.

(** ** pkg/traceql: the condition model

    The package is imported by the block code and is not among the
    sources; its declarations are given as far as the block code reads
    them.  An enumeration gets a catch-all constructor for the members
    the block code never names. *)

Module traceql.

(** Modelled from the spec: the operators of a condition (none, eq, ne,
    gt, ge, lt, le, regex); [OpOther] stands for the arithmetic and
    boolean operators of the language, which no condition may carry. *)
Inductive Operator : Type :=
| OpNone | OpEqual | OpNotEqual | OpGreater | OpGreaterEqual
| OpLess | OpLessEqual | OpRegex
| OpOther (code : nat).

(** Modelled from the spec: the scope of an attribute (none, resource,
    span), and any other value of the Go type. *)
Inductive AttributeScope : Type :=
| AttributeScopeNone | AttributeScopeResource | AttributeScopeSpan
| AttributeScopeOther (code : nat).

(** Modelled from the spec: the intrinsics (none, duration, name,
    status), and any other value of the Go type. *)
Inductive Intrinsic : Type :=
| IntrinsicNone | IntrinsicDuration | IntrinsicName | IntrinsicStatus
| IntrinsicOther (code : nat).

(** Modelled from the spec: the tag of a static value. *)
Inductive StaticType : Type :=
| TypeNil | TypeInt | TypeFloat | TypeString | TypeBoolean
| TypeDuration | TypeStatus
| TypeOther (code : nat).

(** Modelled from the spec: the status enumeration with its raw-integer
    fall-through. *)
Inductive Status : Type :=
| StatusError | StatusOk | StatusUnset
| StatusRaw (code : Z).

#[global] Instance Operator_eq_dec : EqDecision Operator.
Proof. solve_decision. Defined.
#[global] Instance AttributeScope_eq_dec : EqDecision AttributeScope.
Proof. solve_decision. Defined.
#[global] Instance Intrinsic_eq_dec : EqDecision Intrinsic.
Proof. solve_decision. Defined.
#[global] Instance StaticType_eq_dec : EqDecision StaticType.
Proof. solve_decision. Defined.
#[global] Instance Status_eq_dec : EqDecision Status.
Proof. solve_decision. Defined.

(** Modelled from the spec: [Static], the tagged value.  The block code
    reads it as one struct with a tag [Type] and a field per kind
    ([N], [F], [S], [B], [D], [Status]); the zero value has tag
    [TypeNil]. *)
Record Static : Type := mkStatic {
  sType : StaticType;
  sN : Z;
  sF : float64;
  sS : string;
  sB : bool;
  sD : Z;
  sStatus : Status
}.

Definition zeroStatic : Static :=
  mkStatic TypeNil 0 f64_zero "" false 0 StatusError.

Definition NewStaticInt (n : Z) : Static :=
  mkStatic TypeInt n f64_zero "" false 0 StatusError.
Definition NewStaticFloat (f : float64) : Static :=
  mkStatic TypeFloat 0 f "" false 0 StatusError.
Definition NewStaticString (s : string) : Static :=
  mkStatic TypeString 0 f64_zero s false 0 StatusError.
Definition NewStaticBool (b : bool) : Static :=
  mkStatic TypeBoolean 0 f64_zero "" b 0 StatusError.
Definition NewStaticDuration (d : Z) : Static :=
  mkStatic TypeDuration 0 f64_zero "" false d StatusError.
Definition NewStaticStatus (s : Status) : Static :=
  mkStatic TypeStatus 0 f64_zero "" false 0 s.

(** Modelled from the spec: [Attribute], with scope, intrinsic and name;
    the struct is the key of a span's attribute map. *)
Record Attribute : Type := mkAttribute {
  Scope : AttributeScope;
  Parent : bool;
  Name : string;
  Intrinsic_ : Intrinsic
}.

#[global] Instance Attribute_eq_dec : EqDecision Attribute.
Proof. solve_decision. Defined.

Definition scope_code (s : AttributeScope) : nat :=
  match s with
  | AttributeScopeNone => 0 | AttributeScopeResource => 1
  | AttributeScopeSpan => 2 | AttributeScopeOther c => 3 + c
  end%nat.
Definition scope_of_code (n : nat) : AttributeScope :=
  match n with
  | 0 => AttributeScopeNone | 1 => AttributeScopeResource
  | 2 => AttributeScopeSpan | S (S (S c)) => AttributeScopeOther c
  end%nat.
Definition intrinsic_code (i : Intrinsic) : nat :=
  match i with
  | IntrinsicNone => 0 | IntrinsicDuration => 1 | IntrinsicName => 2
  | IntrinsicStatus => 3 | IntrinsicOther c => 4 + c
  end%nat.
Definition intrinsic_of_code (n : nat) : Intrinsic :=
  match n with
  | 0 => IntrinsicNone | 1 => IntrinsicDuration | 2 => IntrinsicName
  | 3 => IntrinsicStatus | S (S (S (S c))) => IntrinsicOther c
  end%nat.

#[global] Instance Attribute_countable : Countable Attribute.
Proof.
  refine (inj_countable'
    (fun a => (scope_code (Scope a), Parent a, Name a, intrinsic_code (Intrinsic_ a)))
    (fun t => let '(s, p, n, i) := t in
              mkAttribute (scope_of_code s) p n (intrinsic_of_code i)) _).
  intros [[] p n []]; reflexivity.
Defined.

(** The intrinsic's name as an attribute name ([Intrinsic.String]). *)
Definition Intrinsic_String (i : Intrinsic) : string :=
  match i with
  | IntrinsicNone => "none"
  | IntrinsicDuration => "duration"
  | IntrinsicName => "name"
  | IntrinsicStatus => "status"
  | IntrinsicOther _ => "intrinsic"
  end.

(** Modelled from the spec: [NewIntrinsic], the synthetic attribute an
    intrinsic appears under in a span's map. *)
Definition NewIntrinsic (n : Intrinsic) : Attribute :=
  mkAttribute AttributeScopeNone false (Intrinsic_String n) n.

(** Modelled from the spec: [NewScopedAttribute], a scoped attribute
    that is no intrinsic.  The block code calls it with the span or the
    resource scope only. *)
Definition NewScopedAttribute (scope : AttributeScope) (parent : bool) (att : string)
  : Attribute :=
  mkAttribute scope parent att IntrinsicNone.

(** Modelled from the spec: [Condition], [FetchSpansRequest], [Span] and
    [Spanset], field by field. *)
Record Condition : Type := mkCondition {
  Attribute_ : Attribute;
  Op : Operator;
  Operands : list Static
}.

Record FetchSpansRequest : Type := mkFetchSpansRequest {
  StartTimeUnixNanos : Z;
  EndTimeUnixNanos : Z;
  Conditions : list Condition;
  AllConditions : bool
}.

Record Span : Type := mkSpan {
  ID : string;
  spStartTimeUnixNanos : Z;
  spEndtimeUnixNanos : Z;
  Attributes : gmap Attribute Static
}.

Record Spanset : Type := mkSpanset {
  TraceID : string;
  RootSpanName : string;
  RootServiceName : string;
  ssStartTimeUnixNanos : Z;
  DurationNanos : Z;
  Spans : list Span
}.

End traceql.

(** ** segmentio/parquet-go: column values

    An external library.  A value is its kind with its payload; the
    accessors are the ones the block code calls.  The block schema types
    every column, so an accessor is applied to a value of its own kind;
    on another kind the library reinterprets raw bits, and the result
    chosen here is not relied upon. *)

Module parquet.

Inductive Kind : Type :=
| Boolean | Int32 | Int64 | Int96 | Float | Double | ByteArray
| FixedLenByteArray.

#[global] Instance Kind_eq_dec : EqDecision Kind.
Proof. solve_decision. Defined.

Inductive Value : Type :=
| NullValue
| BooleanValue (b : bool)
| Int32Value (i : Z)
| Int64Value (i : Z)
| Int96Value (i : Z)
| FloatValue (f : float64)
| DoubleValue (f : float64)
| ByteArrayValue (s : string)
| FixedLenByteArrayValue (s : string).

(** [Value.Kind]: negative (here [None]) for the null value. *)
Definition Value_Kind (v : Value) : option Kind :=
  match v with
  | NullValue => None
  | BooleanValue _ => Some Boolean
  | Int32Value _ => Some Int32
  | Int64Value _ => Some Int64
  | Int96Value _ => Some Int96
  | FloatValue _ => Some Float
  | DoubleValue _ => Some Double
  | ByteArrayValue _ => Some ByteArray
  | FixedLenByteArrayValue _ => Some FixedLenByteArray
  end.

Definition Value_Int64 (v : Value) : Z :=
  match v with
  | Int32Value i | Int64Value i => i
  | BooleanValue b => if b then 1 else 0
  | _ => 0
  end.

Definition Value_Uint64 (v : Value) : Z := uint64_of_int64 (Value_Int64 v).

Definition Value_Boolean (v : Value) : bool :=
  match v with
  | BooleanValue b => b
  | _ => false
  end.

Definition Value_Double (v : Value) : float64 :=
  match v with
  | FloatValue f | DoubleValue f => f
  | _ => f64_zero
  end.

Definition Value_String (v : Value) : string :=
  match v with
  | ByteArrayValue s | FixedLenByteArrayValue s => s
  | _ => ""
  end.

Definition Value_ByteArray (v : Value) : string := Value_String v.

End parquet.

(** ** pkg/parquetquery: predicates and iterator combinators

    Modelled from the spec: the package is not among the sources.  Its
    constructors are kept as data, so that a plan built by the block
    code can be inspected: which columns it reads, under which
    predicate, and in which required or optional position of which
    join. *)

Module parquetquery.
Import parquet.

(** Modelled from the spec: [GenericPredicate[T]], a value function and
    a page-range function. *)
Record GenericPredicate (T : Type) : Type := mkGenericPredicate {
  Fn : T -> bool;
  RangeFn : T -> T -> bool
}.
Arguments mkGenericPredicate {T} Fn RangeFn.
Arguments Fn {T} g v.
Arguments RangeFn {T} g min max.

(** Modelled from the spec: a non-nil [Predicate] interface value, one
    constructor per combinator.  [GenericInt64] holds a
    [*GenericPredicate[int64]], which may itself be a nil pointer. *)
Inductive Predicate : Type :=
| StringInPredicate (ss : list string)
| RegexInPredicate (regs : list string)
| GenericString (g : GenericPredicate string)
| GenericInt64 (g : option (GenericPredicate Z))
| GenericFloat64 (g : GenericPredicate float64)
| BoolPredicate (b : bool)
| IntBetweenPredicate (min max : Z)
| OrPredicate (preds : list (option Predicate)).

Definition NewStringInPredicate (ss : list string) : Predicate := StringInPredicate ss.
Definition NewGenericPredicate (fn : string -> bool) (rangeFn : string -> string -> bool)
  : Predicate := GenericString (mkGenericPredicate fn rangeFn).
Definition NewIntPredicate (fn : Z -> bool) (rangeFn : Z -> Z -> bool)
  : GenericPredicate Z := mkGenericPredicate fn rangeFn.
Definition NewFloatPredicate (fn : float64 -> bool) (rangeFn : float64 -> float64 -> bool)
  : Predicate := GenericFloat64 (mkGenericPredicate fn rangeFn).
Definition NewBoolPredicate (b : bool) : Predicate := BoolPredicate b.
Definition NewIntBetweenPredicate (min max : Z) : Predicate := IntBetweenPredicate min max.
Definition NewOrPredicate (preds : list (option Predicate)) : Predicate := OrPredicate preds.

(** The regular-expression engine, an external library: all the block
    code observes of it is whether a pattern compiles. *)
Class Regexp : Type := { regexp_compiles : string -> bool }.

Definition NewRegexInPredicate `{Regexp} (regs : list string) : outcome Predicate :=
  if forallb regexp_compiles regs then Ret (RegexInPredicate regs)
  else Fail (Errorf "error parsing regexp").

(** Modelled from the spec: [KeepValue] of the predicate built by
    [NewIntBetweenPredicate min max] (pkg/parquetquery, not among the
    sources).  The spec has it accept the values of the closed range:
    the column value, read as [int64], lies in [min, max]. *)
Definition IntBetween_KeepValue (min max : Z) (v : Value) : bool :=
  let vv := Value_Int64 v in (min <=? vv) && (vv <=? max).

(** Modelled from the spec: whether a column iterator yields a value
    under a time-window predicate.  A nil predicate accepts every
    value (the spec's pass-through); a between-predicate accepts by
    [IntBetween_KeepValue].  No other predicate is put on the time
    columns. *)
Definition timeFilterKeeps (p : option Predicate) (v : Value) : bool :=
  match p with
  | Some (IntBetweenPredicate min max) => IntBetween_KeepValue min max v
  | _ => true
  end.

(** Modelled from the spec: an iterator tree ([Join], [LeftJoin],
    [Union] over column iterators); [G] is the type of group predicates.  [Column]
    is what the [makeIter] closure returns for a column path, a
    predicate ([None]: no filtering) and the key its entries carry. *)
Inductive Iterator (G : Type) : Type :=
| Column (columnName : string) (predicate : option Predicate) (selectAs : string)
| JoinIterator (definitionLevel : nat) (iters : list (Iterator G)) (pred : G)
| LeftJoinIterator (definitionLevel : nat) (required optional : list (Iterator G)) (pred : G)
| UnionIterator (definitionLevel : nat) (iters : list (Iterator G)) (pred : option G).
Arguments Column {G} columnName predicate selectAs.
Arguments JoinIterator {G} definitionLevel iters pred.
Arguments LeftJoinIterator {G} definitionLevel required optional pred.
Arguments UnionIterator {G} definitionLevel iters pred.

Definition NewJoinIterator {G} := @JoinIterator G.
Definition NewLeftJoinIterator {G} := @LeftJoinIterator G.
Definition NewUnionIterator {G} := @UnionIterator G.

End parquetquery.

(** ** tempodb/encoding/vparquet: block_traceql.go *)

Module vparquet.
Import traceql parquet parquetquery.

(** *** Column paths and lookup tables *)

Definition columnPathTraceID := "TraceID".
Definition columnPathStartTimeUnixNano := "StartTimeUnixNano".
Definition columnPathDurationNanos := "DurationNanos".
Definition columnPathRootSpanName := "RootSpanName".
Definition columnPathRootServiceName := "RootServiceName".
Definition columnPathResourceAttrKey := "rs.Resource.Attrs.Key".
Definition columnPathResourceAttrString := "rs.Resource.Attrs.Value".
Definition columnPathResourceAttrInt := "rs.Resource.Attrs.ValueInt".
Definition columnPathResourceAttrDouble := "rs.Resource.Attrs.ValueDouble".
Definition columnPathResourceAttrBool := "rs.Resource.Attrs.ValueBool".
Definition columnPathResourceServiceName := "rs.Resource.ServiceName".
Definition columnPathResourceCluster := "rs.Resource.Cluster".
Definition columnPathResourceNamespace := "rs.Resource.Namespace".
Definition columnPathResourcePod := "rs.Resource.Pod".
Definition columnPathResourceContainer := "rs.Resource.Container".
Definition columnPathResourceK8sClusterName := "rs.Resource.K8sClusterName".
Definition columnPathResourceK8sNamespaceName := "rs.Resource.K8sNamespaceName".
Definition columnPathResourceK8sPodName := "rs.Resource.K8sPodName".
Definition columnPathResourceK8sContainerName := "rs.Resource.K8sContainerName".

Definition columnPathSpanID := "rs.ils.Spans.ID".
Definition columnPathSpanName := "rs.ils.Spans.Name".
Definition columnPathSpanStartTime := "rs.ils.Spans.StartUnixNanos".
Definition columnPathSpanEndTime := "rs.ils.Spans.EndUnixNanos".
Definition columnPathSpanStatusCode := "rs.ils.Spans.StatusCode".
Definition columnPathSpanAttrKey := "rs.ils.Spans.Attrs.Key".
Definition columnPathSpanAttrString := "rs.ils.Spans.Attrs.Value".
Definition columnPathSpanAttrInt := "rs.ils.Spans.Attrs.ValueInt".
Definition columnPathSpanAttrDouble := "rs.ils.Spans.Attrs.ValueDouble".
Definition columnPathSpanAttrBool := "rs.ils.Spans.Attrs.ValueBool".
Definition columnPathSpanHTTPStatusCode := "rs.ils.Spans.HttpStatusCode".
Definition columnPathSpanHTTPMethod := "rs.ils.Spans.HttpMethod".
Definition columnPathSpanHTTPURL := "rs.ils.Spans.HttpUrl".

(** Modelled from the spec: the attribute names with a dedicated
    column (the [Label...] constants of the package's schema file, not
    among the sources).  The spec names them: service name, cluster,
    namespace, pod, container, k8s.* at resource scope and
    http.status_code, http.method, http.url at span scope. *)
Definition LabelServiceName := "service.name".
Definition LabelCluster := "cluster".
Definition LabelNamespace := "namespace".
Definition LabelPod := "pod".
Definition LabelContainer := "container".
Definition LabelK8sClusterName := "k8s.cluster.name".
Definition LabelK8sNamespaceName := "k8s.namespace.name".
Definition LabelK8sPodName := "k8s.pod.name".
Definition LabelK8sContainerName := "k8s.container.name".
Definition LabelHTTPMethod := "http.method".
Definition LabelHTTPUrl := "http.url".
Definition LabelHTTPStatusCode := "http.status_code".

(** Modelled from the spec: the definition levels of the block schema
    (schema file, not among the sources): trace, resource spans,
    resource attributes, span, span attributes. *)
Definition DefinitionLevelTrace : nat := 0.
Definition DefinitionLevelResourceSpans : nat := 1.
Definition DefinitionLevelResourceAttrs : nat := 2.
Definition DefinitionLevelResourceSpansILSSpan : nat := 3.
Definition DefinitionLevelResourceSpansILSSpanAttrs : nat := 4.

(** Modelled from the spec: [StatusCodeMapping] applied to
    [Status.String()]: the status-code column stores 0 for unset, 1 for
    ok and 2 for error; a name the table lacks maps to Go's zero. *)
Definition StatusCodeMapping (s : Status) : Z :=
  match s with
  | StatusUnset => 0
  | StatusOk => 1
  | StatusError => 2
  | StatusRaw _ => 0
  end.

Record intrinsicLookup : Type := mkIntrinsicLookup {
  il_scope : AttributeScope;
  il_typ : StaticType;
  il_columnPath : string
}.

Definition intrinsicColumnLookups (i : Intrinsic) : option intrinsicLookup :=
  match i with
  | IntrinsicName =>
      Some (mkIntrinsicLookup AttributeScopeSpan TypeString columnPathSpanName)
  | IntrinsicStatus =>
      Some (mkIntrinsicLookup AttributeScopeSpan TypeStatus columnPathSpanStatusCode)
  | IntrinsicDuration =>
      Some (mkIntrinsicLookup AttributeScopeSpan TypeDuration "")
  | _ => None
  end.

Record wellKnownColumn : Type := mkWellKnownColumn {
  columnPath : string;
  level : AttributeScope;
  typ : StaticType
}.

Definition wellKnownColumnLookups : gmap string wellKnownColumn :=
  list_to_map [
    (LabelServiceName, mkWellKnownColumn columnPathResourceServiceName AttributeScopeResource TypeString);
    (LabelCluster, mkWellKnownColumn columnPathResourceCluster AttributeScopeResource TypeString);
    (LabelNamespace, mkWellKnownColumn columnPathResourceNamespace AttributeScopeResource TypeString);
    (LabelPod, mkWellKnownColumn columnPathResourcePod AttributeScopeResource TypeString);
    (LabelContainer, mkWellKnownColumn columnPathResourceContainer AttributeScopeResource TypeString);
    (LabelK8sClusterName, mkWellKnownColumn columnPathResourceK8sClusterName AttributeScopeResource TypeString);
    (LabelK8sNamespaceName, mkWellKnownColumn columnPathResourceK8sNamespaceName AttributeScopeResource TypeString);
    (LabelK8sPodName, mkWellKnownColumn columnPathResourceK8sPodName AttributeScopeResource TypeString);
    (LabelK8sContainerName, mkWellKnownColumn columnPathResourceK8sContainerName AttributeScopeResource TypeString);
    (LabelHTTPStatusCode, mkWellKnownColumn columnPathSpanHTTPStatusCode AttributeScopeSpan TypeInt);
    (LabelHTTPMethod, mkWellKnownColumn columnPathSpanHTTPMethod AttributeScopeSpan TypeString);
    (LabelHTTPUrl, mkWellKnownColumn columnPathSpanHTTPURL AttributeScopeSpan TypeString)
  ].

(** *** checkConditions *)

(** [reflect.TypeOf] of an operand: every operand is a
    [traceql.Static], whatever its tag. *)
Definition reflect_TypeOf (s : Static) : string := "traceql.Static".

(** The loop [for i := 1; i < opCount; i++] over the operands after
    the first, comparing each with [cond.Operands[0]]. *)
Fixpoint operandsSameType (first : Static) (rest : list Static) : bool :=
  match rest with
  | [] => true
  | o :: rest' =>
      if decide (reflect_TypeOf first <> reflect_TypeOf o) then false
      else operandsSameType first rest'
  end.

(** One iteration of the loop: [None] when the condition passes. *)
Definition checkCondition (cond : Condition) : option error :=
  let opCount := length (Operands cond) in
  let arity : option error :=
    match Op cond with
    | OpNone =>
        if decide (opCount <> 0%nat)
        then Some (Errorf "operanion none must have 0 arguments")
        else None
    | OpEqual | OpNotEqual | OpGreater | OpGreaterEqual
    | OpLess | OpLessEqual | OpRegex =>
        if decide (opCount <> 1%nat)
        then Some (Errorf "operation must have exactly 1 argument")
        else None
    | OpOther _ => Some (Errorf "unknown operation")
    end in
  match arity with
  | Some e => Some e
  | None =>
      match Operands cond with
      | [] => None
      | first :: rest =>
          if operandsSameType first rest then None
          else Some (Errorf "operands must be of the same type")
      end
  end.

Fixpoint checkConditions (conditions : list Condition) : option error :=
  match conditions with
  | [] => None
  | cond :: rest =>
      match checkCondition cond with
      | Some e => Some e
      | None => checkConditions rest
      end
  end.

(** A condition that breaks the arity rules of its operator. *)
Definition malformed (cond : Condition) : Prop :=
  match Op cond with
  | OpNone => length (Operands cond) <> 0%nat
  | OpEqual | OpNotEqual | OpGreater | OpGreaterEqual
  | OpLess | OpLessEqual | OpRegex => length (Operands cond) <> 1%nat
  | OpOther _ => True
  end.

Definition operandType (operands : list Static) : StaticType :=
  match operands with
  | o :: _ => sType o
  | [] => TypeNil
  end.

(** *** Predicates from conditions *)

Section Predicates.
Context `{!Regexp}.

(** [operands[0]]: an index out of range panics. *)
Definition firstOperand (operands : list Static) : outcome Static :=
  match operands with
  | o :: _ => Ret o
  | [] => Panics "index out of range [0] with length 0"
  end.

Definition createStringPredicate (op : Operator) (operands : list Static)
  : outcome (option Predicate) :=
  if decide (op = OpNone) then Ret None
  else if negb (forallb (fun o => bool_decide (sType o = TypeString)) operands)
  then Fail (Errorf "operand is not string")
  else
    o ← firstOperand operands;
    let s := sS o in
    match op with
    | OpEqual => Ret (Some (NewStringInPredicate [s]))
    | OpNotEqual =>
        Ret (Some (NewGenericPredicate
                     (fun v => negb (String.eqb v s))
                     (fun min max => negb (String.eqb min s) || negb (String.eqb max s))))
    | OpRegex => p ← NewRegexInPredicate [s]; Ret (Some p)
    | _ => Fail (Errorf "operand not supported for strings")
    end.

(** The [switch op] shared by the integer and the status predicates:
    value function and page-range function for operand [i]. *)
Definition intFns (op : Operator) (i : Z)
  : outcome (GenericPredicate Z) :=
  match op with
  | OpEqual =>
      Ret (NewIntPredicate (fun v => v =? i) (fun min max => (min <=? i) && (i <=? max)))
  | OpNotEqual =>
      Ret (NewIntPredicate (fun v => negb (v =? i))
                           (fun min max => negb (min =? i) || negb (max =? i)))
  | OpGreater =>
      Ret (NewIntPredicate (fun v => v >? i) (fun min max => max >? i))
  | OpGreaterEqual =>
      Ret (NewIntPredicate (fun v => v >=? i) (fun min max => max >=? i))
  | OpLess =>
      Ret (NewIntPredicate (fun v => v <? i) (fun min max => min <? i))
  | OpLessEqual =>
      Ret (NewIntPredicate (fun v => v <=? i) (fun min max => min <=? i))
  | _ => Fail (Errorf "operand not supported for integers")
  end.

Definition createIntPredicate (op : Operator) (operands : list Static)
  : outcome (option (GenericPredicate Z)) :=
  if decide (op = OpNone) then Ret None
  else
    o ← firstOperand operands;
    i ← match sType o with
        | TypeInt => Ret (sN o)
        | TypeDuration => Ret (sD o)
        | _ => Fail (Errorf "operand is not int or duration")
        end;
    g ← intFns op i;
    Ret (Some g).

Definition createStatusPredicate (op : Operator) (operands : list Static)
  : outcome (option (GenericPredicate Z)) :=
  if decide (op = OpNone) then Ret None
  else
    o ← firstOperand operands;
    i ← match sType o with
        | TypeInt => Ret (sN o)
        | TypeStatus => Ret (StatusCodeMapping (sStatus o))
        | _ => Fail (Errorf "operand is not int or status")
        end;
    g ← intFns op i;
    Ret (Some g).

Definition createFloatPredicate (op : Operator) (operands : list Static)
  : outcome (option Predicate) :=
  if decide (op = OpNone) then Ret None
  else
    o ← firstOperand operands;
    if decide (sType o <> TypeFloat) then Fail (Errorf "operand is not float")
    else
      let i := sF o in
      match op with
      | OpEqual =>
          Ret (Some (NewFloatPredicate (fun v => f64_eqb v i)
                       (fun min max => f64_leb min i && f64_leb i max)))
      | OpNotEqual =>
          Ret (Some (NewFloatPredicate (fun v => negb (f64_eqb v i))
                       (fun min max => negb (f64_eqb min i) || negb (f64_eqb max i))))
      | OpGreater =>
          Ret (Some (NewFloatPredicate (fun v => f64_ltb i v) (fun min max => f64_ltb i max)))
      | OpGreaterEqual =>
          Ret (Some (NewFloatPredicate (fun v => f64_leb i v) (fun min max => f64_leb i max)))
      | OpLess =>
          Ret (Some (NewFloatPredicate (fun v => f64_ltb v i) (fun min max => f64_ltb min i)))
      | OpLessEqual =>
          Ret (Some (NewFloatPredicate (fun v => f64_leb v i) (fun min max => f64_leb min i)))
      | _ => Fail (Errorf "operand not supported for floats")
      end.

Definition createBoolPredicate (op : Operator) (operands : list Static)
  : outcome (option Predicate) :=
  if decide (op = OpNone) then Ret None
  else
    o ← firstOperand operands;
    if decide (sType o <> TypeBoolean) then Fail (Errorf "operand is not bool")
    else
      match op with
      | OpEqual => Ret (Some (NewBoolPredicate (sB o)))
      | OpNotEqual => Ret (Some (NewBoolPredicate (negb (sB o))))
      | _ => Fail (Errorf "operand not supported for booleans")
      end.

(** A [*GenericPredicate[int64]] returned where a [Predicate] is
    expected becomes an interface value around the pointer. *)
Definition asPredicate (g : option (GenericPredicate Z)) : option Predicate :=
  Some (GenericInt64 g).

Definition createPredicate (op : Operator) (operands : list Static)
  : outcome (option Predicate) :=
  if decide (op = OpNone) then Ret None
  else
    o ← firstOperand operands;
    match sType o with
    | TypeString => createStringPredicate op operands
    | TypeInt => g ← createIntPredicate op operands; Ret (asPredicate g)
    | TypeFloat => createFloatPredicate op operands
    | TypeBoolean => createBoolPredicate op operands
    | _ => Fail (Errorf "cannot create predicate for operand")
    end.

End Predicates.

(** *** Collectors as plan nodes *)

(** The four [GroupPredicate] implementations with their fields. *)
Inductive collector : Type :=
| attributeCollector
| spanCollector (minAttributes : Z) (durationFilters : list (option (GenericPredicate Z)))
| batchCollector (requireAtLeastOneMatchOverall : bool) (minAttributes : Z)
| traceCollector.

Abbreviation Iter := (Iterator collector).

(** The [makeIter] closure of [makeIterFunc]: a column iterator over
    the row groups the closure captured. *)
Definition makeIter (columnName : string) (predicate : option Predicate) (selectAs : string)
  : Iter := Column columnName predicate selectAs.

(** A loop over a slice whose body may return early with an error. *)
Fixpoint forEach {A St : Type} (body : A -> St -> outcome St) (l : list A) (st : St)
  : outcome St :=
  match l with
  | [] => Ret st
  | a :: rest => st' ← body a st; forEach body rest st'
  end.

(** [m[k] = append(m[k], p)] on a map of slices. *)
Definition addPredicate (columnPath : string) (p : option Predicate)
    (columnPredicates : gmap string (list (option Predicate)))
  : gmap string (list (option Predicate)) :=
  <[columnPath := default [] (columnPredicates !! columnPath) ++ [p]]> columnPredicates.

(** The number of keys of the set built from the conditions'
    attribute names ([len(distinct)]). *)
Definition distinctNames (conditions : list Condition) : Z :=
  Z.of_nat (size (list_to_set (map (fun c => Name (Attribute_ c)) conditions) : gset string)).

Section Planner.
Context `{!Regexp}.

(** *** createAttributeIterator *)

Record attrPreds : Type := mkAttrPreds {
  attrKeys : list string;
  attrStringPreds : list (option Predicate);
  attrIntPreds : list (option Predicate);
  attrFltPreds : list (option Predicate);
  boolPreds : list (option Predicate)
}.

Definition attrStep (cond : Condition) (st : attrPreds) : outcome attrPreds :=
  let st := mkAttrPreds (attrKeys st ++ [Name (Attribute_ cond)])
              (attrStringPreds st) (attrIntPreds st) (attrFltPreds st) (boolPreds st) in
  if decide (Op cond = OpNone) then
    Ret (mkAttrPreds (attrKeys st)
           (attrStringPreds st ++ [None]) (attrIntPreds st ++ [None])
           (attrFltPreds st ++ [None]) (boolPreds st ++ [None]))
  else
    o ← firstOperand (Operands cond);
    match sType o with
    | TypeString =>
        pred ← wrapping "creating attribute predicate"
                 (createStringPredicate (Op cond) (Operands cond));
        Ret (mkAttrPreds (attrKeys st) (attrStringPreds st ++ [pred])
               (attrIntPreds st) (attrFltPreds st) (boolPreds st))
    | TypeInt =>
        pred ← wrapping "creating attribute predicate"
                 (createIntPredicate (Op cond) (Operands cond));
        Ret (mkAttrPreds (attrKeys st) (attrStringPreds st)
               (attrIntPreds st ++ [asPredicate pred]) (attrFltPreds st) (boolPreds st))
    | TypeFloat =>
        pred ← wrapping "creating attribute predicate"
                 (createFloatPredicate (Op cond) (Operands cond));
        Ret (mkAttrPreds (attrKeys st) (attrStringPreds st)
               (attrIntPreds st) (attrFltPreds st ++ [pred]) (boolPreds st))
    | TypeBoolean =>
        pred ← wrapping "creating attribute predicate"
                 (createBoolPredicate (Op cond) (Operands cond));
        Ret (mkAttrPreds (attrKeys st) (attrStringPreds st)
               (attrIntPreds st) (attrFltPreds st) (boolPreds st ++ [pred]))
    | _ => Ret st
    end.

Definition createAttributeIterator (T : collector) (conditions : list Condition)
    (definitionLevel : nat) (keyPath strPath intPath floatPath boolPath : string)
  : outcome (option Iter) :=
  st ← forEach attrStep conditions (mkAttrPreds [] [] [] [] []);
  let valueIters : list Iter := [] in
  let valueIters :=
    if decide (0 < length (attrStringPreds st))%nat
    then valueIters ++ [makeIter strPath (Some (NewOrPredicate (attrStringPreds st))) "string"]
    else valueIters in
  let valueIters :=
    if decide (0 < length (attrIntPreds st))%nat
    then valueIters ++ [makeIter intPath (Some (NewOrPredicate (attrIntPreds st))) "int"]
    else valueIters in
  let valueIters :=
    if decide (0 < length (attrFltPreds st))%nat
    then valueIters ++ [makeIter floatPath (Some (NewOrPredicate (attrFltPreds st))) "float"]
    else valueIters in
  let valueIters :=
    if decide (0 < length (boolPreds st))%nat
    then valueIters ++ [makeIter boolPath (Some (NewOrPredicate (boolPreds st))) "bool"]
    else valueIters in
  if decide (0 < length valueIters)%nat then
    Ret (Some (NewLeftJoinIterator definitionLevel
                 [makeIter keyPath (Some (NewStringInPredicate (attrKeys st))) "key"]
                 valueIters T))
  else Ret None.

(** The state the column-iterator builders thread through their
    loops: the two maps, the iterators so far, the conditions left
    to the generic attribute table and the duration predicates. *)
Record columnState : Type := mkColumnState {
  columnSelectAs : gmap string string;
  columnPredicates : gmap string (list (option Predicate));
  iters : list Iter;
  genericConditions : list Condition;
  durationPredicates : list (option (GenericPredicate Z))
}.

Definition emptyColumnState : columnState := mkColumnState ∅ ∅ [] [] [].

Definition withPredicate (path : string) (p : option Predicate) (selectAs : string)
    (st : columnState) : columnState :=
  mkColumnState (<[path := selectAs]> (columnSelectAs st))
    (addPredicate path p (columnPredicates st))
    (iters st) (genericConditions st) (durationPredicates st).

Definition withIter (it : Iter) (st : columnState) : columnState :=
  mkColumnState (columnSelectAs st) (columnPredicates st)
    (iters st ++ [it]) (genericConditions st) (durationPredicates st).

Definition withGeneric (cond : Condition) (st : columnState) : columnState :=
  mkColumnState (columnSelectAs st) (columnPredicates st)
    (iters st) (genericConditions st ++ [cond]) (durationPredicates st).

Definition withDuration (p : option (GenericPredicate Z)) (st : columnState)
  : columnState :=
  mkColumnState (columnSelectAs st) (columnPredicates st)
    (iters st) (genericConditions st) (durationPredicates st ++ [p]).

(** [for columnPath, predicates := range columnPredicates]: one
    column iterator per key of the map. *)
Definition emitColumnPredicates (st : columnState) : columnState :=
  foldl (fun st kv =>
           withIter (makeIter kv.1 (Some (NewOrPredicate kv.2))
                       (default "" (columnSelectAs st !! kv.1))) st)
        st (map_to_list (columnPredicates st)).

(** The predicate that selects every non-empty value of a
    well-known column that the query did not name. *)
Definition nonEmptyPredicate : Predicate :=
  NewGenericPredicate
    (fun v => bool_decide (0 < String.length v)%nat)
    (fun min max => negb (String.eqb min "") || negb (String.eqb max "")).

(** The loop over [wellKnownColumnLookups] under
    [withAllWellKnownColumns], for the columns of scope [lvl].  The
    presence test looks the attribute name up in a map keyed by
    column path, as the source does. *)
Definition addAllWellKnownColumns (lvl : AttributeScope) (st : columnState)
  : columnState :=
  foldl (fun st kv =>
           let name := kv.1 in
           let column := kv.2 in
           match columnPredicates st !! name with
           | None =>
               if decide (level column = lvl)
               then withPredicate (columnPath column) (Some nonEmptyPredicate) name st
               else st
           | Some _ => st
           end)
        st (map_to_list wellKnownColumnLookups).

(** *** createSpanColumnIterators *)

Definition spanColumnStep (cond : Condition) (st : columnState) : outcome columnState :=
  let generic := Ret (withGeneric cond st) in
  let wellKnown :=
    match wellKnownColumnLookups !! Name (Attribute_ cond) with
    | Some entry =>
        if decide (level entry <> AttributeScopeResource) then
          if decide (Op cond = OpNone) then
            Ret (withPredicate (columnPath entry) None (Name (Attribute_ cond)) st)
          else if decide (typ entry = operandType (Operands cond)) then
            pred ← wrapping "creating predicate" (createPredicate (Op cond) (Operands cond));
            Ret (withPredicate (columnPath entry) pred (Name (Attribute_ cond)) st)
          else generic
        else generic
    | None => generic
    end in
  match Intrinsic_ (Attribute_ cond) with
  | IntrinsicName =>
      pred ← createStringPredicate (Op cond) (Operands cond);
      Ret (withPredicate columnPathSpanName pred columnPathSpanName st)
  | IntrinsicDuration =>
      pred ← createIntPredicate (Op cond) (Operands cond);
      Ret (withDuration pred st)
  | IntrinsicStatus =>
      pred ← createStatusPredicate (Op cond) (Operands cond);
      Ret (withPredicate columnPathSpanStatusCode (asPredicate pred)
             columnPathSpanStatusCode st)
  | _ => wellKnown
  end.

Definition createSpanColumnIterators (T : collector) (conditions : list Condition)
    (withAllWellKnownColumns : bool)
  : outcome (list Iter * list (option (GenericPredicate Z))) :=
  st ← forEach spanColumnStep conditions emptyColumnState;
  attrIter ← wrapping "creating span attribute iterator"
               (createAttributeIterator T (genericConditions st)
                  DefinitionLevelResourceSpansILSSpanAttrs
                  columnPathSpanAttrKey columnPathSpanAttrString columnPathSpanAttrInt
                  columnPathSpanAttrDouble columnPathSpanAttrBool);
  let st := match attrIter with
            | Some it => withIter it st
            | None => st
            end in
  let st := if withAllWellKnownColumns
            then addAllWellKnownColumns AttributeScopeSpan st else st in
  let st := emitColumnPredicates st in
  Ret (iters st, durationPredicates st).

(** *** createSpanIterator *)

(** The two time-window predicates: none unless both bounds are set. *)
Definition timeFilters (start end_ : Z) : option Predicate * option Predicate :=
  if (start >? 0) && (end_ >? 0) then
    (Some (NewIntBetweenPredicate 0 (int64_of_uint64 end_)),
     Some (NewIntBetweenPredicate (int64_of_uint64 start) MaxInt64))
  else (None, None).

Definition createSpanIterator (conditions : list Condition) (start end_ : Z)
    (requireAtLeastOneMatch allConditions : bool) : outcome Iter :=
  '(iters, durationPredicates) ←
    createSpanColumnIterators attributeCollector conditions false;
  let '(startFilter, endFilter) := timeFilters start end_ in
  let required : list Iter := [] in
  let minCount := 0 in
  let minCount := if requireAtLeastOneMatch then 1 else minCount in
  let minCount := if allConditions then distinctNames conditions else minCount in
  let spanCol := spanCollector minCount durationPredicates in
  let '(required, iters) :=
    if allConditions then (required ++ iters, []) else (required, iters) in
  let '(required, iters) :=
    if requireAtLeastOneMatch && bool_decide (0 < length iters)%nat
       && bool_decide (length durationPredicates = 0%nat)
    then (required ++ [NewUnionIterator DefinitionLevelResourceSpansILSSpan iters None], [])
    else (required, iters) in
  let required := required ++ [makeIter columnPathSpanStartTime startFilter columnPathSpanStartTime] in
  let required := required ++ [makeIter columnPathSpanEndTime endFilter columnPathSpanEndTime] in
  let required := required ++ [makeIter columnPathSpanID None columnPathSpanID] in
  Ret (NewLeftJoinIterator DefinitionLevelResourceSpansILSSpan required iters spanCol).

(** *** createResourceColumIterators *)

Definition resourceColumnStep (cond : Condition) (st : columnState)
  : outcome columnState :=
  let generic := Ret (withGeneric cond st) in
  match wellKnownColumnLookups !! Name (Attribute_ cond) with
  | Some entry =>
      if decide (level entry <> AttributeScopeSpan) then
        if decide (Op cond = OpNone) then
          Ret (withPredicate (columnPath entry) None (Name (Attribute_ cond)) st)
        else if decide (typ entry = operandType (Operands cond)) then
          pred ← wrapping "creating predicate" (createPredicate (Op cond) (Operands cond));
          Ret (withIter (makeIter (columnPath entry) pred (Name (Attribute_ cond))) st)
        else generic
      else generic
  | None => generic
  end.

Definition createResourceColumIterators (T : collector) (conditions : list Condition)
    (withAllWellKnownColumns : bool) : outcome (list Iter) :=
  st ← forEach resourceColumnStep conditions emptyColumnState;
  attrIter ← wrapping "creating span attribute iterator"
               (createAttributeIterator T (genericConditions st)
                  DefinitionLevelResourceAttrs
                  columnPathResourceAttrKey columnPathResourceAttrString
                  columnPathResourceAttrInt columnPathResourceAttrDouble
                  columnPathResourceAttrBool);
  let st := match attrIter with
            | Some it => withIter it st
            | None => st
            end in
  let st := emitColumnPredicates st in
  let st := if withAllWellKnownColumns
            then addAllWellKnownColumns AttributeScopeResource st else st in
  let st := emitColumnPredicates st in
  Ret (iters st).

(** *** createResourceIterator and createTraceIterator *)

Definition createResourceIterator (spanIterator : Iter) (conditions : list Condition)
    (requireAtLeastOneMatch requireAtLeastOneMatchOverall allConditions : bool)
  : outcome Iter :=
  columnIters ← createResourceColumIterators attributeCollector conditions false;
  let minCount := 0 in
  let minCount := if requireAtLeastOneMatch then 1 else minCount in
  let minCount := if allConditions then distinctNames conditions else minCount in
  let batchCol := batchCollector requireAtLeastOneMatchOverall minCount in
  let required : list Iter := [] in
  let '(required, columnIters) :=
    if allConditions then (required ++ columnIters, []) else (required, columnIters) in
  let '(required, columnIters) :=
    if requireAtLeastOneMatch && bool_decide (0 < length columnIters)%nat
    then (required ++ [NewUnionIterator DefinitionLevelResourceSpans columnIters None], [])
    else (required, columnIters) in
  let required := required ++ [spanIterator] in
  Ret (NewLeftJoinIterator DefinitionLevelResourceSpans required columnIters batchCol).

Definition createTraceIterator (resourceIter : Iter) : Iter :=
  let traceIters := [
    resourceIter;
    makeIter columnPathTraceID None columnPathTraceID;
    makeIter columnPathStartTimeUnixNano None columnPathStartTimeUnixNano;
    makeIter columnPathDurationNanos None columnPathDurationNanos;
    makeIter columnPathRootSpanName None columnPathRootSpanName;
    makeIter columnPathRootServiceName None columnPathRootServiceName
  ] in
  NewJoinIterator DefinitionLevelTrace traceIters traceCollector.

(** *** fetch *)

(** The three variables the categorising loop assigns. *)
Record categories : Type := mkCategories {
  mingledConditions : bool;
  spanConditions : list Condition;
  resourceConditions : list Condition
}.

(** The scope a condition is filed under: its own, or the
    intrinsic's default scope for an unscoped intrinsic. *)
Definition effectiveScope (cond : Condition) : AttributeScope :=
  let scope := Scope (Attribute_ cond) in
  if decide (Scope (Attribute_ cond) = AttributeScopeNone) then
    match intrinsicColumnLookups (Intrinsic_ (Attribute_ cond)) with
    | Some lookup => il_scope lookup
    | None => scope
    end
  else scope.

Definition categorizeStep (cond : Condition) (st : categories) : outcome categories :=
  match effectiveScope cond with
  | AttributeScopeNone =>
      Ret (mkCategories true (spanConditions st ++ [cond]) (resourceConditions st ++ [cond]))
  | AttributeScopeSpan =>
      Ret (mkCategories (mingledConditions st) (spanConditions st ++ [cond])
             (resourceConditions st))
  | AttributeScopeResource =>
      Ret (mkCategories (mingledConditions st) (spanConditions st)
             (resourceConditions st ++ [cond]))
  | AttributeScopeOther _ => Fail (Errorf "unsupported traceql scope")
  end.

Definition categorize (conditions : list Condition) : outcome categories :=
  forEach categorizeStep conditions (mkCategories false [] []).

(** Modelled from the spec: the two fields of [common.SearchOptions]
    that [fetch] reads. *)
Record SearchOptions : Type := mkSearchOptions {
  StartPage : Z;
  TotalPages : Z
}.

(** A row group of the file, by its position. *)
Definition RowGroup : Type := nat.

Record File : Type := mkFile { RowGroups : list RowGroup }.

(** The slice expression [s[low:high]]; it panics unless
    [0 <= low <= high <= cap(s)].  The capacity is taken to be the
    length: [fetch] never asks for a [high] beyond the length. *)
Definition slice {A : Type} (s : list A) (low high : Z) : outcome (list A) :=
  if (0 <=? low) && (low <=? high) && (high <=? Z.of_nat (length s))
  then Ret (take (Z.to_nat (high - low)) (drop (Z.to_nat low) s))
  else Panics "slice bounds out of range".

(** The row groups the scan is narrowed to. *)
Definition selectRowGroups (rgs : list RowGroup) (opts : SearchOptions)
  : outcome (list RowGroup) :=
  if TotalPages opts >? 0 then
    let len := Z.of_nat (length rgs) in
    let totalPages :=
      if wrap_int64 (StartPage opts + TotalPages opts) >? len
      then wrap_int64 (len - StartPage opts)
      else TotalPages opts in
    slice rgs (StartPage opts) (wrap_int64 (StartPage opts + totalPages))
  else Ret rgs.

(** The effective [allConditions] flag. *)
Definition effectiveAllConditions (req : FetchSpansRequest) (cats : categories) : bool :=
  AllConditions req && negb (mingledConditions cats).

(** [genIterator]: the trace iterator, and the row groups its
    columns read (those the [makeIter] closure captured). *)
Record genIterator : Type := mkGenIterator {
  scanned : list RowGroup;
  tree : Iter
}.

Definition fetch (req : FetchSpansRequest) (pf : File) (opts : SearchOptions)
  : outcome genIterator :=
  cats ← categorize (Conditions req);
  rgs ← selectRowGroups (RowGroups pf) opts;
  let spanRequireAtLeastOneMatch :=
    bool_decide (0 < length (spanConditions cats))%nat
    && bool_decide (length (resourceConditions cats) = 0%nat) in
  let batchRequireAtLeastOneMatch :=
    bool_decide (length (spanConditions cats) = 0%nat)
    && bool_decide (0 < length (resourceConditions cats))%nat in
  let batchRequireAtLeastOneMatchOverall :=
    bool_decide (0 < length (Conditions req))%nat in
  let allConditions := effectiveAllConditions req cats in
  spanIter ← wrapping "creating span iterator"
               (createSpanIterator (spanConditions cats)
                  (StartTimeUnixNanos req) (EndTimeUnixNanos req)
                  spanRequireAtLeastOneMatch allConditions);
  resourceIter ← wrapping "creating resource iterator"
                   (createResourceIterator spanIter (resourceConditions cats)
                      batchRequireAtLeastOneMatch batchRequireAtLeastOneMatchOverall
                      allConditions);
  Ret (mkGenIterator rgs (createTraceIterator resourceIter)).

(** *** Fetch *)

(** What [Fetch] does to the outside world, in order. *)
Inductive event : Type :=
| OpenForSearch (opts : SearchOptions).

(** Modelled from the spec: the block, of which [Fetch] only calls
    [openForSearch]; it yields the file or fails. *)
Record backendBlock : Type := mkBackendBlock {
  openForSearch : SearchOptions -> outcome File
}.

(** [Fetch] returns its result and the I/O it performed. *)
Definition Fetch (b : backendBlock) (req : FetchSpansRequest) (opts : SearchOptions)
  : outcome genIterator * list event :=
  match checkConditions (Conditions req) with
  | Some err => (Fail (Wrap err "conditions invalid"), [])
  | None =>
      let io := [OpenForSearch opts] in
      match openForSearch b opts with
      | Ret pf => (wrapping "creating fetch iter" (fetch req pf opts), io)
      | Fail err => (Fail err, io)
      | Panics msg => (Panics msg, io)
      end
  end.

End Planner.

(** *** mergeSpansetIterator *)

(** What a [Next] call returns: the spanset pointer and the error. *)
Definition nextResult : Type := option Spanset * option error.

(** Modelled from the spec: a sub-iterator
    ([*genIterator[traceql.Spanset]]), whose [Next] is not among the
    sources.  The spec gives [next] the results spanset, end or error;
    all that is assumed here is that the result of its n-th call is
    determined ([script]), and [calls] counts the calls made so far. *)
Record subIterator : Type := mkSubIterator {
  script : nat -> nextResult;
  calls : nat
}.

Definition sub_Next (it : subIterator) : nextResult * subIterator :=
  (script it (calls it), mkSubIterator (script it) (S (calls it))).

Record mergeSpansetIterator : Type := mkMergeSpansetIterator {
  mIters : list subIterator;
  cur : nat
}.

(** [Next] returns its result and the iterator as the call left it.
    The recursive call happens after [i.cur++], so the number of
    sub-iterators still ahead decreases. *)
Equations? Next (i : mergeSpansetIterator) : nextResult * mergeSpansetIterator
  by wf (length (mIters i) - cur i)%nat lt :=
  Next i with decide (length (mIters i) <= cur i)%nat => {
    | left _ := ((None, None), i);
    | right _ with mIters i !! cur i => {
        | None := ((None, None), i);
        | Some it with sub_Next it => {
            | ((_, Some err), it') :=
                ((None, Some err),
                 mkMergeSpansetIterator (<[cur i := it']> (mIters i)) (cur i));
            | ((None, None), it') :=
                Next (mkMergeSpansetIterator (<[cur i := it']> (mIters i)) (S (cur i)));
            | ((Some spanset, None), it') :=
                ((Some spanset, None),
                 mkMergeSpansetIterator (<[cur i := it']> (mIters i)) (cur i)) } } }.
Proof. simpl. rewrite length_insert. lia. Qed.

(** The iterator after [n] calls of [Next]. *)
Fixpoint afterCalls (n : nat) (i : mergeSpansetIterator) : mergeSpansetIterator :=
  match n with
  | O => i
  | S n' => afterCalls n' (Next i).2
  end.

(** *** Collectors *)

(** An [interface{}] value in [OtherEntries]: the collectors put a
    [traceql.Static], a [*traceql.Span] or a [*traceql.Spanset] there. *)
Inductive Any : Type :=
| AnyStatic (s : Static)
| AnySpan (sp : Span)
| AnySpanset (ss : Spanset).

(** Modelled from the spec: the result of a group, with its column
    entries and its side-channel entries. *)
Record IteratorResult : Type := mkIteratorResult {
  Entries : list (string * Value);
  OtherEntries : list (string * Any)
}.

Definition newSpanAttr (name : string) : Attribute :=
  NewScopedAttribute AttributeScopeSpan false name.

Definition newResAttr (name : string) : Attribute :=
  NewScopedAttribute AttributeScopeResource false name.

(** [attributeCollector.KeepGroup]: always keeps the group. *)
Definition attributeCollector_KeepGroup (res : IteratorResult) : IteratorResult :=
  let '(key, val) :=
    foldl (fun kv e =>
             let '(key, val) := kv in
             match Value_Kind e.2 with
             | None => (key, val)
             | Some _ =>
                 if decide (e.1 = "key") then (Value_String e.2, val)
                 else if decide (e.1 = "string") then (key, NewStaticString (Value_String e.2))
                 else if decide (e.1 = "int") then (key, NewStaticInt (Value_Int64 e.2))
                 else if decide (e.1 = "float") then (key, NewStaticFloat (Value_Double e.2))
                 else if decide (e.1 = "bool") then (key, NewStaticBool (Value_Boolean e.2))
                 else (key, val)
             end)
          ("", zeroStatic) (Entries res) in
  mkIteratorResult [] [(key, AnyStatic val)].

(** The status column mapped back to the TraceQL enum. *)
Definition statusOfCode (code : Z) : Status :=
  if decide (code = 0) then StatusUnset
  else if decide (code = 1) then StatusOk
  else if decide (code = 2) then StatusError
  else StatusRaw code.

(** The body of the loop over [res.Entries] in the span collector. *)
Definition spanEntry (span : Span) (kv : string * Value) : Span :=
  let withAttr a v :=
    mkSpan (ID span) (spStartTimeUnixNanos span) (spEndtimeUnixNanos span)
      (<[a := v]> (Attributes span)) in
  if decide (kv.1 = columnPathSpanID) then
    mkSpan (Value_ByteArray kv.2) (spStartTimeUnixNanos span) (spEndtimeUnixNanos span)
      (Attributes span)
  else if decide (kv.1 = columnPathSpanStartTime) then
    mkSpan (ID span) (Value_Uint64 kv.2) (spEndtimeUnixNanos span) (Attributes span)
  else if decide (kv.1 = columnPathSpanEndTime) then
    mkSpan (ID span) (spStartTimeUnixNanos span) (Value_Uint64 kv.2) (Attributes span)
  else if decide (kv.1 = columnPathSpanName) then
    withAttr (NewIntrinsic IntrinsicName) (NewStaticString (Value_String kv.2))
  else if decide (kv.1 = columnPathSpanStatusCode) then
    withAttr (NewIntrinsic IntrinsicStatus)
      (NewStaticStatus (statusOfCode (Value_Uint64 kv.2)))
  else
    match Value_Kind kv.2 with
    | Some Boolean => withAttr (newSpanAttr kv.1) (NewStaticBool (Value_Boolean kv.2))
    | Some Int32 | Some Int64 => withAttr (newSpanAttr kv.1) (NewStaticInt (Value_Int64 kv.2))
    | Some Float => withAttr (newSpanAttr kv.1) (NewStaticFloat (Value_Double kv.2))
    | Some ByteArray => withAttr (newSpanAttr kv.1) (NewStaticString (Value_String kv.2))
    | _ => span
    end.

(** The loop over [res.OtherEntries] in the span collector; the type
    assertion [e.Value.(traceql.Static)] panics on anything else. *)
Fixpoint spanOtherEntries (attrs : gmap Attribute Static) (es : list (string * Any))
  : outcome (gmap Attribute Static) :=
  match es with
  | [] => Ret attrs
  | (key, AnyStatic v) :: rest => spanOtherEntries (<[newSpanAttr key := v]> attrs) rest
  | _ :: _ => Panics "interface conversion: not a traceql.Static"
  end.

(** The number of attributes whose type is not nil. *)
Definition countNonNil (attrs : gmap Attribute Static) : Z :=
  Z.of_nat (length (filter (fun kv => sType kv.2 <> TypeNil) (map_to_list attrs))).

(** [spanCollector.KeepGroup]: the span it builds, or [None] when it
    rejects the group. *)
Definition spanCollector_build (minAttributes : Z)
    (durationFilters : list (option (GenericPredicate Z))) (res : IteratorResult)
  : outcome (option Span) :=
  attrs ← spanOtherEntries ∅ (OtherEntries res);
  let span := foldl spanEntry (mkSpan "" 0 0 attrs) (Entries res) in
  let span :=
    if decide (0 < length durationFilters)%nat then
      let duration := wrap_uint64 (spEndtimeUnixNanos span - spStartTimeUnixNanos span) in
      if existsb (fun f => match f with
                           | None => true
                           | Some g => Fn g (int64_of_uint64 duration)
                           end) durationFilters
      then mkSpan (ID span) (spStartTimeUnixNanos span) (spEndtimeUnixNanos span)
             (<[NewIntrinsic IntrinsicDuration :=
                  NewStaticDuration (int64_of_uint64 duration)]> (Attributes span))
      else span
    else span in
  if (minAttributes >? 0) && (countNonNil (Attributes span) <? minAttributes)
  then Ret None
  else Ret (Some span).

Definition spanCollector_KeepGroup (minAttributes : Z)
    (durationFilters : list (option (GenericPredicate Z))) (res : IteratorResult)
  : outcome (option IteratorResult) :=
  span ← spanCollector_build minAttributes durationFilters res;
  Ret (match span with
       | Some sp => Some (mkIteratorResult [] [("span", AnySpan sp)])
       | None => None
       end).

Definition setAttributes (span : Span) (attrs : gmap Attribute Static) : Span :=
  mkSpan (ID span) (spStartTimeUnixNanos span) (spEndtimeUnixNanos span) attrs.

(** The type switch over [res.OtherEntries] in the batch collector:
    spans are gathered in order, statics become resource attributes. *)
Definition batchOtherEntry (acc : gmap Attribute Static * list Span) (kv : string * Any)
  : gmap Attribute Static * list Span :=
  match kv.2 with
  | AnySpan sp => (acc.1, acc.2 ++ [sp])
  | AnyStatic v => (<[newResAttr kv.1 := v]> acc.1, acc.2)
  | AnySpanset _ => acc
  end.

(** Attributes from the dedicated resource-level columns. *)
Definition batchEntry (resAttrs : gmap Attribute Static) (e : string * Value)
  : gmap Attribute Static :=
  match Value_Kind e.2 with
  | Some Int64 => <[newResAttr e.1 := NewStaticInt (Value_Int64 e.2)]> resAttrs
  | Some ByteArray => <[newResAttr e.1 := NewStaticString (Value_String e.2)]> resAttrs
  | _ => resAttrs
  end.

(** [if _, alreadyExists := span.Attributes[k]; !alreadyExists
    { span.Attributes[k] = v }] *)
Definition copyAttr (k : Attribute) (v : Static) (span : Span) : Span :=
  match Attributes span !! k with
  | Some _ => span
  | None => setAttributes span (<[k := v]> (Attributes span))
  end.

(** The loop that copies the resource attributes onto the spans. *)
Definition copyResAttrs (resAttrs : gmap Attribute Static) (spans : list Span)
  : list Span :=
  foldl (fun spans kv => map (copyAttr kv.1 kv.2) spans) spans (map_to_list resAttrs).

(** The loop that deletes a span's attributes of nil type. *)
Definition removeUnmatched (span : Span) : Span :=
  setAttributes span
    (foldl (fun attrs kv =>
              if decide (sType kv.2 = TypeNil) then delete kv.1 attrs else attrs)
           (Attributes span) (map_to_list (Attributes span))).

Definition emptySpanset (spans : list Span) : Spanset :=
  mkSpanset "" "" "" 0 0 spans.

(** [batchCollector.KeepGroup]: the spanset it builds, or [None] when
    it rejects the batch. *)
Definition batchCollector_build (requireAtLeastOneMatchOverall : bool) (minAttributes : Z)
    (res : IteratorResult) : option Spanset :=
  let '(resAttrs, spans) := foldl batchOtherEntry (∅, []) (OtherEntries res) in
  if decide (length spans = 0%nat) then None
  else
    let resAttrs := foldl batchEntry resAttrs (Entries res) in
    if (minAttributes >? 0) && (Z.of_nat (size resAttrs) <? minAttributes) then None
    else
      let spans := copyResAttrs resAttrs spans in
      let spans := map removeUnmatched spans in
      let kept :=
        if requireAtLeastOneMatchOverall
        then filter (fun span => (0 < size (Attributes span))%nat) spans
        else spans in
      if decide (length kept = 0%nat) then None
      else Some (emptySpanset kept).

Definition batchCollector_KeepGroup (requireAtLeastOneMatchOverall : bool)
    (minAttributes : Z) (res : IteratorResult) : option IteratorResult :=
  match batchCollector_build requireAtLeastOneMatchOverall minAttributes res with
  | Some sp => Some (mkIteratorResult [] [("spanset", AnySpanset sp)])
  | None => None
  end.

(** [traceCollector.KeepGroup]: one spanset per trace, always kept. *)
Definition traceEntry (ss : Spanset) (e : string * Value) : Spanset :=
  if decide (e.1 = columnPathTraceID) then
    mkSpanset (Value_ByteArray e.2) (RootSpanName ss) (RootServiceName ss)
      (ssStartTimeUnixNanos ss) (DurationNanos ss) (Spans ss)
  else if decide (e.1 = columnPathStartTimeUnixNano) then
    mkSpanset (TraceID ss) (RootSpanName ss) (RootServiceName ss)
      (Value_Uint64 e.2) (DurationNanos ss) (Spans ss)
  else if decide (e.1 = columnPathDurationNanos) then
    mkSpanset (TraceID ss) (RootSpanName ss) (RootServiceName ss)
      (ssStartTimeUnixNanos ss) (Value_Uint64 e.2) (Spans ss)
  else if decide (e.1 = columnPathRootSpanName) then
    mkSpanset (TraceID ss) (Value_String e.2) (RootServiceName ss)
      (ssStartTimeUnixNanos ss) (DurationNanos ss) (Spans ss)
  else if decide (e.1 = columnPathRootServiceName) then
    mkSpanset (TraceID ss) (RootSpanName ss) (Value_String e.2)
      (ssStartTimeUnixNanos ss) (DurationNanos ss) (Spans ss)
  else ss.

Definition traceOtherEntry (ss : Spanset) (e : string * Any) : Spanset :=
  match e.2 with
  | AnySpanset spanset =>
      mkSpanset (TraceID ss) (RootSpanName ss) (RootServiceName ss)
        (ssStartTimeUnixNanos ss) (DurationNanos ss) (Spans ss ++ Spans spanset)
  | _ => ss
  end.

Definition traceCollector_build (res : IteratorResult) : Spanset :=
  foldl traceOtherEntry (foldl traceEntry (emptySpanset []) (Entries res))
    (OtherEntries res).

Definition traceCollector_KeepGroup (res : IteratorResult) : IteratorResult :=
  mkIteratorResult [] [("spanset", AnySpanset (traceCollector_build res))].

End vparquet.

(** ** modules/frontend: the SLO post hook *)

Module frontend.

(** Modelled from the spec: the two bounds of [SLOConfig]. *)
Record SLOConfig : Type := mkSLOConfig {
  DurationSLO : Z;
  ThroughputBytesSLO : float64
}.

Record Response : Type := mkResponse { StatusCode : Z }.

(** The three metrics the hook touches: two counters by tenant and the
    throughput histogram's observations, latest last. *)
Record metrics : Type := mkMetrics {
  allByTenantCounter : gmap string nat;
  withinSLOByTenantCounter : gmap string nat;
  searchThroughput : list (string * float64)
}.

(** [counter.WithLabelValues(tenant).Inc()] *)
Definition Inc (tenant : string) (c : gmap string nat) : gmap string nat :=
  <[tenant := S (default 0%nat (c !! tenant))]> c.

Definition counterValue (tenant : string) (c : gmap string nat) : nat :=
  default 0%nat (c !! tenant).

Definition codes_Unknown : Z := 2.
Definition codes_ResourceExhausted : Z := 8.

(** [status.Code(err)] for a non-nil error: the code of a gRPC status
    error, [Unknown] for any other. *)
Definition status_Code (err : error) : Z :=
  match err with
  | GrpcStatus code _ => code
  | _ => codes_Unknown
  end.

(** [errors.Is(err, context.Canceled)]: the chain of causes is searched. *)
Fixpoint errors_Is_Canceled (err : error) : bool :=
  match err with
  | ContextCanceled => true
  | Wrap cause _ => errors_Is_Canceled cause
  | _ => false
  end.

Definition Second : Z := 1000000000.

(** [time.Duration.Seconds]: whole seconds plus the remainder over
    1e9, with Go's truncating division. *)
Definition Duration_Seconds (d : Z) : float64 :=
  let sec := Z.quot d Second in
  let nsec := Z.rem d Second in
  f64_add (f64_of_Z sec) (f64_div (f64_of_Z nsec) (f64_of_Z 1000000000)).

(** The throughput the hook compares: zero unless the latency is positive. *)
Definition throughputOf (bytesProcessed latency : Z) : float64 :=
  let seconds := Duration_Seconds latency in
  if f64_ltb f64_zero seconds then f64_div (f64_of_Z bytesProcessed) seconds
  else f64_zero.

(** The handler [sloHook] returns, as a transformer of the metrics. *)
Definition sloHook (cfg : SLOConfig) (resp : option Response) (tenant : string)
    (bytesProcessed : Z) (latency : Z) (err : option error) (m : metrics) : metrics :=
  let m := mkMetrics (Inc tenant (allByTenantCounter m)) (withinSLOByTenantCounter m)
             (searchThroughput m) in
  let withinSLO (m : metrics) :=
    mkMetrics (allByTenantCounter m) (Inc tenant (withinSLOByTenantCounter m))
      (searchThroughput m) in
  match err with
  | Some e =>
      if (status_Code e =? codes_ResourceExhausted) || errors_Is_Canceled e
      then withinSLO m
      else m
  | None =>
      if match resp with
         | Some r => StatusCode r >=? 500
         | None => false
         end
      then m
      else
        let '(passedThroughput, m) :=
          if f64_ltb f64_zero (ThroughputBytesSLO cfg) then
            let throughput := throughputOf bytesProcessed latency in
            (f64_leb (ThroughputBytesSLO cfg) throughput,
             mkMetrics (allByTenantCounter m) (withinSLOByTenantCounter m)
               (searchThroughput m ++ [(tenant, throughput)]))
          else (false, m) in
        let passedDuration :=
          if DurationSLO cfg >? 0
          then (DurationSLO cfg =? 0) || (latency <? DurationSLO cfg)
          else false in
        let hasConfiguredSLO :=
          (DurationSLO cfg >? 0) || f64_ltb f64_zero (ThroughputBytesSLO cfg) in
        if negb passedDuration && negb passedThroughput && hasConfiguredSLO
        then m
        else withinSLO m
  end.

(** The call increments the within-SLO counter of the tenant. *)
Definition incrementsWithinSLO (cfg : SLOConfig) (resp : option Response)
    (tenant : string) (bytesProcessed latency : Z) (err : option error) (m : metrics)
  : Prop :=
  counterValue tenant (withinSLOByTenantCounter
                         (sloHook cfg resp tenant bytesProcessed latency err m))
  = S (counterValue tenant (withinSLOByTenantCounter m)).

(** The specification's rule for a query without error and without a
    5xx response, when a bound is configured: latency below the
    duration bound, or bytes processed divided by the latency in
    seconds at least the throughput bound. *)
Definition specWithinSLO (cfg : SLOConfig) (bytesProcessed latency : Z) : Prop :=
  latency < DurationSLO cfg
  \/ f64_leb (ThroughputBytesSLO cfg)
       (f64_div (f64_of_Z bytesProcessed) (Duration_Seconds latency)) = true.

(** The rule the hook implements: each bound counts only when it is
    configured, and the throughput is zero for a non-positive latency. *)
Definition hookWithinSLO (cfg : SLOConfig) (bytesProcessed latency : Z) : Prop :=
  (0 < DurationSLO cfg /\ latency < DurationSLO cfg)
  \/ (f64_ltb f64_zero (ThroughputBytesSLO cfg) = true
      /\ f64_leb (ThroughputBytesSLO cfg) (throughputOf bytesProcessed latency) = true).

Definition hasConfiguredSLO (cfg : SLOConfig) : Prop :=
  0 < DurationSLO cfg \/ f64_ltb f64_zero (ThroughputBytesSLO cfg) = true.

Definition serverError (resp : option Response) : Prop :=
  match resp with
  | Some r => 500 <= StatusCode r
  | None => False
  end.

End frontend.

(** ** tempodb/backend: the block meta (block_meta.go)

    A [[]byte] is a [string], one character per byte, as for the byte
    arrays of the parquet values.  A [time.Time] is taken by its seconds
    since January 1 of year 1 and its nanoseconds; none of the times
    here carries a monotonic reading. *)

Module backend.
Import traceql.

Definition DedicatedColumnTypeString : string := "string".
Definition DedicatedColumnScopeResource : string := "resource".
Definition DedicatedColumnScopeSpan : string := "span".

Definition ToStaticType (t : string) : outcome StaticType :=
  if decide (t = DedicatedColumnTypeString) then Ret TypeString
  else Fail (Errorf ("unsupported dedicated column type '" +:+ t +:+ "'")).

Record Time : Type := mkTime { sec : Z; nsec : Z }.

Definition unixToInternal : Z := 62135596800.

(** [time.Unix(s, 0)] *)
Definition time_Unix (s : Z) : Time := mkTime (wrap_int64 (s + unixToInternal)) 0.

(** The zero value of [time.Time]. *)
Definition zeroTime : Time := mkTime 0 0.

Definition IsZero (t : Time) : bool := (sec t =? 0) && (nsec t =? 0).

Definition Before (t u : Time) : bool :=
  (sec t <? sec u) || ((sec t =? sec u) && (nsec t <? nsec u)).

Definition After (t u : Time) : bool :=
  (sec t >? sec u) || ((sec t =? sec u) && (nsec t >? nsec u)).

(** [bytes.Compare]: -1, 0 or 1 by the lexicographic order of the bytes. *)
Definition bytes_Compare (a b : string) : Z :=
  match String.compare a b with
  | Lt => -1
  | Eq => 0
  | Gt => 1
  end.

Definition len (s : string) : Z := Z.of_nat (String.length s).

Record DedicatedColumn : Type := mkDedicatedColumn {
  Scope : string;
  Name : string;
  Type_ : string
}.

Record BlockMeta : Type := mkBlockMeta {
  Version : string;
  BlockID : string;
  MinID : string;
  MaxID : string;
  TenantID : string;
  StartTime : Time;
  EndTime : Time;
  TotalObjects : Z;
  Size : Z;
  CompactionLevel : Z;
  Encoding : Z;
  IndexPageSize : Z;
  TotalRecords : Z;
  DataEncoding : string;
  BloomShardCount : Z;
  FooterSize : Z;
  DedicatedColumns : list DedicatedColumn;
  dedicatedColumnsHash : Z
}.

(** The fields [ObjectAdded] assigns, the others kept. *)
Definition withObject (b : BlockMeta) (startTime endTime : Time) (minID maxID : string)
    (totalObjects : Z) : BlockMeta :=
  mkBlockMeta (Version b) (BlockID b) minID maxID (TenantID b) startTime endTime
    totalObjects (Size b) (CompactionLevel b) (Encoding b) (IndexPageSize b)
    (TotalRecords b) (DataEncoding b) (BloomShardCount b) (FooterSize b)
    (DedicatedColumns b) (dedicatedColumnsHash b).

(** [ObjectAdded], as a transformer of the meta; [start] and [end] are
    [uint32], so their conversion to [int64] keeps the value. *)
Definition ObjectAdded (b : BlockMeta) (id : string) (start end_ : Z) : BlockMeta :=
  let startTime :=
    if start >? 0 then
      let startTime := time_Unix start in
      if IsZero (StartTime b) || Before startTime (StartTime b) then startTime
      else StartTime b
    else StartTime b in
  let endTime :=
    if end_ >? 0 then
      let endTime := time_Unix end_ in
      if IsZero (EndTime b) || After endTime (EndTime b) then endTime
      else EndTime b
    else EndTime b in
  let minID :=
    if (len (MinID b) =? 0) || (bytes_Compare id (MinID b) =? -1) then id
    else MinID b in
  let maxID :=
    if (len (MaxID b) =? 0) || (bytes_Compare id (MaxID b) =? 1) then id
    else MaxID b in
  withObject b startTime endTime minID maxID (wrap_int64 (TotalObjects b + 1)).

(** [separatorByte]: the byte 255. *)
Definition separatorByte : string :=
  String (Ascii.Ascii true true true true true true true true) EmptyString.

(** The 64-bit xxhash of the bytes written to a digest; the hash
    function belongs to an imported package and is a parameter. *)
Class XXHash : Type := xxhash_Sum64 : string -> Z.

(** The bytes the loop of [hashColumns] writes to the digest. *)
Definition hashWrites (d : list DedicatedColumn) : string :=
  fold_left
    (fun h c => h +:+ Scope c +:+ separatorByte +:+ Name c +:+ separatorByte +:+ Type_ c)
    d EmptyString.

Section Hash.
Context `{XXHash}.

Definition hashColumns (d : list DedicatedColumn) : Z :=
  if Z.of_nat (length d) =? 0 then 0
  else xxhash_Sum64 (hashWrites d).

Definition NewBlockMetaWithDedicatedColumns (tenantID blockID version : string)
    (encoding : Z) (dataEncoding : string) (dc : list DedicatedColumn) : BlockMeta :=
  mkBlockMeta version blockID EmptyString EmptyString tenantID zeroTime zeroTime
    0 0 0 encoding 0 0 dataEncoding 0 0 dc (hashColumns dc).

Definition NewBlockMeta (tenantID blockID version : string) (encoding : Z)
    (dataEncoding : string) : BlockMeta :=
  NewBlockMetaWithDedicatedColumns tenantID blockID version encoding dataEncoding [].

Definition DedicatedColumnsHash (b : BlockMeta) : Z := dedicatedColumnsHash b.

End Hash.

End backend.

(** ** Notions for the block meta *)

Module metaprops.
Import backend.

(** An added object: its id, start and end. *)
Record Object : Type := mkObject { objID : string; objStart : Z; objEnd : Z }.

(** The meta after [ObjectAdded] for each object, in order. *)
Definition addObjects (b : BlockMeta) (objs : list Object) : BlockMeta :=
  fold_left (fun b o => ObjectAdded b (objID o) (objStart o) (objEnd o)) objs b.

Definition is_uint32 (z : Z) : Prop := 0 <= z < 2 ^ 32.

(** No id, start or end recorded so far, as in a new meta. *)
Definition fresh (b : BlockMeta) : Prop :=
  MinID b = EmptyString /\ MaxID b = EmptyString
  /\ StartTime b = zeroTime /\ EndTime b = zeroTime.

(** The string holds the byte 255. *)
Fixpoint hasSeparator (s : string) : bool :=
  match s with
  | EmptyString => false
  | String a s =>
      if Ascii.eqb a (Ascii.Ascii true true true true true true true true) then true
      else hasSeparator s
  end.

(** A column of the supported type whose scope and name are free of
    the separator byte (as any valid UTF-8 text is). *)
Definition validColumn (c : DedicatedColumn) : Prop :=
  ToStaticType (Type_ c) = Ret traceql.TypeString
  /\ hasSeparator (Scope c) = false /\ hasSeparator (Name c) = false.

(** The ids kept are among the ids given and bound them all. *)
Definition idBounds (b : BlockMeta) (objs : list Object) : Prop :=
  (exists o, o ∈ objs /\ MinID b = objID o)
  /\ (exists o, o ∈ objs /\ MaxID b = objID o)
  /\ forall o, o ∈ objs ->
       bytes_Compare (MinID b) (objID o) <= 0 /\ bytes_Compare (objID o) (MaxID b) <= 0.

(** The start time kept is the zero time when no object had a start,
    and else the earliest of the starts given. *)
Definition startBounds (b : BlockMeta) (objs : list Object) : Prop :=
  (StartTime b = zeroTime /\ forall o, o ∈ objs -> objStart o = 0)
  \/ exists o, o ∈ objs /\ 0 < objStart o /\ StartTime b = time_Unix (objStart o)
       /\ forall o', o' ∈ objs -> 0 < objStart o' -> objStart o <= objStart o'.

(** The end time kept is the zero time when no object had an end, and
    else the latest of the ends given. *)
Definition endBounds (b : BlockMeta) (objs : list Object) : Prop :=
  (EndTime b = zeroTime /\ forall o, o ∈ objs -> objEnd o = 0)
  \/ exists o, o ∈ objs /\ 0 < objEnd o /\ EndTime b = time_Unix (objEnd o)
       /\ forall o', o' ∈ objs -> objEnd o' <= objEnd o.

Definition timesInRange (o : Object) : Prop :=
  is_uint32 (objStart o) /\ is_uint32 (objEnd o).

(** The fields [ObjectAdded] never assigns agree. *)
Definition sameSettings (b b' : BlockMeta) : Prop :=
  Version b' = Version b /\ BlockID b' = BlockID b /\ TenantID b' = TenantID b
  /\ Size b' = Size b /\ CompactionLevel b' = CompactionLevel b
  /\ Encoding b' = Encoding b /\ IndexPageSize b' = IndexPageSize b
  /\ TotalRecords b' = TotalRecords b /\ DataEncoding b' = DataEncoding b
  /\ BloomShardCount b' = BloomShardCount b /\ FooterSize b' = FooterSize b
  /\ DedicatedColumns b' = DedicatedColumns b
  /\ dedicatedColumnsHash b' = dedicatedColumnsHash b.

(** The bytes one column contributes to the hash. *)
Definition columnBytes (c : DedicatedColumn) : string :=
  Scope c +:+ separatorByte +:+ Name c +:+ separatorByte +:+ Type_ c.

(** A stand-in for the hash in the examples: the number of bytes. *)
Definition lengthHash : XXHash := fun s => Z.of_nat (String.length s).

Definition otherColumns : list DedicatedColumn :=
  [mkDedicatedColumn "span" "http.status" "string";
   mkDedicatedColumn "resource" "namespace" "string"].

Definition sampleObjects : list Object :=
  [mkObject "b" 20 30; mkObject "a" 0 40; mkObject "c" 10 0].

Definition sampleMeta : BlockMeta :=
  mkBlockMeta "vParquet" "id" EmptyString EmptyString "tenant" zeroTime zeroTime
    0 0 0 0 0 0 "" 0 0 [] 0.

Definition sampleColumns : list DedicatedColumn :=
  [mkDedicatedColumn "span" "http.method" "string";
   mkDedicatedColumn "resource" "namespace" "string"].

End metaprops.

(** ** Notions the properties are stated with, and sample inputs *)

Module props.
Import traceql parquet parquetquery vparquet frontend.

(** A condition filed under the span plan, resp. the resource plan. *)
Definition toSpanPlan (c : Condition) : Prop :=
  effectiveScope c = AttributeScopeNone \/ effectiveScope c = AttributeScopeSpan.
Definition toResourcePlan (c : Condition) : Prop :=
  effectiveScope c = AttributeScopeNone \/ effectiveScope c = AttributeScopeResource.

#[global] Instance toSpanPlan_dec c : Decision (toSpanPlan c).
Proof. unfold toSpanPlan. apply _. Defined.
#[global] Instance toResourcePlan_dec c : Decision (toResourcePlan c).
Proof. unfold toResourcePlan. apply _. Defined.

(** A regular-expression engine that accepts every pattern, to run
    the planner on sample inputs. *)
Definition permissiveRegexp : Regexp := {| regexp_compiles := fun _ => true |}.

Definition unscoped (name : string) : Attribute :=
  mkAttribute AttributeScopeNone false name IntrinsicNone.

(** [{ .foo && span.bar && resource.baz }] with [AllConditions]. *)
Definition routing_example : FetchSpansRequest :=
  mkFetchSpansRequest 0 0
    [ mkCondition (unscoped "foo") OpNone [];
      mkCondition (newSpanAttr "bar") OpNone [];
      mkCondition (newResAttr "baz") OpNone [] ]
    true.

(** The comparison operators with an integer predicate. *)
Definition intOperators : list Operator :=
  [OpEqual; OpNotEqual; OpGreater; OpGreaterEqual; OpLess; OpLessEqual].

(** Page pruning is sound for a predicate: a page whose bounds
    enclose a value the predicate keeps is itself kept. *)
Definition pageSound (g : GenericPredicate Z) : Prop :=
  forall v min max, Fn g v = true -> min <= v <= max -> RangeFn g min max = true.

(** A file of two row groups, and a shard that starts beyond them. *)
Definition twoRowGroups : File := mkFile [0%nat; 1%nat].
Definition shardBeyondFile : SearchOptions := mkSearchOptions 5 1.
Definition emptyRequest : FetchSpansRequest := mkFetchSpansRequest 0 0 [] false.

(** The column iterators of a list that read column [path]. *)
Definition isColumnOn (path : string) (it : Iter) : bool :=
  match it with
  | Column columnName _ _ => bool_decide (columnName = path)
  | _ => false
  end.

Definition columnsOn (path : string) (its : list Iter) : nat :=
  length (List.filter (isColumnOn path) its).

(** The column iterators one run of the emission loop appends. *)
Definition emitted (st : columnState) : list Iter :=
  map (fun kv => makeIter kv.1 (Some (NewOrPredicate kv.2))
                   (default "" (columnSelectAs st !! kv.1)))
      (map_to_list (columnPredicates st)).

(** [{ resource.service.name != nil }] and [{ span.http.method != nil }]:
    a well-known column selected without a comparison. *)
Definition serviceNameCondition : Condition :=
  mkCondition (newResAttr LabelServiceName) OpNone [].
Definition httpMethodCondition : Condition :=
  mkCondition (newSpanAttr LabelHTTPMethod) OpNone [].

(** Three span conditions on two attribute names. *)
Definition repeatedNames : list Condition :=
  [ httpMethodCondition;
    mkCondition (newSpanAttr "foo") OpEqual [NewStaticString "bar"];
    mkCondition (newSpanAttr LabelHTTPMethod) OpEqual [NewStaticString "GET"] ].

(** The group the span-level join hands to the span collector for one
    span: its start, end and id columns, and the attributes the
    attribute collector found. *)
Definition spanRow (startValue endValue idValue : Value) (attrs : list (string * Static))
  : IteratorResult :=
  mkIteratorResult
    [ (columnPathSpanStartTime, startValue);
      (columnPathSpanEndTime, endValue);
      (columnPathSpanID, idValue) ]
    (map (fun kv => (kv.1, AnyStatic kv.2)) attrs).

(** A span row passes the time window of a request when the start and
    the end column each yield their value under their filter. *)
Definition passesTimeWindow (start end_ : Z) (startValue endValue : Value) : bool :=
  timeFilterKeeps (timeFilters start end_).1 startValue
  && timeFilterKeeps (timeFilters start end_).2 endValue.

(** A window whose start is 2^63 nanoseconds, and a span at time 0. *)
Definition lateWindow : FetchSpansRequest := mkFetchSpansRequest (2 ^ 63) 1 [] false.
Definition spanAtZero : IteratorResult :=
  spanRow (Int64Value 0) (Int64Value 0) (ByteArrayValue "id") [].

(** The SLO accounting rules as the specification words them, for one
    invocation of the handler. *)
Definition sloRulesAsSpecified (cfg : SLOConfig) (resp : option Response)
    (tenant : string) (bytesProcessed latency : Z) (err : option error) (m : metrics)
  : Prop :=
  let incremented := incrementsWithinSLO cfg resp tenant bytesProcessed latency err m in
  match err with
  | Some e =>
      incremented
      <-> (status_Code e = codes_ResourceExhausted \/ errors_Is_Canceled e = true)
  | None =>
      (serverError resp -> ~ incremented)
      /\ (~ serverError resp -> hasConfiguredSLO cfg ->
          (incremented <-> specWithinSLO cfg bytesProcessed latency))
      /\ (~ serverError resp -> ~ hasConfiguredSLO cfg -> incremented)
  end.

(** Only a duration bound of one second is configured; the query took
    two seconds and processed 100 bytes. *)
Definition durationOnly : SLOConfig := mkSLOConfig Second f64_zero.
Definition noMetrics : metrics := mkMetrics ∅ ∅ [].

(** A sub-iterator after one more call. *)
Definition advance (it : subIterator) : subIterator :=
  mkSubIterator (script it) (S (calls it)).

(** The merge iterator after reading its current sub-iterator [it],
    staying on it, resp. moving to the next one. *)
Definition afterRead (i : mergeSpansetIterator) (it : subIterator)
  : mergeSpansetIterator :=
  mkMergeSpansetIterator (<[cur i := advance it]> (mIters i)) (cur i).
Definition afterSkip (i : mergeSpansetIterator) (it : subIterator)
  : mergeSpansetIterator :=
  mkMergeSpansetIterator (<[cur i := advance it]> (mIters i)) (S (cur i)).

(** A merge iterator as constructed: on its first sub-iterator, none
    of them read yet. *)
Definition fresh (i : mergeSpansetIterator) : Prop :=
  cur i = 0%nat /\ forall k it, mIters i !! k = Some it -> calls it = 0%nat.

(** The sub-iterators were read in index order: each one before the
    current one has been read and answered its last call with a nil
    spanset and no error, and none after the current one has been
    read at all. *)
Definition drainedInOrder (i : mergeSpansetIterator) : Prop :=
  (forall k it, mIters i !! k = Some it -> (k < cur i)%nat ->
     (0 < calls it)%nat /\ script it (calls it - 1)%nat = (None, None))
  /\ (forall k it, mIters i !! k = Some it -> (cur i < k)%nat -> calls it = 0%nat).

(** Two sub-iterators; the first yields one spanset and ends, the
    second fails on its first call. *)
Definition oneThenEnd : subIterator :=
  mkSubIterator (fun n => match n with
                          | O => (Some (emptySpanset []), None)
                          | _ => (None, None)
                          end) 0.
Definition failing : subIterator :=
  mkSubIterator (fun _ => (None, Some (Errorf "read failed"))) 0.
Definition mergeExample : mergeSpansetIterator :=
  mkMergeSpansetIterator [oneThenEnd; failing] 0.

(** An attribute entry whose type is not nil. *)
Definition nonNil (kv : Attribute * Static) : Prop := sType kv.2 <> TypeNil.

#[global] Instance nonNil_dec kv : Decision (nonNil kv).
Proof. unfold nonNil. apply _. Defined.

(** The spans a batch group carries, and the resource attributes the
    batch collector gathers from it. *)
Definition batchSpans (res : IteratorResult) : list Span :=
  (foldl batchOtherEntry (∅, []) (OtherEntries res)).2.
Definition batchResAttrs (res : IteratorResult) : gmap Attribute Static :=
  foldl batchEntry (foldl batchOtherEntry (∅, []) (OtherEntries res)).1 (Entries res).

(** What the batch collector makes of one span: the resource
    attributes are added under the keys the span does not have, then
    the entries of nil type are dropped. *)
Definition withResAttrs (resAttrs : gmap Attribute Static) (span : Span) : Span :=
  setAttributes span (filter nonNil (Attributes span ∪ resAttrs)).

(** The number of distinct strings of a list: a string counts where
    it occurs for the last time. *)
Fixpoint distinctCount (names : list string) : nat :=
  match names with
  | [] => 0
  | name :: rest =>
      if decide (name ∈ rest) then distinctCount rest else S (distinctCount rest)
  end.

(** The minimum-match count as the specification gives it: the number
    of distinct attribute names of the conditions under
    [allConditions], else 1 under [requireAtLeastOneMatch], else 0. *)
Definition minCountOf (conditions : list Condition)
    (requireAtLeastOneMatch allConditions : bool) : Z :=
  if allConditions
  then Z.of_nat (distinctCount (map (fun c => Name (Attribute_ c)) conditions))
  else if requireAtLeastOneMatch then 1
  else 0.

(** The span has at least [n] attributes whose type is not nil: there
    are that many different keys, each with a value of non-nil type. *)
Definition hasNonNilAttributes (n : Z) (span : Span) : Prop :=
  exists keys : list Attribute,
    NoDup keys /\ n <= Z.of_nat (length keys)
    /\ forall k, k ∈ keys ->
         exists v, Attributes span !! k = Some v /\ sType v <> TypeNil.

(** A batch group: one span that already has [http.method], the
    generic resource attribute [foo = "bar"], a resource attribute
    [gone] whose key matched without a value, and the dedicated
    service-name column. *)
Definition getSpan : Span :=
  mkSpan "id" 10 20 {[ newSpanAttr "http.method" := NewStaticString "GET" ]}.
Definition cartBatch : IteratorResult :=
  mkIteratorResult
    [ (LabelServiceName, ByteArrayValue "cart") ]
    [ ("span", AnySpan getSpan);
      ("foo", AnyStatic (NewStaticString "bar"));
      ("gone", AnyStatic zeroStatic) ].

(** No entry of the map is keyed by a resource-scoped attribute. *)
Definition noResourceKeys (m : gmap Attribute Static) : Prop :=
  forall k, is_Some (m !! k) -> Scope k <> AttributeScopeResource.

(** A group in which the attribute [foo] has a value at span scope
    and another at resource scope. *)
Definition fooSpan : Span :=
  mkSpan "id" 10 20 {[ newSpanAttr "foo" := NewStaticString "from span" ]}.
Definition fooBatch : IteratorResult :=
  mkIteratorResult []
    [ ("span", AnySpan fooSpan); ("foo", AnyStatic (NewStaticString "from resource")) ].

(** The propagation rule as the specification words it: on every span
    returned from a kept batch, a resource attribute of the batch (of
    non-nil type) is present unless the span carries an attribute of
    that name at span scope, which shadows it; and no attribute of nil
    type is left. *)
Definition propagationAsSpecified (overall : bool) (minAttributes : Z)
    (res : IteratorResult) : Prop :=
  forall ss, batchCollector_build overall minAttributes res = Some ss ->
    forall span', span' ∈ Spans ss ->
      (forall name v,
         batchResAttrs res !! newResAttr name = Some v -> sType v <> TypeNil ->
         if decide (is_Some (Attributes span' !! newSpanAttr name))
         then Attributes span' !! newResAttr name = None
         else Attributes span' !! newResAttr name = Some v)
      /\ (forall k v, Attributes span' !! k = Some v -> sType v <> TypeNil).

(** A call that ends in a run-time panic. *)
Definition panics {A : Type} (m : outcome A) : Prop := exists msg, m = Panics msg.

(** A condition that has the operand its operator reads. *)
Definition hasOperand (cond : Condition) : Prop :=
  Op cond = OpNone \/ Operands cond <> [].

(** The operators each typed predicate constructor accepts, for a
    condition with one operand; [OpNone] needs no predicate. *)
Definition predicateSupported `{!Regexp} (operand : Static) (op : Operator) : bool :=
  match op with
  | OpNone => true
  | _ =>
      match sType operand with
      | TypeString =>
          match op with
          | OpEqual | OpNotEqual => true
          | OpRegex => regexp_compiles (sS operand)
          | _ => false
          end
      | TypeInt | TypeFloat =>
          match op with
          | OpEqual | OpNotEqual | OpGreater | OpGreaterEqual | OpLess | OpLessEqual => true
          | _ => false
          end
      | TypeBoolean =>
          match op with
          | OpEqual | OpNotEqual => true
          | _ => false
          end
      | _ => false
      end
  end.

(** Page pruning is sound for a string predicate, pages being bounded
    in the byte-wise lexicographic order of Go strings. *)
Definition stringPageSound (g : GenericPredicate string) : Prop :=
  forall v min max,
    Fn g v = true -> String.leb min v = true -> String.leb v max = true ->
    RangeFn g min max = true.

Definition indexPanic : string := "index out of range [0] with length 0".

(** The operand types the attribute sub-plan has a value column for. *)
Definition hasValueColumn (t : StaticType) : Prop :=
  t = TypeString \/ t = TypeInt \/ t = TypeFloat \/ t = TypeBoolean.

(** A comparison whose operand is of a type without value column
    (a duration, a status, nil). *)
Definition withoutValueColumn (cond : Condition) : Prop :=
  Op cond <> OpNone
  /\ exists o rest, Operands cond = o :: rest /\ ~ hasValueColumn (sType o).

(** A value iterator of the attribute sub-plan: a column iterator on
    one of the four typed value columns, under an or-predicate. *)
Definition isValueIter (strPath intPath floatPath boolPath : string) (it : Iter) : Prop :=
  exists preds,
    it = Column strPath (Some (OrPredicate preds)) "string"
    \/ it = Column intPath (Some (OrPredicate preds)) "int"
    \/ it = Column floatPath (Some (OrPredicate preds)) "float"
    \/ it = Column boolPath (Some (OrPredicate preds)) "bool".

Definition conditionNames (conditions : list Condition) : list string :=
  map (fun c => Name (Attribute_ c)) conditions.

(** [{ span.foo = 5s }]: a generic attribute compared with a duration. *)
Definition fooIsFiveSeconds : Condition :=
  mkCondition (newSpanAttr "foo") OpEqual [NewStaticDuration 5000000000].

(** The four predicate lists of a state, all empty. *)
Definition noValuePreds (st : attrPreds) : Prop :=
  attrStringPreds st = [] /\ attrIntPreds st = [] /\ attrFltPreds st = []
  /\ boolPreds st = [].

(** The three span columns that are always read, under the time-window
    filters of the request. *)
Definition staticSpanColumns (start end_ : Z) : list Iter :=
  [ Column columnPathSpanStartTime (timeFilters start end_).1 columnPathSpanStartTime;
    Column columnPathSpanEndTime (timeFilters start end_).2 columnPathSpanEndTime;
    Column columnPathSpanID None columnPathSpanID ].

(** How the condition iterators [iters] are split between the required
    and the optional children of a left join at [level].  Under
    [allConditions] they are all required, in their order.  Otherwise,
    under [requireAtLeastOneMatch], when there is one at least and the
    union is allowed, they are all behind one required union.  In every
    other case they are all optional. *)
Definition splitOf (level : nat) (requireAtLeastOneMatch allConditions : bool)
    (unionAllowed : Prop) (iters required optional : list Iter) : Prop :=
  (allConditions = true /\ required = iters /\ optional = [])
  \/ (allConditions = false /\ requireAtLeastOneMatch = true
      /\ unionAllowed /\ iters <> []
      /\ required = [UnionIterator level iters None] /\ optional = [])
  \/ (allConditions = false
      /\ (requireAtLeastOneMatch = false \/ ~ unionAllowed \/ iters = [])
      /\ required = [] /\ optional = iters).

(** A condition the categorising loop files under both plans. *)
Definition mingled (cond : Condition) : Prop :=
  Scope (Attribute_ cond) = AttributeScopeNone
  /\ Intrinsic_ (Attribute_ cond) = IntrinsicNone.

Definition unsupportedScope (cond : Condition) : Prop :=
  exists code, effectiveScope cond = AttributeScopeOther code.

#[global] Instance unsupportedScope_dec cond : Decision (unsupportedScope cond).
Proof.
  unfold unsupportedScope. destruct (effectiveScope cond) as [| | |code].
  - right. intros [c H]. discriminate.
  - right. intros [c H]. discriminate.
  - right. intros [c H]. discriminate.
  - left. exists code. reflexivity.
Defined.

(** A generic span attribute: no intrinsic, no dedicated column. *)
Definition genericSpanAttribute (attr : Attribute) : Prop :=
  Scope attr = AttributeScopeSpan
  /\ Intrinsic_ attr = IntrinsicNone
  /\ wellKnownColumnLookups !! Name attr = None.

Definition orderOperators : list Operator :=
  [OpGreater; OpGreaterEqual; OpLess; OpLessEqual].

(** The error [Fetch] returns for an order comparison on a string. *)
Definition stringOrderError : error :=
  Wrap (Wrap (Wrap (Wrap (Errorf "operand not supported for strings")
                      "creating attribute predicate")
                "creating span attribute iterator")
          "creating span iterator")
    "creating fetch iter".

(** A block whose file opens and has two row groups. *)
Definition openBlock : backendBlock := mkBackendBlock (fun _ => Ret twoRowGroups).
Definition wholeFile : SearchOptions := mkSearchOptions 0 0.

(** A duration filter lets a duration through: a nil filter lets
    everything through. *)
Definition durationPasses (duration : Z) (f : option (GenericPredicate Z)) : bool :=
  match f with
  | None => true
  | Some g => Fn g duration
  end.

(** The duration the span collector computes: end minus start in
    [uint64], read as [int64]. *)
Definition spanDuration (span : Span) : Z :=
  int64_of_uint64 (wrap_uint64 (spEndtimeUnixNanos span - spStartTimeUnixNanos span)).

(** A column entry that carries a typed attribute value. *)
Definition typedValueEntry (e : string * Value) : Prop :=
  Value_Kind e.2 <> None /\ e.1 ∈ ["string"; "int"; "float"; "bool"].

#[global] Instance typedValueEntry_dec e : Decision (typedValueEntry e).
Proof. unfold typedValueEntry. apply _. Defined.

Definition isNull (e : string * Value) : Prop := Value_Kind e.2 = None.

#[global] Instance isNull_dec e : Decision (isNull e).
Proof. unfold isNull. apply _. Defined.

(** The spans of the spanset entries of a group, in order. *)
Definition spansetSpans (es : list (string * Any)) : list Span :=
  flat_map (fun e => match e.2 with
                     | AnySpanset ss => Spans ss
                     | _ => []
                     end) es.

(** The spans the batch collector keeps of a group. *)
Definition keptSpans (overall : bool) (res : IteratorResult) : list Span :=
  let spans := map (withResAttrs (batchResAttrs res)) (batchSpans res) in
  if overall then filter (fun span => (0 < size (Attributes span))%nat) spans else spans.

(** A span running from 10 to 25 with one attribute. *)
Definition timedGroup : IteratorResult :=
  spanRow (Int64Value 10) (Int64Value 25) (ByteArrayValue "id")
    [("foo", NewStaticString "bar")].
Definition longerThan (d : Z) : option (GenericPredicate Z) :=
  Some (NewIntPredicate (fun v => v >? d) (fun min max => max >? d)).

(** The batch collector rejects the group. *)
Definition batchRejected (overall : bool) (minAttributes : Z) (res : IteratorResult) : Prop :=
  batchSpans res = []
  \/ (0 < minAttributes /\ Z.of_nat (size (batchResAttrs res)) < minAttributes)
  \/ keptSpans overall res = [].

(** The identity of a span: what the batch collector never changes. *)
Definition spanIdentity (span : Span) : string * Z * Z :=
  (ID span, spStartTimeUnixNanos span, spEndtimeUnixNanos span).

(** A sub-iterator that yields the spansets of a list and then ends,
    and the merge iterator over such sub-iterators. *)
Definition listScript (l : list Spanset) : nat -> nextResult := fun n => (l !! n, None).
Definition listIterator (l : list Spanset) : subIterator := mkSubIterator (listScript l) 0.
Definition mergeOf (ls : list (list Spanset)) : mergeSpansetIterator :=
  mkMergeSpansetIterator (map listIterator ls) 0.

(** The sub-iterators of [i] yield the lists [ls]. *)
Definition backedBy (ls : list (list Spanset)) (i : mergeSpansetIterator) : Prop :=
  Forall2 (fun l it => script it = listScript l) ls (mIters i).

(** What such a merge iterator has left to yield. *)
Definition pending (ls : list (list Spanset)) (i : mergeSpansetIterator) : list Spanset :=
  concat (zip_with (fun l it => drop (calls it) l)
            (drop (cur i) ls) (drop (cur i) (mIters i))).

End props.

(** * Properties *)

Import traceql parquet parquetquery vparquet frontend props.

(** ** Validation (checkConditions, Fetch) *)

Lemma operandsSameType_true (first : Static) (rest : list Static) :
  operandsSameType first rest = true.
Proof.
  induction rest as [|o rest IH]; [reflexivity|].
  cbn [operandsSameType]. case_decide as Hne; [|exact IH].
  exfalso. apply Hne. reflexivity.
Qed.

Lemma checkCondition_None (cond : Condition) :
  checkCondition cond = None <-> ~ malformed cond.
Proof.
  unfold checkCondition, malformed.
  destruct (Op cond); simpl;
    repeat match goal with
           | |- context [decide ?P] => destruct (decide P)
           end;
    try (destruct (Operands cond) as [|first rest]; simpl in *;
         rewrite ?operandsSameType_true);
    split; intros; try congruence; try tauto; try lia.
Qed.

Lemma checkConditions_None (conditions : list Condition) :
  checkConditions conditions = None <-> Forall (fun c => ~ malformed c) conditions.
Proof.
  induction conditions as [|cond rest IH]; simpl.
  - split; [constructor | reflexivity].
  - rewrite Forall_cons, <- IH, <- checkCondition_None.
    destruct (checkCondition cond); split; intros; try congruence; try tauto.
Qed.

Lemma malformed_dec (cond : Condition) : Decision (malformed cond).
Proof.
  unfold malformed. destruct (Op cond); apply _.
Defined.

Lemma checkConditions_Some (conditions : list Condition) :
  is_Some (checkConditions conditions) <-> Exists malformed conditions.
Proof.
  induction conditions as [|cond rest IH]; simpl.
  - split; [intros [e He]; discriminate | intros Hex; inversion Hex].
  - rewrite Exists_cons, <- IH.
    pose proof (checkCondition_None cond) as Hnone.
    destruct (checkCondition cond) as [e|].
    + split; [intros _; left|eauto].
      destruct (malformed_dec cond) as [Hm|Hm]; [exact Hm|].
      apply Hnone in Hm. discriminate.
    + split; [intros Hs; right; exact Hs|].
      intros [Hm|Hs]; [|exact Hs].
      exfalso. apply Hnone; [reflexivity | exact Hm].
Qed.

(** C1: [Fetch] validates the conditions before it opens the file.
    Validation fails exactly when some condition is malformed (op none
    with operands, one of the seven comparison operators with an operand
    count other than one, or any other operator); a list whose conditions
    all obey the arity rules is accepted.  When validation fails [Fetch]
    returns the wrapped error and has performed no I/O, whatever the
    block; any I/O it performed came after a successful validation. *)
Theorem Fetch_validates_before_io `{!Regexp}
    (b : backendBlock) (req : FetchSpansRequest) (opts : SearchOptions) :
  (is_Some (checkConditions (Conditions req)) <-> Exists malformed (Conditions req))
  /\ (Forall (fun c => ~ malformed c) (Conditions req)
      <-> checkConditions (Conditions req) = None)
  /\ (forall err, checkConditions (Conditions req) = Some err ->
        Fetch b req opts = (Fail (Wrap err "conditions invalid"), []))
  /\ (checkConditions (Conditions req) = None ->
        (Fetch b req opts).2 = [OpenForSearch opts])
  /\ ((Fetch b req opts).2 <> [] -> ~ Exists malformed (Conditions req)).
Proof.
  split; [apply checkConditions_Some|].
  split; [symmetry; apply checkConditions_None|].
  split; [|split].
  - intros err Herr. unfold Fetch. rewrite Herr. reflexivity.
  - intros Hok. unfold Fetch. rewrite Hok.
    destruct (openForSearch b opts); reflexivity.
  - intros Hio Hex. apply checkConditions_Some in Hex as [err Herr].
    apply Hio. unfold Fetch. rewrite Herr. reflexivity.
Qed.

(** ** Scope routing (fetch) *)

Lemma forEach_cons {A St : Type} (body : A -> St -> outcome St) (a : A) (l : list A)
    (st : St) :
  forEach body (a :: l) st
  = match body a st with
    | Ret st' => forEach body l st'
    | Fail e => Fail e
    | Panics msg => Panics msg
    end.
Proof. reflexivity. Qed.

Lemma forEach_categorize (conditions : list Condition) (st cats : categories) :
  forEach categorizeStep conditions st = Ret cats ->
  spanConditions cats = spanConditions st ++ filter toSpanPlan conditions
  /\ resourceConditions cats = resourceConditions st ++ filter toResourcePlan conditions
  /\ mingledConditions cats
     = mingledConditions st
       || existsb (fun c => bool_decide (effectiveScope c = AttributeScopeNone)) conditions.
Proof.
  revert st. induction conditions as [|c rest IH]; intros st.
  - simpl. intros [= <-]. rewrite !app_nil_r, orb_false_r. auto.
  - rewrite forEach_cons. unfold categorizeStep at 1.
    destruct (effectiveScope c) eqn:Hscope; try discriminate;
      intros Hrest; apply IH in Hrest as (Hs & Hr & Hm); simpl in *;
      rewrite Hs, Hr, Hm; unfold filter; simpl;
      repeat case_decide; unfold toSpanPlan, toResourcePlan in *;
      rewrite ?Hscope in *; try (intuition congruence);
      rewrite <- ?app_assoc; simpl; rewrite ?orb_true_r; auto.
Qed.

Lemma categorize_spec (conditions : list Condition) (cats : categories) :
  categorize conditions = Ret cats ->
  spanConditions cats = filter toSpanPlan conditions
  /\ resourceConditions cats = filter toResourcePlan conditions
  /\ mingledConditions cats
     = existsb (fun c => bool_decide (effectiveScope c = AttributeScopeNone)) conditions.
Proof. intros H. apply forEach_categorize in H. exact H. Qed.

Lemma effectiveScope_scoped (c : Condition) :
  Scope (Attribute_ c) <> AttributeScopeNone ->
  effectiveScope c = Scope (Attribute_ c).
Proof. unfold effectiveScope. case_decide; congruence. Qed.

Lemma effectiveScope_plain (c : Condition) :
  Scope (Attribute_ c) = AttributeScopeNone ->
  Intrinsic_ (Attribute_ c) = IntrinsicNone ->
  effectiveScope c = AttributeScopeNone.
Proof.
  unfold effectiveScope. intros Hs Hi. rewrite Hi. simpl.
  case_decide; congruence.
Qed.



(** ** Page pruning (createIntPredicate) *)

Lemma intFns_pageSound (op : Operator) (i : Z) (g : GenericPredicate Z) :
  intFns op i = Ret g -> pageSound g.
Proof.
  unfold intFns, pageSound.
  destruct op; intros [= <-] v min max; simpl; lia.
Qed.

Lemma intFns_defined (op : Operator) (i : Z) :
  op ∈ intOperators -> exists g, intFns op i = Ret g.
Proof.
  unfold intOperators. rewrite !elem_of_cons, elem_of_nil.
  intros Hop. destruct op; try (exfalso; intuition congruence); eexists; reflexivity.
Qed.

(** C6: page pruning of the integer predicates is sound.  For each of
    eq, ne, gt, ge, lt, le and each integer operand [i],
    [createIntPredicate] returns a predicate, and whenever its value
    function accepts [v] its range function accepts every page
    [min <= v <= max]. *)
Theorem createIntPredicate_page_sound (op : Operator) (i : Z) :
  op ∈ intOperators ->
  exists g, createIntPredicate op [NewStaticInt i] = Ret (Some g)
            /\ forall v min max,
                 Fn g v = true -> min <= v <= max -> RangeFn g min max = true.
Proof.
  intros Hop. destruct (intFns_defined op i Hop) as [g Hg].
  exists g. split.
  - unfold createIntPredicate. case_decide as Hnone.
    + subst op. discriminate Hg.
    + simpl. rewrite Hg. reflexivity.
  - exact (intFns_pageSound op i g Hg).
Qed.

Lemma createIntPredicate_page_sound_witness :
  exists g, createIntPredicate OpGreater [NewStaticInt 10] = Ret (Some g)
            /\ forall v min max,
                 Fn g v = true -> min <= v <= max -> RangeFn g min max = true.
Proof.
  apply (createIntPredicate_page_sound OpGreater 10).
  unfold intOperators. rewrite !elem_of_cons. tauto.
Defined.

(** Every predicate [createIntPredicate] returns is sound, also for a
    duration operand. *)
Lemma createIntPredicate_sound_any (op : Operator) (operands : list Static)
    (g : GenericPredicate Z) :
  createIntPredicate op operands = Ret (Some g) -> pageSound g.
Proof.
  unfold createIntPredicate. case_decide; [discriminate|].
  destruct operands as [|o rest]; [discriminate|]. simpl.
  destruct (sType o); simpl; try discriminate;
    match goal with
    | |- context [intFns op ?i] =>
        destruct (intFns op i) as [g'| |] eqn:Hg; simpl; try discriminate;
        intros [= <-]; exact (intFns_pageSound op i g' Hg)
    end.
Qed.

(** ** Row-group window (fetch) *)

Lemma wrap_int64_id (z : Z) : is_int64 z -> wrap_int64 z = z.
Proof.
  unfold is_int64, MinInt64, MaxInt64, wrap_int64, int64_of_uint64.
  intros Hz. rewrite Z.mod_mod by lia.
  destruct (Z.ltb_spec (z mod 2 ^ 64) (2 ^ 63)) as [Hlt|Hge].
  - destruct (Z.neg_nonneg_cases z) as [Hneg|Hpos].
    + rewrite <- (Z.mod_add z 1) in Hlt by lia.
      rewrite Z.mod_small in Hlt by lia. lia.
    + apply Z.mod_small. lia.
  - destruct (Z.neg_nonneg_cases z) as [Hneg|Hpos].
    + rewrite <- (Z.mod_add z 1) by lia.
      rewrite Z.mod_small by lia. lia.
    + rewrite Z.mod_small in Hge by lia. lia.
Qed.

(** The window is in bounds whenever the shard starts inside the file:
    the scan is narrowed to [StartPage, StartPage+TotalPages), cut at
    the number of row groups. *)
Lemma selectRowGroups_in_file (rgs : list RowGroup) (opts : SearchOptions) :
  0 < TotalPages opts ->
  0 <= StartPage opts <= Z.of_nat (length rgs) ->
  StartPage opts + TotalPages opts <= MaxInt64 ->
  Z.of_nat (length rgs) <= MaxInt64 ->
  selectRowGroups rgs opts
  = Ret (take (Z.to_nat (TotalPages opts)) (drop (Z.to_nat (StartPage opts)) rgs)).
Proof.
  intros Htotal Hstart Hsum Hlen. unfold selectRowGroups.
  destruct (Z.gtb_spec (TotalPages opts) 0) as [_|]; [|lia].
  assert (Hmin : MinInt64 = - 2 ^ 63) by reflexivity.
  rewrite (wrap_int64_id (StartPage opts + TotalPages opts)) by (unfold is_int64; lia).
  destruct (Z.gtb_spec (StartPage opts + TotalPages opts) (Z.of_nat (length rgs)))
    as [Hclamp|Hfit].
  - rewrite (wrap_int64_id (Z.of_nat (length rgs) - StartPage opts))
      by (unfold is_int64; lia).
    replace (StartPage opts + (Z.of_nat (length rgs) - StartPage opts))
      with (Z.of_nat (length rgs)) by lia.
    rewrite wrap_int64_id by (unfold is_int64; lia).
    unfold slice.
    replace ((0 <=? StartPage opts) && (StartPage opts <=? Z.of_nat (length rgs))
             && (Z.of_nat (length rgs) <=? Z.of_nat (length rgs))) with true
      by (symmetry; rewrite !andb_true_iff, !Z.leb_le; lia).
    f_equal. rewrite !take_ge; [reflexivity| |]; rewrite length_drop; lia.
  - rewrite wrap_int64_id by (unfold is_int64; lia).
    unfold slice.
    replace ((0 <=? StartPage opts)
             && (StartPage opts <=? StartPage opts + TotalPages opts)
             && (StartPage opts + TotalPages opts <=? Z.of_nat (length rgs))) with true
      by (symmetry; rewrite !andb_true_iff, !Z.leb_le; lia).
    do 2 f_equal. lia.
Qed.

(** C9: the slice of the row groups is not always in bounds.  With two
    row groups in the file and a shard of one page starting at page 5,
    [TotalPages] is cut to a negative number and the slice expression
    [rgs[5:2]] panics. *)
Theorem fetch_row_group_slice_panics `{!Regexp} :
  selectRowGroups (RowGroups twoRowGroups) shardBeyondFile
  = Panics "slice bounds out of range"
  /\ fetch emptyRequest twoRowGroups shardBeyondFile
     = Panics "slice bounds out of range".
Proof. split; reflexivity. Qed.

(** ** Resource column iterators (createResourceColumIterators) *)

Lemma emit_fold (sel : gmap string string) (kvs : list (string * list (option Predicate)))
    (st : columnState) :
  columnSelectAs st = sel ->
  let st' := foldl (fun st kv =>
                      withIter (makeIter kv.1 (Some (NewOrPredicate kv.2))
                                  (default "" (columnSelectAs st !! kv.1))) st) st kvs in
  columnSelectAs st' = sel
  /\ columnPredicates st' = columnPredicates st
  /\ genericConditions st' = genericConditions st
  /\ iters st'
     = iters st ++ map (fun kv => makeIter kv.1 (Some (NewOrPredicate kv.2))
                                    (default "" (sel !! kv.1))) kvs.
Proof.
  revert st. induction kvs as [|kv kvs IH]; intros st Hsel; simpl.
  - rewrite app_nil_r. auto.
  - destruct (IH (withIter (makeIter kv.1 (Some (NewOrPredicate kv.2))
                              (default "" (columnSelectAs st !! kv.1))) st) Hsel)
      as (H1 & H2 & H3 & H4).
    simpl in *. rewrite H1, H2, H3, H4, Hsel, <- app_assoc. auto.
Qed.

Lemma emitColumnPredicates_spec (st : columnState) :
  columnSelectAs (emitColumnPredicates st) = columnSelectAs st
  /\ columnPredicates (emitColumnPredicates st) = columnPredicates st
  /\ iters (emitColumnPredicates st) = iters st ++ emitted st.
Proof.
  destruct (emit_fold (columnSelectAs st) (map_to_list (columnPredicates st)) st eq_refl)
    as (H1 & H2 & _ & H4).
  unfold emitColumnPredicates, emitted. auto.
Qed.

(** Without [withAllWellKnownColumns] the second emission loop repeats
    the first: whatever the conditions, the iterators of the column
    predicates are in the result twice. *)
Lemma createResourceColumIterators_repeats `{!Regexp}
    (T : collector) (conditions : list Condition) (its : list Iter) :
  createResourceColumIterators T conditions false = Ret its ->
  exists before st, its = before ++ emitted st ++ emitted st.
Proof.
  unfold createResourceColumIterators.
  destruct (forEach resourceColumnStep conditions emptyColumnState) as [st| |];
    simpl; try discriminate.
  destruct (createAttributeIterator _ _ _ _ _ _ _ _) as [attrIter| |];
    simpl; try discriminate.
  intros [= <-].
  set (st1 := match attrIter with Some it => withIter it st | None => st end).
  destruct (emitColumnPredicates_spec st1) as (Hs1 & Hp1 & Hi1).
  destruct (emitColumnPredicates_spec (emitColumnPredicates st1)) as (Hs2 & Hp2 & Hi2).
  exists (iters st1), st1.
  rewrite Hi2, Hi1, <- app_assoc. do 2 f_equal.
  unfold emitted. rewrite Hs1, Hp1. reflexivity.
Qed.

(** C8: a resource-level column iterator is emitted twice.  For the
    single condition that selects [service.name] without a comparison,
    the returned list holds two iterators on the service-name column,
    where the span-level builder, on the corresponding condition, holds
    one iterator on its column. *)
Theorem createResourceColumIterators_emits_twice `{!Regexp} :
  (exists its,
     createResourceColumIterators attributeCollector [serviceNameCondition] false = Ret its
     /\ columnsOn columnPathResourceServiceName its = 2%nat)
  /\ (exists its durs,
        createSpanColumnIterators attributeCollector [httpMethodCondition] false
        = Ret (its, durs)
        /\ columnsOn columnPathSpanHTTPMethod its = 1%nat).
Proof.
  split.
  - eexists. split; reflexivity.
  - do 2 eexists. split; reflexivity.
Qed.

(** ** Time window (createSpanIterator) *)

Lemma int64_of_uint64_small (u : Z) : 0 <= u < 2 ^ 63 -> int64_of_uint64 u = u.
Proof.
  intros Hu. unfold int64_of_uint64.
  rewrite Z.mod_small by lia.
  destruct (Z.ltb_spec u (2 ^ 63)); lia.
Qed.

Lemma spanOtherEntries_statics (attrs : list (string * Static)) (m : gmap Attribute Static) :
  exists m', spanOtherEntries m (map (fun kv => (kv.1, AnyStatic kv.2)) attrs) = Ret m'.
Proof.
  revert m. induction attrs as [|[k v] attrs IH]; intros m; simpl.
  - eexists. reflexivity.
  - apply IH.
Qed.

(** The span collector keeps the times of the row it is given. *)
Lemma spanCollector_build_times (minAttributes : Z)
    (durationFilters : list (option (GenericPredicate Z)))
    (startValue endValue idValue : Value) (attrs : list (string * Static)) (span : Span) :
  spanCollector_build minAttributes durationFilters
    (spanRow startValue endValue idValue attrs) = Ret (Some span) ->
  spStartTimeUnixNanos span = Value_Uint64 startValue
  /\ spEndtimeUnixNanos span = Value_Uint64 endValue.
Proof.
  unfold spanCollector_build, spanRow. cbn [OtherEntries Entries].
  destruct (spanOtherEntries_statics attrs ∅) as [m' ->]. simpl.
  repeat match goal with
         | |- context [if ?b then _ else _] => destruct b
         end; simpl; intros [= <-]; simpl; auto.
Qed.

(** Within the range of [int64] the window is honoured: a span row that
    passes the two filters gives a span that overlaps the window. *)
Lemma time_window_sound_in_range (start end_ : Z) (minAttributes : Z)
    (durationFilters : list (option (GenericPredicate Z)))
    (s e : Z) (idValue : Value) (attrs : list (string * Static)) (span : Span) :
  0 < start < 2 ^ 63 -> 0 < end_ < 2 ^ 63 ->
  passesTimeWindow start end_ (Int64Value s) (Int64Value e) = true ->
  spanCollector_build minAttributes durationFilters
    (spanRow (Int64Value s) (Int64Value e) idValue attrs) = Ret (Some span) ->
  spStartTimeUnixNanos span <= end_ /\ start <= spEndtimeUnixNanos span.
Proof.
  intros Hstart Hend Hpass Hbuild.
  apply spanCollector_build_times in Hbuild as [-> ->].
  unfold passesTimeWindow, timeFilters in Hpass.
  destruct (Z.gtb_spec start 0); [|lia]. destruct (Z.gtb_spec end_ 0); [|lia].
  simpl in Hpass. unfold IntBetween_KeepValue in Hpass. simpl in Hpass.
  rewrite !int64_of_uint64_small in Hpass by lia.
  unfold MaxInt64 in Hpass.
  rewrite !andb_true_iff, !Z.leb_le in Hpass.
  unfold Value_Uint64, uint64_of_int64. simpl.
  rewrite !Z.mod_small by lia. lia.
Qed.

(** C5: the time window is not honoured for a start bound of 2^63 or
    more.  [int64(start)] wraps to a negative number, so the end-column
    filter accepts every value: with start = 2^63 and end = 1 the plan
    carries the filters [0, 1] and [-2^63, MaxInt64], a span that starts
    and ends at time 0 passes both, and the span collector returns it
    although its end, 0, is before the requested start. *)
Theorem time_window_wraps_for_late_start `{!Regexp} :
  0 < StartTimeUnixNanos lateWindow /\ 0 < EndTimeUnixNanos lateWindow
  /\ createSpanIterator (Conditions lateWindow) (StartTimeUnixNanos lateWindow)
       (EndTimeUnixNanos lateWindow) false false
     = Ret (LeftJoinIterator DefinitionLevelResourceSpansILSSpan
              [ Column columnPathSpanStartTime (Some (IntBetweenPredicate 0 1))
                  columnPathSpanStartTime;
                Column columnPathSpanEndTime
                  (Some (IntBetweenPredicate (- 2 ^ 63) MaxInt64)) columnPathSpanEndTime;
                Column columnPathSpanID None columnPathSpanID ]
              [] (spanCollector 0 []))
  /\ passesTimeWindow (StartTimeUnixNanos lateWindow) (EndTimeUnixNanos lateWindow)
       (Int64Value 0) (Int64Value 0) = true
  /\ exists span,
       spanCollector_build 0 [] spanAtZero = Ret (Some span)
       /\ spEndtimeUnixNanos span = 0
       /\ ~ (StartTimeUnixNanos lateWindow <= spEndtimeUnixNanos span).
Proof.
  split; [reflexivity|]. split; [reflexivity|].
  split; [reflexivity|]. split; [reflexivity|].
  eexists. split; [reflexivity|]. split; [reflexivity|].
  apply Z.lt_nge. reflexivity.
Qed.

(** ** SLO accounting (sloHook) *)

Lemma counterValue_Inc (tenant : string) (c : gmap string nat) :
  counterValue tenant (Inc tenant c) = S (counterValue tenant c).
Proof. unfold counterValue, Inc. rewrite lookup_insert_eq. reflexivity. Qed.

(** The two ways the handler ends: with or without the increment. *)
Lemma sloHook_cases (cfg : SLOConfig) (resp : option Response) (tenant : string)
    (bytesProcessed latency : Z) (err : option error) (m : metrics) :
  let within :=
    match err with
    | Some e => (status_Code e =? codes_ResourceExhausted) || errors_Is_Canceled e
    | None =>
        negb (match resp with Some r => StatusCode r >=? 500 | None => false end)
        && negb (negb ((DurationSLO cfg >? 0)
                       && ((DurationSLO cfg =? 0) || (latency <? DurationSLO cfg)))
                 && negb (f64_ltb f64_zero (ThroughputBytesSLO cfg)
                          && f64_leb (ThroughputBytesSLO cfg)
                               (throughputOf bytesProcessed latency))
                 && ((DurationSLO cfg >? 0) || f64_ltb f64_zero (ThroughputBytesSLO cfg)))
    end in
  withinSLOByTenantCounter (sloHook cfg resp tenant bytesProcessed latency err m)
  = if within then Inc tenant (withinSLOByTenantCounter m) else withinSLOByTenantCounter m.
Proof.
  unfold sloHook. destruct err as [e|]; simpl.
  - destruct ((status_Code e =? codes_ResourceExhausted) || errors_Is_Canceled e);
      reflexivity.
  - destruct (match resp with Some r => StatusCode r >=? 500 | None => false end);
      [reflexivity|].
    destruct (f64_ltb f64_zero (ThroughputBytesSLO cfg)); simpl;
      destruct (DurationSLO cfg >? 0); simpl;
      repeat match goal with
             | |- context [if ?b then _ else _] => destruct b; simpl
             end; reflexivity.
Qed.

Lemma incrementsWithinSLO_iff (cfg : SLOConfig) (resp : option Response) (tenant : string)
    (bytesProcessed latency : Z) (err : option error) (m : metrics) :
  incrementsWithinSLO cfg resp tenant bytesProcessed latency err m
  <-> match err with
      | Some e => (status_Code e =? codes_ResourceExhausted) || errors_Is_Canceled e = true
      | None =>
          ~ serverError resp
          /\ (hookWithinSLO cfg bytesProcessed latency \/ ~ hasConfiguredSLO cfg)
      end.
Proof.
  unfold incrementsWithinSLO. rewrite sloHook_cases.
  destruct err as [e|].
  - destruct (_ || _); [rewrite counterValue_Inc|]; split; intros; try congruence; lia.
  - unfold serverError, hookWithinSLO, hasConfiguredSLO.
    assert (Hresp : (match resp with Some r => StatusCode r >=? 500 | None => false end) = true
                    <-> match resp with Some r => 500 <= StatusCode r | None => False end).
    { destruct resp as [r|]; [|split; [discriminate|tauto]].
      destruct (Z.geb_spec (StatusCode r) 500); split; intros; try congruence; lia. }
    destruct (match resp with Some r => StatusCode r >=? 500 | None => false end).
    + simpl. split; [lia|]. intros [Hno _]. exfalso. apply Hno, Hresp. reflexivity.
    + assert (Hno : ~ match resp with Some r => 500 <= StatusCode r | None => False end)
        by (intros H; apply Hresp in H; discriminate).
      simpl.
      destruct (Z.gtb_spec (DurationSLO cfg) 0) as [Hd|Hd];
        destruct (f64_ltb f64_zero (ThroughputBytesSLO cfg)); simpl;
        try destruct (Z.eqb_spec (DurationSLO cfg) 0); simpl;
        try destruct (Z.ltb_spec latency (DurationSLO cfg)); simpl;
        try destruct (f64_leb (ThroughputBytesSLO cfg) (throughputOf bytesProcessed latency));
        simpl; rewrite ?counterValue_Inc;
        split; intros; try lia; try (split; [exact Hno|]); try intuition (congruence || lia).
Qed.

(** C7, as amended: the within-SLO counter is incremented, for a failed
    query, iff the error is a gRPC resource-exhausted error or a context
    cancellation; never for a response with status 500 or more;
    otherwise, when a bound is configured, iff the duration bound is
    configured and the latency is below it, or the throughput bound is
    configured and the throughput (bytes over seconds, zero for a
    non-positive latency) reaches it; and always when no bound is
    configured. *)
Theorem sloHook_within_slo (cfg : SLOConfig) (resp : option Response) (tenant : string)
    (bytesProcessed latency : Z) (err : option error) (m : metrics) :
  let incremented := incrementsWithinSLO cfg resp tenant bytesProcessed latency err m in
  match err with
  | Some e =>
      incremented
      <-> (status_Code e = codes_ResourceExhausted \/ errors_Is_Canceled e = true)
  | None =>
      (serverError resp -> ~ incremented)
      /\ (~ serverError resp -> hasConfiguredSLO cfg ->
          (incremented <-> hookWithinSLO cfg bytesProcessed latency))
      /\ (~ serverError resp -> ~ hasConfiguredSLO cfg -> incremented)
  end.
Proof.
  intros incremented. subst incremented.
  destruct err as [e|]; rewrite incrementsWithinSLO_iff.
  - rewrite orb_true_iff, Z.eqb_eq. reflexivity.
  - tauto.
Qed.

(** C7, as stated, fails: with only a one-second duration bound
    configured, a two-second query is outside the SLO for the handler,
    while the stated rule counts it in, its throughput being at least
    the unconfigured bound of zero. *)
Lemma sloHook_spec_rule_counterexample :
  ~ sloRulesAsSpecified durationOnly (Some (mkResponse 200)) "tenant"
      100 (2 * Second) None noMetrics.
Proof.
  unfold sloRulesAsSpecified. intros (_ & Hrule & _).
  assert (Hinc : incrementsWithinSLO durationOnly (Some (mkResponse 200)) "tenant"
                   100 (2 * Second) None noMetrics).
  { apply Hrule.
    - simpl. lia.
    - left. reflexivity.
    - right. vm_compute. reflexivity. }
  vm_compute in Hinc. discriminate Hinc.
Qed.

(** ** mergeSpansetIterator.Next *)

Lemma Next_unfold (i : mergeSpansetIterator) :
  Next i =
  if decide (length (mIters i) <= cur i)%nat then ((None, None), i)
  else match mIters i !! cur i with
       | None => ((None, None), i)
       | Some it =>
           match script it (calls it) with
           | (_, Some err) => ((None, Some err), afterRead i it)
           | (None, None) => Next (afterSkip i it)
           | (Some spanset, None) => ((Some spanset, None), afterRead i it)
           end
       end.
Proof.
  rewrite Next_equation_1.
  destruct (decide _) as [Hle|Hgt]; simpl; [reflexivity|].
  destruct (mIters i !! cur i) as [it|] eqn:Hit; simpl; [|reflexivity].
  unfold sub_Next, afterRead, afterSkip, advance.
  destruct (script it (calls it)) as [[sp|] [e|]]; reflexivity.
Qed.

(** Induction along the calls [Next] makes to itself. *)
Lemma Next_cases (P : mergeSpansetIterator -> nextResult * mergeSpansetIterator -> Prop) :
  (forall i, (length (mIters i) <= cur i)%nat -> P i ((None, None), i)) ->
  (forall i it sp e,
     mIters i !! cur i = Some it -> script it (calls it) = (sp, Some e) ->
     P i ((None, Some e), afterRead i it)) ->
  (forall i it spanset,
     mIters i !! cur i = Some it -> script it (calls it) = (Some spanset, None) ->
     P i ((Some spanset, None), afterRead i it)) ->
  (forall i it,
     mIters i !! cur i = Some it -> script it (calls it) = (None, None) ->
     P (afterSkip i it) (Next (afterSkip i it)) -> P i (Next (afterSkip i it))) ->
  forall i, P i (Next i).
Proof.
  intros Hend Herr Hspan Hskip i.
  remember (length (mIters i) - cur i)%nat as n eqn:Hn.
  revert i Hn. induction n as [|n IH]; intros i Hn; rewrite Next_unfold.
  - destruct (decide _) as [Hle|Hgt]; [apply Hend; exact Hle | lia].
  - destruct (decide _) as [Hle|Hgt]; [lia|].
    destruct (mIters i !! cur i) as [it|] eqn:Hit.
    + destruct (script it (calls it)) as [[sp|] [e|]] eqn:Hscript.
      * eapply Herr; eassumption.
      * apply Hspan; assumption.
      * eapply Herr; eassumption.
      * apply Hskip; [assumption..|].
        apply IH. unfold afterSkip. simpl. rewrite length_insert. lia.
    + apply lookup_ge_None in Hit. lia.
Qed.

Lemma Next_exhausted (i : mergeSpansetIterator) :
  (length (mIters i) <= cur i)%nat -> Next i = ((None, None), i).
Proof. intros Hle. rewrite Next_unfold. destruct (decide _); [reflexivity|lia]. Qed.

(** [Next] answers nil, nil only once every sub-iterator is behind it. *)
Lemma Next_end_exhausted (i : mergeSpansetIterator) :
  (Next i).1 = (None, None) -> (length (mIters (Next i).2) <= cur (Next i).2)%nat.
Proof.
  apply (Next_cases (fun i r => r.1 = (None, None) ->
                                (length (mIters r.2) <= cur r.2)%nat)); simpl.
  - auto.
  - discriminate.
  - discriminate.
  - auto.
Qed.

Lemma afterCalls_exhausted (n : nat) (i : mergeSpansetIterator) :
  (length (mIters i) <= cur i)%nat -> afterCalls n i = i.
Proof.
  intros Hle. induction n as [|n IH]; simpl; [reflexivity|].
  rewrite Next_exhausted by assumption. exact IH.
Qed.

Lemma Next_drainedInOrder (i : mergeSpansetIterator) :
  drainedInOrder i -> drainedInOrder (Next i).2.
Proof.
  apply (Next_cases (fun i r => drainedInOrder i -> drainedInOrder r.2)); simpl.
  - auto.
  - intros j it sp e Hit _ [Hlo Hhi]. unfold drainedInOrder, afterRead. simpl.
    split; intros k it' Hk Hlt; rewrite list_lookup_insert_ne in Hk by lia; eauto.
  - intros j it sp Hit _ [Hlo Hhi]. unfold drainedInOrder, afterRead. simpl.
    split; intros k it' Hk Hlt; rewrite list_lookup_insert_ne in Hk by lia; eauto.
  - intros j it Hit Hscript IH [Hlo Hhi]. apply IH.
    unfold drainedInOrder, afterSkip. simpl.
    split; intros k it' Hk Hlt.
    + destruct (decide (k = cur j)) as [->|Hne].
      * rewrite list_lookup_insert_eq in Hk by (eapply lookup_lt_Some; eassumption).
        injection Hk as <-. unfold advance. simpl.
        rewrite Nat.sub_0_r. split; [lia|exact Hscript].
      * rewrite list_lookup_insert_ne in Hk by lia. apply (Hlo k); [assumption|lia].
    + rewrite list_lookup_insert_ne in Hk by lia. apply (Hhi k); [assumption|lia].
Qed.

Lemma fresh_drainedInOrder (i : mergeSpansetIterator) : fresh i -> drainedInOrder i.
Proof.
  intros [Hcur Hcalls]. split; intros k it Hk Hlt; [lia|eauto].
Qed.

Lemma afterCalls_drainedInOrder (n : nat) (i : mergeSpansetIterator) :
  drainedInOrder i -> drainedInOrder (afterCalls n i).
Proof.
  revert i. induction n as [|n IH]; intros i Hi; simpl; [exact Hi|].
  apply IH, Next_drainedInOrder, Hi.
Qed.

(** An error comes from the sub-iterator [Next] stops on. *)
Lemma Next_error_at_cur (i : mergeSpansetIterator) (r : option Spanset) (e : error) :
  (Next i).1 = (r, Some e) ->
  r = None
  /\ exists it, mIters (Next i).2 !! cur (Next i).2 = Some it
                /\ (0 < calls it)%nat
                /\ (script it (calls it - 1)%nat).2 = Some e.
Proof.
  apply (Next_cases (fun i res => res.1 = (r, Some e) ->
           r = None /\ exists it, mIters res.2 !! cur res.2 = Some it
                                  /\ (0 < calls it)%nat
                                  /\ (script it (calls it - 1)%nat).2 = Some e)); simpl.
  - discriminate.
  - intros j it sp e' Hit Hscript [= <- <-]. split; [reflexivity|].
    exists (advance it). split.
    + apply list_lookup_insert_eq. eapply lookup_lt_Some; eassumption.
    + unfold advance. simpl. rewrite Nat.sub_0_r, Hscript. split; [lia|reflexivity].
  - discriminate.
  - auto.
Qed.

(** C10: [Next] drains the sub-iterators in index order, its end of
    stream is absorbing, and an error is returned at once.  Started
    fresh, after any number of calls every sub-iterator before the
    current one has answered its last call with a nil spanset and no
    sub-iterator after the current one has been read; once [Next]
    returns nil, nil every later call returns nil, nil and leaves the
    iterator as it is; and when the current sub-iterator fails, [Next]
    returns nil with that error, having read that sub-iterator once and
    staying on it, and whenever [Next] returns an error the iterator
    rests on the sub-iterator that gave it. *)
Theorem Next_in_order_absorbing_errors (i : mergeSpansetIterator) :
  (fresh i -> forall n, drainedInOrder (afterCalls n i))
  /\ ((Next i).1 = (None, None) ->
      forall n, Next (afterCalls n (Next i).2) = ((None, None), (Next i).2))
  /\ (forall it sp e,
        mIters i !! cur i = Some it -> script it (calls it) = (sp, Some e) ->
        Next i = ((None, Some e), afterRead i it))
  /\ (forall r e, (Next i).1 = (r, Some e) ->
        r = None
        /\ exists it, mIters (Next i).2 !! cur (Next i).2 = Some it
                      /\ (0 < calls it)%nat
                      /\ (script it (calls it - 1)%nat).2 = Some e).
Proof.
  split; [|split; [|split]].
  - intros Hfresh n. apply afterCalls_drainedInOrder, fresh_drainedInOrder, Hfresh.
  - intros Hend n. apply Next_end_exhausted in Hend.
    rewrite afterCalls_exhausted by assumption. apply Next_exhausted, Hend.
  - intros it sp e Hit Hscript. rewrite Next_unfold.
    destruct (decide _) as [Hle|_].
    + apply lookup_lt_Some in Hit. lia.
    + rewrite Hit, Hscript. destruct sp; reflexivity.
  - apply Next_error_at_cur.
Qed.

(** ** The batch collector's loops over maps *)

Lemma foldl_map_commute {A B : Type} (f : B -> A -> A) (kvs : list B) (l : list A) :
  foldl (fun l kv => map (f kv) l) l kvs = map (fun a => foldl (fun a kv => f kv a) a kvs) l.
Proof.
  revert l. induction kvs as [|kv kvs IH]; intros l; simpl.
  - symmetry. apply map_id.
  - rewrite IH, map_map. reflexivity.
Qed.

Lemma copyAttr_fold (kvs : list (Attribute * Static)) (span : Span) :
  foldl (fun sp kv => copyAttr kv.1 kv.2 sp) span kvs
  = setAttributes span (Attributes span ∪ list_to_map kvs).
Proof.
  revert span. induction kvs as [|[k v] kvs IH]; intros span; simpl.
  - rewrite (right_id_L ∅ (∪)). destruct span; reflexivity.
  - rewrite IH. unfold copyAttr. simpl.
    destruct (Attributes span !! k) as [x|] eqn:Hk; unfold setAttributes; simpl; f_equal.
    + apply map_eq. intros j. rewrite !lookup_union.
      destruct (decide (j = k)) as [->|Hne].
      * rewrite Hk, lookup_insert_eq. simpl. destruct (list_to_map kvs !! k); reflexivity.
      * rewrite lookup_insert_ne by congruence. reflexivity.
    + rewrite <- insert_union_l, <- insert_union_r by assumption. reflexivity.
Qed.

Lemma copyResAttrs_spec (resAttrs : gmap Attribute Static) (spans : list Span) :
  copyResAttrs resAttrs spans
  = map (fun span => setAttributes span (Attributes span ∪ resAttrs)) spans.
Proof.
  unfold copyResAttrs. rewrite (foldl_map_commute (fun kv => copyAttr kv.1 kv.2)).
  apply map_ext. intros span. rewrite copyAttr_fold, list_to_map_to_list. reflexivity.
Qed.

Lemma deleteNil_fold (kvs : list (Attribute * Static)) (m : gmap Attribute Static)
    (k : Attribute) :
  let m' := foldl (fun attrs kv =>
                     if decide (sType kv.2 = TypeNil) then delete kv.1 attrs else attrs)
                  m kvs in
  (Exists (fun kv => kv.1 = k /\ sType kv.2 = TypeNil) kvs -> m' !! k = None)
  /\ (Forall (fun kv => kv.1 = k -> sType kv.2 <> TypeNil) kvs -> m' !! k = m !! k).
Proof.
  revert m. induction kvs as [|[k' v'] kvs IH]; intros m; simpl.
  - split; [intros Hex; inversion Hex | reflexivity].
  - destruct (IH (if decide (sType v' = TypeNil) then delete k' m else m)) as [IHdel IHkeep].
    split.
    + intros Hex.
      destruct (decide (Exists (fun kv => kv.1 = k /\ sType kv.2 = TypeNil) kvs))
        as [Hrest|Hrest]; [apply IHdel, Hrest|].
      apply Exists_cons in Hex as [[Hk Hnil]|Hex]; [|contradiction].
      simpl in Hk, Hnil. subst k'.
      rewrite IHkeep.
      * rewrite decide_True by assumption. apply lookup_delete_eq.
      * apply not_Exists_Forall in Hrest; [|intros kv; apply _].
        eapply Forall_impl; [exact Hrest|]. simpl. intros kv Hkv Hk Hnil'. apply Hkv. auto.
    + intros Hall. apply Forall_cons in Hall as [Hhead Hall]. simpl in Hhead.
      rewrite IHkeep by exact Hall.
      case_decide as Hnil; [|reflexivity].
      apply lookup_delete_ne. intros ->. apply Hhead; [reflexivity|exact Hnil].
Qed.

Lemma removeUnmatched_spec (span : Span) :
  removeUnmatched span = setAttributes span (filter nonNil (Attributes span)).
Proof.
  unfold removeUnmatched. f_equal. apply map_eq. intros k.
  destruct (deleteNil_fold (map_to_list (Attributes span)) (Attributes span) k)
    as [Hdel Hkeep].
  rewrite map_lookup_filter.
  destruct (Attributes span !! k) as [v|] eqn:Hk; simpl.
  - destruct (decide (sType v = TypeNil)) as [Hnil|Hnon].
    + rewrite option_guard_False by (unfold nonNil; simpl; tauto).
      apply Hdel. apply Exists_exists. exists (k, v). split; [|auto].
      apply elem_of_map_to_list. exact Hk.
    + rewrite option_guard_True by exact Hnon. simpl.
      rewrite Hkeep; [reflexivity|].
      apply Forall_forall. intros [k' w] Hw%elem_of_map_to_list. simpl. intros ->.
      congruence.
  - rewrite Hkeep; [reflexivity|].
    apply Forall_forall. intros [k' w] Hw%elem_of_map_to_list. simpl. intros ->.
    congruence.
Qed.

(** The spanset of a kept batch: each of its spans is a span of the
    group, with the resource attributes added and nil entries dropped. *)
Lemma batchCollector_build_spans (overall : bool) (minAttributes : Z)
    (res : IteratorResult) (ss : Spanset) :
  batchCollector_build overall minAttributes res = Some ss ->
  forall span', span' ∈ Spans ss ->
    exists span, span ∈ batchSpans res /\ span' = withResAttrs (batchResAttrs res) span.
Proof.
  unfold batchCollector_build, batchSpans, batchResAttrs.
  destruct (foldl batchOtherEntry (∅, []) (OtherEntries res)) as [resAttrs spans].
  simpl. case_decide; [discriminate|].
  destruct (_ && _); [discriminate|].
  rewrite copyResAttrs_spec, map_map.
  set (final := map _ spans).
  assert (Hfinal : forall span', span' ∈ final ->
            exists span, span ∈ spans
                         /\ span' = withResAttrs (foldl batchEntry resAttrs (Entries res)) span).
  { intros span' Hin. apply list_elem_of_fmap in Hin as (span & -> & Hin).
    exists span. split; [exact Hin|]. rewrite removeUnmatched_spec. reflexivity. }
  destruct overall; case_decide; try discriminate; intros [= <-] span' Hin; simpl in Hin.
  - apply list_elem_of_filter in Hin as [_ Hin]. apply Hfinal, Hin.
  - apply Hfinal, Hin.
Qed.

(** ** Resource attributes on spans (batchCollector.KeepGroup) *)

Lemma withResAttrs_lookup (resAttrs : gmap Attribute Static) (span : Span)
    (k : Attribute) (v : Static) :
  Attributes (withResAttrs resAttrs span) !! k = Some v
  <-> sType v <> TypeNil
      /\ (Attributes span !! k = Some v
          \/ (Attributes span !! k = None /\ resAttrs !! k = Some v)).
Proof.
  unfold withResAttrs. simpl.
  rewrite map_lookup_filter_Some, lookup_union_Some_raw. unfold nonNil. simpl. tauto.
Qed.

Lemma batchOtherEntries_resource_keys (es : list (string * Any))
    (acc : gmap Attribute Static * list Span) :
  (forall k, is_Some (acc.1 !! k) -> exists name, k = newResAttr name) ->
  forall k, is_Some ((foldl batchOtherEntry acc es).1 !! k) -> exists name, k = newResAttr name.
Proof.
  revert acc. induction es as [|[key any] es IH]; intros acc Hacc; simpl; [exact Hacc|].
  apply IH. unfold batchOtherEntry. simpl.
  destruct any; simpl; try exact Hacc.
  intros k. rewrite lookup_insert_is_Some. intros [<-|[_ Hk]]; eauto.
Qed.

Lemma batchEntries_resource_keys (es : list (string * Value)) (m : gmap Attribute Static) :
  (forall k, is_Some (m !! k) -> exists name, k = newResAttr name) ->
  forall k, is_Some (foldl batchEntry m es !! k) -> exists name, k = newResAttr name.
Proof.
  revert m. induction es as [|[key val] es IH]; intros m Hm; simpl; [exact Hm|].
  apply IH. unfold batchEntry. simpl.
  destruct (Value_Kind val) as [[]|]; try exact Hm;
    intros k; rewrite lookup_insert_is_Some; intros [<-|[_ Hk]]; eauto.
Qed.

(** Every attribute the batch collector gathers is resource-scoped. *)
Lemma batchResAttrs_resource_scoped (res : IteratorResult) (k : Attribute) :
  is_Some (batchResAttrs res !! k) -> Scope k = AttributeScopeResource.
Proof.
  intros Hk. unfold batchResAttrs in Hk.
  apply batchEntries_resource_keys in Hk as [name ->]; [reflexivity|].
  apply batchOtherEntries_resource_keys. simpl. intros k' [x Hx].
  rewrite lookup_empty in Hx. discriminate.
Qed.

(** C4, as amended: for every batch the batch collector keeps, each
    returned span comes from a span of the batch, and on it: every
    resource attribute collected for the batch (all of them
    resource-scoped) whose type is not nil is present with its value,
    unless the span's map already had an entry under that very key,
    scope included; every entry of non-nil type the span had is kept;
    a span none of whose keys is resource-scoped, whatever attributes it
    has at span scope, gets every resource attribute of non-nil type;
    and no attribute of nil type is left. *)
Theorem batchCollector_propagates_resource_attributes
    (overall : bool) (minAttributes : Z) (res : IteratorResult) (ss : Spanset) :
  batchCollector_build overall minAttributes res = Some ss ->
  (forall k, is_Some (batchResAttrs res !! k) -> Scope k = AttributeScopeResource)
  /\ forall span', span' ∈ Spans ss ->
       exists span,
         span ∈ batchSpans res
         /\ (forall k v, batchResAttrs res !! k = Some v ->
               Attributes span !! k = None -> sType v <> TypeNil ->
               Attributes span' !! k = Some v)
         /\ (forall k w, Attributes span !! k = Some w -> sType w <> TypeNil ->
               Attributes span' !! k = Some w)
         /\ (noResourceKeys (Attributes span) ->
             forall name v, batchResAttrs res !! newResAttr name = Some v ->
               sType v <> TypeNil ->
               Attributes span' !! newResAttr name = Some v)
         /\ (forall k v, Attributes span' !! k = Some v -> sType v <> TypeNil).
Proof.
  intros Hkept. split; [intros k; apply batchResAttrs_resource_scoped|].
  intros span' Hin.
  destruct (batchCollector_build_spans _ _ _ _ Hkept span' Hin) as (span & Hspan & ->).
  exists span. split; [exact Hspan|]. repeat split.
  - intros k v Hres Hnone Hnon. apply withResAttrs_lookup. auto.
  - intros k w Hown Hnon. apply withResAttrs_lookup. auto.
  - intros Hkeys name v Hres Hnon. apply withResAttrs_lookup.
    split; [exact Hnon|]. right. split; [|exact Hres].
    destruct (Attributes span !! newResAttr name) as [w|] eqn:Hk; [|reflexivity].
    exfalso. apply (Hkeys (newResAttr name)); [eauto|reflexivity].
  - intros k v Hk. apply withResAttrs_lookup in Hk. tauto.
Qed.

Lemma batchCollector_propagates_resource_attributes_witness :
  exists ss,
    batchCollector_build true 0 fooBatch = Some ss
    /\ (forall k, is_Some (batchResAttrs fooBatch !! k) -> Scope k = AttributeScopeResource)
    /\ forall span', span' ∈ Spans ss ->
         exists span,
           span ∈ batchSpans fooBatch
           /\ (forall k v, batchResAttrs fooBatch !! k = Some v ->
                 Attributes span !! k = None -> sType v <> TypeNil ->
                 Attributes span' !! k = Some v)
           /\ (forall k w, Attributes span !! k = Some w -> sType w <> TypeNil ->
                 Attributes span' !! k = Some w)
           /\ (noResourceKeys (Attributes span) ->
               forall name v, batchResAttrs fooBatch !! newResAttr name = Some v ->
                 sType v <> TypeNil ->
                 Attributes span' !! newResAttr name = Some v)
           /\ (forall k v, Attributes span' !! k = Some v -> sType v <> TypeNil).
Proof.
  eexists. split; [vm_compute; reflexivity|].
  apply (batchCollector_propagates_resource_attributes true 0 fooBatch).
  vm_compute. reflexivity.
Defined.

(** ** Minimum-match count (createSpanIterator, spanCollector.KeepGroup) *)

Lemma countNonNil_size (attrs : gmap Attribute Static) :
  countNonNil attrs = Z.of_nat (size (filter nonNil attrs)).
Proof.
  unfold countNonNil. f_equal.
  rewrite (map_filter_alt nonNil attrs), map_size_list_to_map; [reflexivity|].
  eapply sublist_NoDup; [apply (NoDup_fst_map_to_list attrs)|].
  apply fmap_sublist, sublist_filter.
Qed.

(** Adding the resource attributes never lowers the non-nil count. *)
Lemma withResAttrs_count (resAttrs : gmap Attribute Static) (span : Span) :
  countNonNil (Attributes span) <= countNonNil (Attributes (withResAttrs resAttrs span)).
Proof.
  rewrite !countNonNil_size. apply inj_le, map_subseteq_size, map_subseteq_spec.
  intros k v [Hk Hnon]%map_lookup_filter_Some.
  apply map_lookup_filter_Some. split; [|exact Hnon].
  apply withResAttrs_lookup. unfold nonNil in Hnon. auto.
Qed.

(** A span the span collector keeps has at least [minAttributes]
    attributes of non-nil type. *)
Lemma spanCollector_build_count (minAttributes : Z)
    (durationFilters : list (option (GenericPredicate Z))) (res : IteratorResult)
    (span : Span) :
  spanCollector_build minAttributes durationFilters res = Ret (Some span) ->
  minAttributes <= countNonNil (Attributes span).
Proof.
  unfold spanCollector_build.
  destruct (spanOtherEntries ∅ (OtherEntries res)) as [attrs| |]; simpl; try discriminate.
  match goal with
  | |- context [countNonNil (Attributes ?sp)] => set (built := sp)
  end.
  destruct (Z.gtb_spec minAttributes 0) as [Hpos|Hnonpos]; simpl.
  - destruct (Z.ltb_spec (countNonNil (Attributes built)) minAttributes);
      [discriminate|]. intros [= <-]. assumption.
  - intros [= <-]. unfold countNonNil. lia.
Qed.

Lemma distinctCount_size (names : list string) :
  size (list_to_set names : gset string) = distinctCount names.
Proof.
  induction names as [|name rest IH]; simpl; [reflexivity|].
  destruct (decide (name ∈ rest)) as [Hin|Hout].
  - rewrite <- IH. f_equal. apply leibniz_equiv. apply subseteq_union_1.
    apply singleton_subseteq_l, elem_of_list_to_set, Hin.
  - rewrite size_union, size_singleton, IH; [reflexivity|].
    apply disjoint_singleton_l. rewrite elem_of_list_to_set. exact Hout.
Qed.

Lemma distinctNames_count (conditions : list Condition) :
  distinctNames conditions
  = Z.of_nat (distinctCount (map (fun c => Name (Attribute_ c)) conditions)).
Proof. unfold distinctNames. rewrite distinctCount_size. reflexivity. Qed.

Lemma countNonNil_witnessed (n : Z) (span : Span) :
  n <= countNonNil (Attributes span) -> hasNonNilAttributes n span.
Proof.
  rewrite countNonNil_size. intros Hn.
  exists (map_to_list (filter nonNil (Attributes span))).*1. split; [|split].
  - apply NoDup_fst_map_to_list.
  - rewrite length_fmap, length_map_to_list. exact Hn.
  - intros k [[k' v] [-> Hkv]]%list_elem_of_fmap. simpl.
    apply elem_of_map_to_list in Hkv. apply map_lookup_filter_Some in Hkv as [Hk Hnon].
    exists v. split; [exact Hk|exact Hnon].
Qed.

Lemma createSpanIterator_collector `{!Regexp} (conditions : list Condition)
    (start end_ : Z) (requireAtLeastOneMatch allConditions : bool) (it : Iter) :
  createSpanIterator conditions start end_ requireAtLeastOneMatch allConditions = Ret it ->
  exists required optional durationFilters,
    it = LeftJoinIterator DefinitionLevelResourceSpansILSSpan required optional
           (spanCollector (minCountOf conditions requireAtLeastOneMatch allConditions)
              durationFilters).
Proof.
  unfold createSpanIterator, minCountOf. rewrite <- distinctNames_count.
  destruct (createSpanColumnIterators attributeCollector conditions false)
    as [[its durs]| |]; simpl; try discriminate.
  destruct (timeFilters start end_) as [startFilter endFilter].
  destruct allConditions, requireAtLeastOneMatch; simpl;
    repeat match goal with
           | |- context [if ?b then _ else _] => destruct b; simpl
           end;
    intros [= <-]; do 3 eexists; reflexivity.
Qed.

(** C3: the span collector of the span iterator carries the minimum
    count 0 by default, 1 under [requireAtLeastOneMatch], and the number
    of distinct attribute names of the span conditions under
    [allConditions] (which takes precedence); every span that collector
    keeps has at least that many attributes of non-nil type, under as
    many different keys, and so has every span of a spanset the batch
    collector builds from such spans. *)
Theorem span_minimum_match_count `{!Regexp} (conditions : list Condition)
    (start end_ : Z) (requireAtLeastOneMatch allConditions : bool) (it : Iter) :
  createSpanIterator conditions start end_ requireAtLeastOneMatch allConditions = Ret it ->
  exists required optional durationFilters,
    let minCount := minCountOf conditions requireAtLeastOneMatch allConditions in
    it = LeftJoinIterator DefinitionLevelResourceSpansILSSpan required optional
           (spanCollector minCount durationFilters)
    /\ (forall group span,
          spanCollector_build minCount durationFilters group = Ret (Some span) ->
          hasNonNilAttributes minCount span)
    /\ (forall overall batchMin batch ss,
          (forall span, span ∈ batchSpans batch ->
             exists group,
               spanCollector_build minCount durationFilters group = Ret (Some span)) ->
          batchCollector_build overall batchMin batch = Some ss ->
          forall span', span' ∈ Spans ss -> hasNonNilAttributes minCount span').
Proof.
  intros Hit.
  destruct (createSpanIterator_collector _ _ _ _ _ _ Hit) as (required & optional & durs & ->).
  exists required, optional, durs. simpl. split; [reflexivity|]. split.
  - intros group span Hgroup. apply countNonNil_witnessed.
    apply (spanCollector_build_count _ _ _ _ Hgroup).
  - intros overall batchMin batch ss Hspans Hkept span' Hin.
    destruct (batchCollector_build_spans _ _ _ _ Hkept span' Hin) as (span & Hspan & ->).
    destruct (Hspans span Hspan) as [group Hgroup].
    apply spanCollector_build_count in Hgroup.
    pose proof (withResAttrs_count (batchResAttrs batch) span).
    apply countNonNil_witnessed. lia.
Qed.

Lemma span_minimum_match_count_witness :
  exists it,
    @createSpanIterator permissiveRegexp repeatedNames 0 0 true true = Ret it
    /\ minCountOf repeatedNames true true = 2
    /\ exists required optional durationFilters,
         let minCount := minCountOf repeatedNames true true in
         it = LeftJoinIterator DefinitionLevelResourceSpansILSSpan required optional
                (spanCollector minCount durationFilters)
         /\ (forall group span,
               spanCollector_build minCount durationFilters group = Ret (Some span) ->
               hasNonNilAttributes minCount span)
         /\ (forall overall batchMin batch ss,
               (forall span, span ∈ batchSpans batch ->
                  exists group,
                    spanCollector_build minCount durationFilters group = Ret (Some span)) ->
               batchCollector_build overall batchMin batch = Some ss ->
               forall span', span' ∈ Spans ss -> hasNonNilAttributes minCount span').
Proof.
  eexists. split; [reflexivity|]. split; [reflexivity|].
  apply (@span_minimum_match_count permissiveRegexp repeatedNames 0 0 true true).
  reflexivity.
Defined.

Lemma traceOtherEntries_spans (es : list (string * Any)) (ss0 : Spanset) (span : Span) :
  span ∈ Spans (foldl traceOtherEntry ss0 es) ->
  span ∈ Spans ss0 \/ exists key ss, (key, AnySpanset ss) ∈ es /\ span ∈ Spans ss.
Proof.
  revert ss0. induction es as [|[key any] es IH]; intros ss0; simpl; [auto|].
  intros Hin. apply IH in Hin as [Hin|(key' & ss' & Hin' & Hsp)].
  - unfold traceOtherEntry in Hin. destruct any as [s|sp|ss]; simpl in Hin; auto.
    apply elem_of_app in Hin as [Hin|Hin]; [auto|].
    right. exists key, ss. split; [apply list_elem_of_here|exact Hin].
  - right. exists key', ss'. split; [apply list_elem_of_further, Hin'|exact Hsp].
Qed.

Lemma traceEntries_spans (es : list (string * Value)) (ss0 : Spanset) :
  Spans (foldl traceEntry ss0 es) = Spans ss0.
Proof.
  revert ss0. induction es as [|e es IH]; intros ss0; simpl; [reflexivity|].
  rewrite IH. unfold traceEntry. repeat case_decide; reflexivity.
Qed.

(** The trace collector only gathers the spans of the batch spansets. *)
Lemma traceCollector_build_spans (res : IteratorResult) (span : Span) :
  span ∈ Spans (traceCollector_build res) ->
  exists key ss, (key, AnySpanset ss) ∈ OtherEntries res /\ span ∈ Spans ss.
Proof.
  unfold traceCollector_build. intros Hin.
  apply traceOtherEntries_spans in Hin as [Hin|Hin]; [|exact Hin].
  rewrite traceEntries_spans in Hin. inversion Hin.
Qed.

(** ** Keys of the attribute maps *)

Lemma noResourceKeys_insert (m : gmap Attribute Static) (k : Attribute) (v : Static) :
  Scope k <> AttributeScopeResource -> noResourceKeys m -> noResourceKeys (<[k := v]> m).
Proof.
  intros Hk Hm j. rewrite lookup_insert_is_Some. intros [<-|[_ Hj]]; auto.
Qed.

Lemma spanOtherEntries_keys (es : list (string * Any)) (m m' : gmap Attribute Static) :
  noResourceKeys m -> spanOtherEntries m es = Ret m' -> noResourceKeys m'.
Proof.
  revert m. induction es as [|[key any] es IH]; intros m Hm; simpl.
  - intros [= <-]. exact Hm.
  - destruct any; try discriminate. apply IH, noResourceKeys_insert; [discriminate|exact Hm].
Qed.

Lemma spanEntry_keys (span : Span) (kv : string * Value) :
  noResourceKeys (Attributes span) -> noResourceKeys (Attributes (spanEntry span kv)).
Proof.
  intros Hm. unfold spanEntry. repeat case_decide; simpl; try exact Hm;
    try (apply noResourceKeys_insert; [discriminate|exact Hm]).
  destruct (Value_Kind kv.2) as [[]|]; simpl; try exact Hm;
    apply noResourceKeys_insert; (discriminate || exact Hm).
Qed.

(** The span collector keys a span's attributes by span scope or as
    intrinsics, never by resource scope. *)
Lemma spanCollector_build_keys (minAttributes : Z)
    (durationFilters : list (option (GenericPredicate Z))) (res : IteratorResult)
    (span : Span) :
  spanCollector_build minAttributes durationFilters res = Ret (Some span) ->
  noResourceKeys (Attributes span).
Proof.
  unfold spanCollector_build.
  destruct (spanOtherEntries ∅ (OtherEntries res)) as [attrs| |] eqn:Hattrs;
    simpl; try discriminate.
  assert (Hkeys : noResourceKeys attrs).
  { eapply spanOtherEntries_keys; [|exact Hattrs].
    intros k [x Hx]. rewrite lookup_empty in Hx. discriminate. }
  assert (Hfold : forall es sp, noResourceKeys (Attributes sp) ->
                    noResourceKeys (Attributes (foldl spanEntry sp es))).
  { induction es as [|e es IH]; intros sp Hsp; simpl; [exact Hsp|].
    apply IH, spanEntry_keys, Hsp. }
  specialize (Hfold (Entries res) (mkSpan "" 0 0 attrs) Hkeys).
  repeat match goal with
         | |- context [if ?b then _ else _] => destruct b; simpl
         end;
    try discriminate; intros [= <-]; simpl; try exact Hfold;
    apply noResourceKeys_insert; (discriminate || exact Hfold).
Qed.

(** On spans that come from the span collector no resource attribute
    is shadowed: each one of non-nil type is on every returned span. *)
Lemma resource_attributes_reach_collected_spans
    (overall : bool) (minAttributes : Z) (batch : IteratorResult) (ss : Spanset) :
  (forall span, span ∈ batchSpans batch ->
     exists spanMin durationFilters group,
       spanCollector_build spanMin durationFilters group = Ret (Some span)) ->
  batchCollector_build overall minAttributes batch = Some ss ->
  forall span' k v,
    span' ∈ Spans ss -> batchResAttrs batch !! k = Some v -> sType v <> TypeNil ->
    Attributes span' !! k = Some v.
Proof.
  intros Hspans Hkept span' k v Hin Hres Hnon.
  destruct (batchCollector_build_spans _ _ _ _ Hkept span' Hin) as (span & Hspan & ->).
  destruct (Hspans span Hspan) as (spanMin & durs & group & Hgroup).
  apply spanCollector_build_keys in Hgroup.
  apply withResAttrs_lookup. split; [exact Hnon|]. right. split; [|exact Hres].
  destruct (Attributes span !! k) as [w|] eqn:Hk; [|reflexivity].
  exfalso. apply (Hgroup k); [eauto|].
  apply (batchResAttrs_resource_scoped batch). eauto.
Qed.

(** The keys carry the scope: a span attribute [foo] and a resource
    attribute [foo] are two entries, and the returned span has both. *)
Example span_and_resource_foo_coexist :
  exists ss span',
    batchCollector_build true 0 fooBatch = Some ss
    /\ Spans ss = [span']
    /\ Attributes span' !! newSpanAttr "foo" = Some (NewStaticString "from span")
    /\ Attributes span' !! newResAttr "foo" = Some (NewStaticString "from resource").
Proof.
  do 2 eexists. split; [vm_compute; reflexivity|].
  split; [reflexivity|]. split; vm_compute; reflexivity.
Qed.

(** C4, as stated, fails: a span that carries [foo] at span scope, in a
    batch whose resource has [foo] too, is returned with both entries;
    the span's attribute does not shadow the resource's, the two keys
    differing in their scope. *)
Lemma batchCollector_name_shadowing_counterexample :
  ~ propagationAsSpecified true 0 fooBatch.
Proof.
  unfold propagationAsSpecified. intros Hrule.
  destruct span_and_resource_foo_coexist as (ss & span' & Hb & Hs & Hspan & Hres).
  destruct (Hrule ss Hb span') as [Hshadow _].
  { rewrite Hs. apply list_elem_of_singleton. reflexivity. }
  assert (Hfoo : batchResAttrs fooBatch !! newResAttr "foo"
                 = Some (NewStaticString "from resource")) by (vm_compute; reflexivity).
  specialize (Hshadow "foo" _ Hfoo).
  destruct (decide (is_Some (Attributes span' !! newSpanAttr "foo"))) as [_|Hno].
  - rewrite Hres in Hshadow. discriminate Hshadow. discriminate.
  - apply Hno. rewrite Hspan. eauto.
Qed.

(** A run of the merge iterator: the first call yields the first
    sub-iterator's spanset; the second finds it ended, moves on and
    returns the second sub-iterator's error, staying on it. *)
Example merge_run :
  (Next mergeExample).1 = (Some (emptySpanset []), None)
  /\ cur (Next mergeExample).2 = 0%nat
  /\ (Next (Next mergeExample).2).1 = (None, Some (Errorf "read failed"))
  /\ cur (Next (Next mergeExample).2).2 = 1%nat.
Proof. repeat split; reflexivity. Qed.

(** * Further properties of the planner *)

(** ** No panic after validation *)

Lemma bind_no_panic {A B : Type} (m : outcome A) (k : A -> outcome B) :
  ~ panics m -> (forall a, m = Ret a -> ~ panics (k a)) -> ~ panics (m ≫= k).
Proof.
  intros Hm Hk [msg Hp]. destruct m as [a|e|s]; simpl in Hp.
  - apply (Hk a eq_refl). exists msg. exact Hp.
  - discriminate.
  - apply Hm. eexists. reflexivity.
Qed.

Lemma wrapping_no_panic {A : Type} (msg : string) (m : outcome A) :
  ~ panics m -> ~ panics (wrapping msg m).
Proof.
  intros Hm [s Hp]. destruct m; simpl in Hp; try discriminate.
  apply Hm. eexists. reflexivity.
Qed.

Lemma Ret_no_panic {A : Type} (a : A) : ~ panics (Ret a).
Proof. intros [msg H]. discriminate. Qed.

Lemma Fail_no_panic {A : Type} (e : error) : ~ panics (Fail e : outcome A).
Proof. intros [msg H]. discriminate. Qed.

Lemma firstOperand_no_panic (operands : list Static) :
  operands <> [] -> ~ panics (firstOperand operands).
Proof. destruct operands; [congruence|]. intros _. apply Ret_no_panic. Qed.

Ltac no_panic_step :=
  match goal with
  | |- ~ panics (Ret _) => apply Ret_no_panic
  | |- ~ panics (Fail _) => apply Fail_no_panic
  | |- ~ panics (wrapping _ _) => apply wrapping_no_panic
  | |- ~ panics (firstOperand _) => apply firstOperand_no_panic; assumption
  | |- ~ panics (_ ≫= _) => apply bind_no_panic; [|intros ? ?]
  | |- ~ panics (if ?b then _ else _) => destruct b
  | |- ~ panics (match ?x with _ => _ end) => destruct x
  end.

Section NoPanic.
Context `{!Regexp}.

Lemma NewRegexInPredicate_no_panic (regs : list string) :
  ~ panics (NewRegexInPredicate regs).
Proof. unfold NewRegexInPredicate. repeat no_panic_step. Qed.

Lemma createStringPredicate_no_panic (op : Operator) (operands : list Static) :
  op = OpNone \/ operands <> [] -> ~ panics (createStringPredicate op operands).
Proof.
  intros [->|Hops]; unfold createStringPredicate.
  - rewrite decide_True by reflexivity. apply Ret_no_panic.
  - repeat no_panic_step; apply NewRegexInPredicate_no_panic.
Qed.

Lemma intFns_no_panic (op : Operator) (i : Z) : ~ panics (intFns op i).
Proof. unfold intFns. repeat no_panic_step. Qed.

Lemma createIntPredicate_no_panic (op : Operator) (operands : list Static) :
  op = OpNone \/ operands <> [] -> ~ panics (createIntPredicate op operands).
Proof.
  intros [->|Hops]; unfold createIntPredicate.
  - rewrite decide_True by reflexivity. apply Ret_no_panic.
  - repeat (no_panic_step || apply intFns_no_panic).
Qed.

Lemma createStatusPredicate_no_panic (op : Operator) (operands : list Static) :
  op = OpNone \/ operands <> [] -> ~ panics (createStatusPredicate op operands).
Proof.
  intros [->|Hops]; unfold createStatusPredicate.
  - rewrite decide_True by reflexivity. apply Ret_no_panic.
  - repeat (no_panic_step || apply intFns_no_panic).
Qed.

Lemma createFloatPredicate_no_panic (op : Operator) (operands : list Static) :
  op = OpNone \/ operands <> [] -> ~ panics (createFloatPredicate op operands).
Proof.
  intros [->|Hops]; unfold createFloatPredicate.
  - rewrite decide_True by reflexivity. apply Ret_no_panic.
  - repeat no_panic_step.
Qed.

Lemma createBoolPredicate_no_panic (op : Operator) (operands : list Static) :
  op = OpNone \/ operands <> [] -> ~ panics (createBoolPredicate op operands).
Proof.
  intros [->|Hops]; unfold createBoolPredicate.
  - rewrite decide_True by reflexivity. apply Ret_no_panic.
  - repeat no_panic_step.
Qed.

Lemma createPredicate_no_panic (op : Operator) (operands : list Static) :
  op = OpNone \/ operands <> [] -> ~ panics (createPredicate op operands).
Proof.
  intros Hops. unfold createPredicate.
  destruct (decide (op = OpNone)); [apply Ret_no_panic|].
  destruct Hops as [?|Hops]; [contradiction|].
  apply bind_no_panic; [apply firstOperand_no_panic, Hops|]. intros o _.
  destruct (sType o); try apply Fail_no_panic.
  - apply bind_no_panic; [apply createIntPredicate_no_panic; auto|].
    intros; apply Ret_no_panic.
  - apply createFloatPredicate_no_panic; auto.
  - apply createStringPredicate_no_panic; auto.
  - apply createBoolPredicate_no_panic; auto.
Qed.

Lemma forEach_no_panic {A St : Type} (body : A -> St -> outcome St) (l : list A) (st : St) :
  (forall a st, a ∈ l -> ~ panics (body a st)) -> ~ panics (forEach body l st).
Proof.
  revert st. induction l as [|a l IH]; intros st Hbody; simpl.
  - apply Ret_no_panic.
  - apply bind_no_panic; [apply Hbody, list_elem_of_here|].
    intros st' _. apply IH. intros a' st'' Hin. apply Hbody, list_elem_of_further, Hin.
Qed.

Lemma attrStep_no_panic (cond : Condition) (st : attrPreds) :
  hasOperand cond -> ~ panics (attrStep cond st).
Proof.
  intros Hops. unfold attrStep.
  destruct (decide (Op cond = OpNone)); [apply Ret_no_panic|].
  destruct Hops as [?|Hops]; [contradiction|].
  apply bind_no_panic; [apply firstOperand_no_panic, Hops|]. intros o _.
  destruct (sType o); try apply Ret_no_panic;
    (apply bind_no_panic; [apply wrapping_no_panic|intros; apply Ret_no_panic]).
  - apply createIntPredicate_no_panic; auto.
  - apply createFloatPredicate_no_panic; auto.
  - apply createStringPredicate_no_panic; auto.
  - apply createBoolPredicate_no_panic; auto.
Qed.

Lemma createAttributeIterator_no_panic (T : collector) (conditions : list Condition)
    (definitionLevel : nat) (keyPath strPath intPath floatPath boolPath : string) :
  Forall hasOperand conditions ->
  ~ panics (createAttributeIterator T conditions definitionLevel
              keyPath strPath intPath floatPath boolPath).
Proof.
  intros Hall. unfold createAttributeIterator.
  apply bind_no_panic.
  - apply forEach_no_panic. intros cond st Hin. apply attrStep_no_panic.
    rewrite Forall_forall in Hall. auto.
  - intros st _. repeat no_panic_step.
Qed.

Lemma spanColumnStep_no_panic (cond : Condition) (st : columnState) :
  hasOperand cond -> ~ panics (spanColumnStep cond st).
Proof.
  intros Hops. unfold spanColumnStep.
  destruct (Intrinsic_ (Attribute_ cond)).
  2: { apply bind_no_panic; [apply createIntPredicate_no_panic, Hops|].
       intros; apply Ret_no_panic. }
  2: { apply bind_no_panic; [apply createStringPredicate_no_panic, Hops|].
       intros; apply Ret_no_panic. }
  2: { apply bind_no_panic; [apply createStatusPredicate_no_panic, Hops|].
       intros; apply Ret_no_panic. }
  all: destruct (wellKnownColumnLookups !! Name (Attribute_ cond)); try apply Ret_no_panic;
    repeat (case_decide; try apply Ret_no_panic);
    (apply bind_no_panic;
     [apply wrapping_no_panic, createPredicate_no_panic, Hops|intros; apply Ret_no_panic]).
Qed.

Lemma resourceColumnStep_no_panic (cond : Condition) (st : columnState) :
  hasOperand cond -> ~ panics (resourceColumnStep cond st).
Proof.
  intros Hops. unfold resourceColumnStep.
  destruct (wellKnownColumnLookups !! Name (Attribute_ cond)); try apply Ret_no_panic;
    repeat (case_decide; try apply Ret_no_panic);
    (apply bind_no_panic;
     [apply wrapping_no_panic, createPredicate_no_panic, Hops|intros; apply Ret_no_panic]).
Qed.

Lemma forEach_generic_sub {A : Type} (body : A -> columnState -> outcome columnState)
    (P : Condition -> Prop) (l : list A) (st st' : columnState) :
  (forall a s s', a ∈ l -> body a s = Ret s' ->
     Forall P (genericConditions s) -> Forall P (genericConditions s')) ->
  Forall P (genericConditions st) ->
  forEach body l st = Ret st' -> Forall P (genericConditions st').
Proof.
  revert st. induction l as [|a l IH]; intros st Hbody Hst; simpl.
  - intros [= <-]. exact Hst.
  - destruct (body a st) as [s| |] eqn:Hs; simpl; try discriminate.
    apply IH.
    + intros a' s1 s2 Hin. apply Hbody, list_elem_of_further, Hin.
    + eapply Hbody; [apply list_elem_of_here|eassumption..].
Qed.

Lemma spanColumnStep_generic (P : Condition -> Prop) (cond : Condition)
    (s s' : columnState) :
  P cond -> spanColumnStep cond s = Ret s' ->
  Forall P (genericConditions s) -> Forall P (genericConditions s').
Proof.
  intros Hcond Hstep Hs. unfold spanColumnStep in Hstep.
  assert (Hgen : Forall P (genericConditions (withGeneric cond s))).
  { simpl. apply Forall_app. split; [exact Hs|]. repeat constructor. exact Hcond. }
  repeat match type of Hstep with
         | (match ?x with _ => _ end) = _ => destruct x; simpl in Hstep
         | (if ?b then _ else _) = _ => destruct b; simpl in Hstep
         | (?m ≫= _) = _ => destruct m; simpl in Hstep
         end;
    try discriminate; injection Hstep as <-; assumption.
Qed.

Lemma resourceColumnStep_generic (P : Condition -> Prop) (cond : Condition)
    (s s' : columnState) :
  P cond -> resourceColumnStep cond s = Ret s' ->
  Forall P (genericConditions s) -> Forall P (genericConditions s').
Proof.
  intros Hcond Hstep Hs. unfold resourceColumnStep in Hstep.
  assert (Hgen : Forall P (genericConditions (withGeneric cond s))).
  { simpl. apply Forall_app. split; [exact Hs|]. repeat constructor. exact Hcond. }
  repeat match type of Hstep with
         | (match ?x with _ => _ end) = _ => destruct x; simpl in Hstep
         | (if ?b then _ else _) = _ => destruct b; simpl in Hstep
         | (?m ≫= _) = _ => destruct m; simpl in Hstep
         end;
    try discriminate; injection Hstep as <-; assumption.
Qed.

Lemma createSpanColumnIterators_no_panic (T : collector) (conditions : list Condition)
    (withAll : bool) :
  Forall hasOperand conditions ->
  ~ panics (createSpanColumnIterators T conditions withAll).
Proof.
  intros Hall. unfold createSpanColumnIterators.
  apply bind_no_panic.
  - apply forEach_no_panic. intros cond st Hin. apply spanColumnStep_no_panic.
    rewrite Forall_forall in Hall. auto.
  - intros st Hst. apply bind_no_panic; [|intros; apply Ret_no_panic].
    apply wrapping_no_panic, createAttributeIterator_no_panic.
    apply (forEach_generic_sub spanColumnStep hasOperand conditions emptyColumnState st);
      [|constructor|exact Hst].
    intros cond s s' Hin. apply spanColumnStep_generic.
    rewrite Forall_forall in Hall. auto.
Qed.

Lemma createResourceColumIterators_no_panic (T : collector) (conditions : list Condition)
    (withAll : bool) :
  Forall hasOperand conditions ->
  ~ panics (createResourceColumIterators T conditions withAll).
Proof.
  intros Hall. unfold createResourceColumIterators.
  apply bind_no_panic.
  - apply forEach_no_panic. intros cond st Hin. apply resourceColumnStep_no_panic.
    rewrite Forall_forall in Hall. auto.
  - intros st Hst. apply bind_no_panic; [|intros; apply Ret_no_panic].
    apply wrapping_no_panic, createAttributeIterator_no_panic.
    apply (forEach_generic_sub resourceColumnStep hasOperand conditions emptyColumnState st);
      [|constructor|exact Hst].
    intros cond s s' Hin. apply resourceColumnStep_generic.
    rewrite Forall_forall in Hall. auto.
Qed.

Lemma createSpanIterator_no_panic (conditions : list Condition) (start end_ : Z)
    (requireAtLeastOneMatch allConditions : bool) :
  Forall hasOperand conditions ->
  ~ panics (createSpanIterator conditions start end_ requireAtLeastOneMatch allConditions).
Proof.
  intros Hall. unfold createSpanIterator.
  apply bind_no_panic; [apply createSpanColumnIterators_no_panic, Hall|].
  intros [its durs] _. destruct (timeFilters start end_).
  repeat no_panic_step.
Qed.

Lemma createResourceIterator_no_panic (spanIterator : Iter) (conditions : list Condition)
    (requireAtLeastOneMatch overall allConditions : bool) :
  Forall hasOperand conditions ->
  ~ panics (createResourceIterator spanIterator conditions requireAtLeastOneMatch overall
              allConditions).
Proof.
  intros Hall. unfold createResourceIterator.
  apply bind_no_panic; [apply createResourceColumIterators_no_panic, Hall|].
  intros its _. repeat no_panic_step.
Qed.

End NoPanic.

Lemma wellFormed_hasOperand (cond : Condition) : ~ malformed cond -> hasOperand cond.
Proof.
  unfold malformed, hasOperand. intros Hok.
  destruct (Op cond); auto; right;
    (destruct (Operands cond); [exfalso; apply Hok; simpl; auto|discriminate]).
Qed.

Lemma categorize_no_panic (conditions : list Condition) : ~ panics (categorize conditions).
Proof.
  apply forEach_no_panic. intros cond st _. unfold categorizeStep.
  destruct (effectiveScope cond); (apply Ret_no_panic || apply Fail_no_panic).
Qed.

(** X1: a request that passed [checkConditions] cannot make the planner
    panic.  Every [operands[0]] the predicate constructors read exists,
    so [fetch] panics only where it slices the row groups: if that
    slice is in bounds, [fetch] returns a plan or an error. *)
Theorem validated_fetch_does_not_panic `{!Regexp}
    (req : FetchSpansRequest) (pf : File) (opts : SearchOptions) (rgs : list RowGroup) :
  checkConditions (Conditions req) = None ->
  selectRowGroups (RowGroups pf) opts = Ret rgs ->
  ~ panics (fetch req pf opts).
Proof.
  intros Hvalid Hslice.
  apply checkConditions_None in Hvalid.
  assert (Hops : Forall hasOperand (Conditions req)).
  { eapply Forall_impl; [exact Hvalid|]. apply wellFormed_hasOperand. }
  unfold fetch. apply bind_no_panic; [apply categorize_no_panic|].
  intros cats Hcats. rewrite Hslice. simpl.
  apply categorize_spec in Hcats as (Hs & Hr & _).
  apply bind_no_panic.
  - apply wrapping_no_panic, createSpanIterator_no_panic.
    rewrite Hs. apply Forall_forall. intros c [_ Hin]%list_elem_of_filter.
    rewrite Forall_forall in Hops. auto.
  - intros spanIter _. apply bind_no_panic; [|intros; apply Ret_no_panic].
    apply wrapping_no_panic, createResourceIterator_no_panic.
    rewrite Hr. apply Forall_forall. intros c [_ Hin]%list_elem_of_filter.
    rewrite Forall_forall in Hops. auto.
Qed.

Lemma validated_fetch_does_not_panic_witness :
  checkConditions (Conditions routing_example) = None
  /\ selectRowGroups (RowGroups twoRowGroups) (mkSearchOptions 1 5) = Ret [1%nat]
  /\ ~ panics (@fetch permissiveRegexp routing_example twoRowGroups (mkSearchOptions 1 5)).
Proof.
  split; [reflexivity|]. split; [reflexivity|].
  apply (@validated_fetch_does_not_panic permissiveRegexp routing_example twoRowGroups
           (mkSearchOptions 1 5) [1%nat]); reflexivity.
Defined.

(** ** The predicate constructors *)

(** X2: a comparison without operand panics.  For every operator other
    than none, each predicate constructor reads [operands[0]] of the
    empty list; so does the attribute sub-plan as soon as it meets such
    a condition, whatever conditions follow. *)
Theorem missing_operand_panics `{!Regexp} (op : Operator) :
  op <> OpNone ->
  createStringPredicate op [] = Panics indexPanic
  /\ createIntPredicate op [] = Panics indexPanic
  /\ createStatusPredicate op [] = Panics indexPanic
  /\ createFloatPredicate op [] = Panics indexPanic
  /\ createBoolPredicate op [] = Panics indexPanic
  /\ createPredicate op [] = Panics indexPanic
  /\ forall T attr rest level keyPath strPath intPath floatPath boolPath,
       createAttributeIterator T (mkCondition attr op [] :: rest) level
         keyPath strPath intPath floatPath boolPath = Panics indexPanic.
Proof.
  intros Hop.
  unfold createStringPredicate, createIntPredicate, createStatusPredicate,
    createFloatPredicate, createBoolPredicate, createPredicate.
  rewrite !decide_False by exact Hop. repeat split.
  intros T attr rest level keyPath strPath intPath floatPath boolPath.
  unfold createAttributeIterator. rewrite forEach_cons.
  unfold attrStep. simpl. rewrite decide_False by exact Hop. reflexivity.
Qed.

Lemma missing_operand_panics_witness :
  @createStringPredicate permissiveRegexp OpEqual [] = Panics indexPanic
  /\ createIntPredicate OpEqual [] = Panics indexPanic
  /\ createStatusPredicate OpEqual [] = Panics indexPanic
  /\ createFloatPredicate OpEqual [] = Panics indexPanic
  /\ createBoolPredicate OpEqual [] = Panics indexPanic
  /\ @createPredicate permissiveRegexp OpEqual [] = Panics indexPanic
  /\ forall T attr rest level keyPath strPath intPath floatPath boolPath,
       @createAttributeIterator permissiveRegexp T (mkCondition attr OpEqual [] :: rest) level
         keyPath strPath intPath floatPath boolPath = Panics indexPanic.
Proof. apply (@missing_operand_panics permissiveRegexp OpEqual). discriminate. Defined.

(** X3: which comparisons [createPredicate] can push down to a
    dedicated column.  With one operand it returns a predicate exactly
    for: eq, ne and a compiling regex on strings; the six order and
    equality operators on ints and floats; eq and ne on booleans; and
    none on anything.  Every other pairing, and every duration, status
    or nil operand, is an error. *)
Theorem createPredicate_supported `{!Regexp} (op : Operator) (operand : Static) :
  (exists p, createPredicate op [operand] = Ret p) <-> predicateSupported operand op = true.
Proof.
  unfold createPredicate, predicateSupported.
  destruct (decide (op = OpNone)) as [->|Hop].
  { split; [reflexivity|]. intros _. eexists. reflexivity. }
  simpl.
  unfold createStringPredicate, createIntPredicate, createFloatPredicate,
    createBoolPredicate, NewRegexInPredicate.
  rewrite !decide_False by exact Hop. simpl.
  destruct operand as [t n f s b d st]. simpl.
  destruct t; simpl;
    try (destruct op; split; [intros [p Hp]; discriminate Hp | discriminate]);
    destruct op; simpl; try contradiction;
    try (split; [reflexivity | intros _; eexists; reflexivity]);
    try (split; [intros [p Hp]; discriminate Hp | discriminate]).
  rewrite andb_true_r. destruct (regexp_compiles s); simpl;
    [split; [reflexivity | intros _; eexists; reflexivity]
    |split; [intros [p Hp]; discriminate Hp | discriminate]].
Qed.

(** X4: page pruning of the string predicates built in this file is
    sound.  The not-equal predicate of [createStringPredicate] keeps
    every page that holds a value different from the operand, and the
    non-empty predicate put on unselected well-known columns keeps
    every page that holds a non-empty value. *)
Theorem string_predicates_page_sound `{!Regexp} (s : string) :
  (exists g, createStringPredicate OpNotEqual [NewStaticString s] = Ret (Some (GenericString g))
             /\ stringPageSound g)
  /\ (exists g, nonEmptyPredicate = GenericString g /\ stringPageSound g).
Proof.
  split; eexists; (split; [reflexivity|]); intros v min max; simpl.
  - intros Hv Hmin Hmax.
    destruct (String.eqb_spec min s) as [->|]; [|reflexivity].
    destruct (String.eqb_spec max s) as [->|]; [|reflexivity].
    pose proof (String.leb_antisym _ _ Hmin Hmax) as <-.
    rewrite String.eqb_refl in Hv. discriminate.
  - intros Hv Hmin Hmax.
    destruct (String.eqb_spec min "") as [->|]; [|reflexivity].
    destruct (String.eqb_spec max "") as [->|]; [|reflexivity].
    pose proof (String.leb_antisym _ _ Hmin Hmax) as <-. discriminate.
Qed.

(** X5: every predicate [createIntPredicate] or [createStatusPredicate]
    returns is sound for page pruning, also for a duration or a status
    operand. *)
Theorem int_like_predicates_page_sound (op : Operator) (operands : list Static)
    (g : GenericPredicate Z) :
  createIntPredicate op operands = Ret (Some g)
  \/ createStatusPredicate op operands = Ret (Some g) ->
  forall v min max, Fn g v = true -> min <= v <= max -> RangeFn g min max = true.
Proof.
  intros [Hint|Hstatus]; [exact (createIntPredicate_sound_any op operands g Hint)|].
  revert Hstatus. unfold createStatusPredicate. case_decide; [discriminate|].
  destruct operands as [|o rest]; [discriminate|]. simpl.
  destruct (sType o); simpl; try discriminate;
    match goal with
    | |- context [intFns op ?i] =>
        destruct (intFns op i) as [g'| |] eqn:Hg; simpl; try discriminate;
        intros [= <-]; exact (intFns_pageSound op i g' Hg)
    end.
Qed.

Lemma int_like_predicates_page_sound_witness :
  exists g,
    createStatusPredicate OpGreaterEqual [NewStaticStatus StatusOk] = Ret (Some g)
    /\ forall v min max, Fn g v = true -> min <= v <= max -> RangeFn g min max = true.
Proof.
  eexists. split; [reflexivity|].
  apply (int_like_predicates_page_sound OpGreaterEqual [NewStaticStatus StatusOk]).
  right. reflexivity.
Defined.

(** ** The attribute sub-plan (createAttributeIterator) *)

Section AttributePlan.
Context `{!Regexp}.

Lemma attrStep_keys (cond : Condition) (st st' : attrPreds) :
  attrStep cond st = Ret st' ->
  attrKeys st' = attrKeys st ++ [Name (Attribute_ cond)].
Proof.
  unfold attrStep. case_decide; [intros [= <-]; reflexivity|].
  destruct (firstOperand (Operands cond)) as [o| |]; simpl; try discriminate.
  destruct (sType o); simpl;
    repeat match goal with
           | |- context [wrapping ?msg ?m] => destruct m; simpl
           end;
    try discriminate; intros [= <-]; reflexivity.
Qed.

Lemma forEach_attrStep_keys (conditions : list Condition) (st st' : attrPreds) :
  forEach attrStep conditions st = Ret st' ->
  attrKeys st' = attrKeys st ++ conditionNames conditions.
Proof.
  revert st. induction conditions as [|c rest IH]; intros st.
  - simpl. intros [= <-]. rewrite app_nil_r. reflexivity.
  - rewrite forEach_cons. destruct (attrStep c st) as [s| |] eqn:Hs; try discriminate.
    intros Hrest. apply IH in Hrest. rewrite Hrest, (attrStep_keys _ _ _ Hs).
    unfold conditionNames. simpl. rewrite <- app_assoc. reflexivity.
Qed.

Lemma forEach_attrStep_dropped (conditions : list Condition) (st : attrPreds) :
  Forall withoutValueColumn conditions -> noValuePreds st ->
  exists st', forEach attrStep conditions st = Ret st' /\ noValuePreds st'.
Proof.
  revert st. induction conditions as [|c rest IH]; intros st Hall Hst.
  - exists st. split; [reflexivity|exact Hst].
  - apply Forall_cons in Hall as [(Hop & o & ops & Hops & Htype) Hall].
    rewrite forEach_cons. unfold attrStep at 1.
    rewrite decide_False by exact Hop. rewrite Hops. simpl.
    unfold hasValueColumn in Htype.
    destruct (sType o); simpl; try (exfalso; tauto); apply IH; auto.
Qed.

(** X6: the shape of the attribute sub-plan.  When
    [createAttributeIterator] returns an iterator, it is a left join at
    the given level whose only required child reads the key column
    under a string-in predicate listing the names of all the
    conditions, in order, and whose optional children, at least one,
    are or-predicate iterators on the typed value columns. *)
Theorem createAttributeIterator_shape (T : collector) (conditions : list Condition)
    (level : nat) (keyPath strPath intPath floatPath boolPath : string) (it : Iter) :
  createAttributeIterator T conditions level keyPath strPath intPath floatPath boolPath
  = Ret (Some it) ->
  exists valueIters,
    it = LeftJoinIterator level
           [Column keyPath (Some (StringInPredicate (conditionNames conditions))) "key"]
           valueIters T
    /\ valueIters <> []
    /\ Forall (isValueIter strPath intPath floatPath boolPath) valueIters.
Proof.
  unfold createAttributeIterator.
  destruct (forEach attrStep conditions (mkAttrPreds [] [] [] [] [])) as [st| |] eqn:Hst;
    simpl; try discriminate.
  apply forEach_attrStep_keys in Hst. simpl in Hst. rewrite Hst.
  set (vs := if decide (0 < length (boolPreds st))%nat then _ else _).
  case_decide as Hlen; [|discriminate]. intros [= <-].
  exists vs. split; [reflexivity|]. split.
  - intros Hnil. rewrite Hnil in Hlen. simpl in Hlen. lia.
  - subst vs. unfold isValueIter, makeIter, NewOrPredicate.
    repeat case_decide; repeat (apply Forall_app; split);
      repeat constructor; eexists; eauto.
Qed.

(** X7: a comparison of a generic attribute with a duration, a status
    or nil is dropped from the plan.  If every condition handed to
    [createAttributeIterator] is such a comparison, no predicate is
    built for any value column and the function returns no iterator
    and no error. *)
Theorem createAttributeIterator_drops_untyped (T : collector)
    (conditions : list Condition) (level : nat)
    (keyPath strPath intPath floatPath boolPath : string) :
  Forall withoutValueColumn conditions ->
  createAttributeIterator T conditions level keyPath strPath intPath floatPath boolPath
  = Ret None.
Proof.
  intros Hall. unfold createAttributeIterator.
  destruct (forEach_attrStep_dropped conditions (mkAttrPreds [] [] [] [] []) Hall)
    as (st & -> & Hs & Hi & Hf & Hb); [repeat split|].
  simpl. rewrite Hs, Hi, Hf, Hb. reflexivity.
Qed.

End AttributePlan.

Lemma createAttributeIterator_shape_witness :
  exists it valueIters,
    @createAttributeIterator permissiveRegexp attributeCollector
      [mkCondition (newSpanAttr "foo") OpEqual [NewStaticString "bar"]]
      DefinitionLevelResourceSpansILSSpanAttrs columnPathSpanAttrKey columnPathSpanAttrString
      columnPathSpanAttrInt columnPathSpanAttrDouble columnPathSpanAttrBool = Ret (Some it)
    /\ it = LeftJoinIterator DefinitionLevelResourceSpansILSSpanAttrs
              [Column columnPathSpanAttrKey (Some (StringInPredicate ["foo"])) "key"]
              valueIters attributeCollector
    /\ valueIters <> []
    /\ Forall (isValueIter columnPathSpanAttrString columnPathSpanAttrInt
                 columnPathSpanAttrDouble columnPathSpanAttrBool) valueIters.
Proof.
  eexists.
  destruct (@createAttributeIterator_shape permissiveRegexp attributeCollector
              [mkCondition (newSpanAttr "foo") OpEqual [NewStaticString "bar"]]
              DefinitionLevelResourceSpansILSSpanAttrs columnPathSpanAttrKey
              columnPathSpanAttrString columnPathSpanAttrInt columnPathSpanAttrDouble
              columnPathSpanAttrBool _ eq_refl) as (valueIters & Hit & Hne & Hall).
  exists valueIters. split; [reflexivity|]. split; [exact Hit|]. split; assumption.
Defined.

Lemma createAttributeIterator_drops_untyped_witness :
  Forall withoutValueColumn [fooIsFiveSeconds]
  /\ @createAttributeIterator permissiveRegexp attributeCollector [fooIsFiveSeconds]
       DefinitionLevelResourceSpansILSSpanAttrs columnPathSpanAttrKey columnPathSpanAttrString
       columnPathSpanAttrInt columnPathSpanAttrDouble columnPathSpanAttrBool = Ret None.
Proof.
  assert (H : Forall withoutValueColumn [fooIsFiveSeconds]).
  { repeat constructor; [discriminate|].
    do 2 eexists. split; [reflexivity|]. unfold hasValueColumn. simpl.
    intros [H|[H|[H|H]]]; discriminate H. }
  split; [exact H|].
  apply (@createAttributeIterator_drops_untyped permissiveRegexp). exact H.
Defined.

(** ** The shape of the span and the resource iterators *)

Section PlanShape.
Context `{!Regexp}.

(** X8: the shape of the span iterator.  It is a left join at span
    level over the iterators [createSpanColumnIterators] builds for
    the conditions, followed in the required list by the start, end
    and id columns under the time-window filters.  Under
    [allConditions] the condition iterators are all required.
    Otherwise, under [requireAtLeastOneMatch], when there is one at
    least and no duration filter, they are all behind one required
    union.  In every other case they are all optional. *)
Theorem createSpanIterator_shape (conditions : list Condition) (start end_ : Z)
    (requireAtLeastOneMatch allConditions : bool) (it : Iter) :
  createSpanIterator conditions start end_ requireAtLeastOneMatch allConditions = Ret it ->
  exists iters durationFilters required optional,
    createSpanColumnIterators attributeCollector conditions false
    = Ret (iters, durationFilters)
    /\ it = LeftJoinIterator DefinitionLevelResourceSpansILSSpan
              (required ++ staticSpanColumns start end_) optional
              (spanCollector (minCountOf conditions requireAtLeastOneMatch allConditions)
                 durationFilters)
    /\ splitOf DefinitionLevelResourceSpansILSSpan requireAtLeastOneMatch allConditions
         (durationFilters = []) iters required optional.
Proof.
  unfold createSpanIterator, minCountOf, staticSpanColumns, splitOf.
  rewrite <- distinctNames_count.
  destruct (createSpanColumnIterators attributeCollector conditions false)
    as [[its durs]| |]; simpl; try discriminate.
  destruct (timeFilters start end_) as [startFilter endFilter]. simpl.
  destruct allConditions, requireAtLeastOneMatch; simpl.
  - repeat match goal with
           | |- context [if ?b then _ else _] => destruct b; simpl
           end;
      intros [= <-];
      exists its, durs, its, []; (split; [reflexivity|]);
      (split; [rewrite <- ?app_assoc; reflexivity|]); left; auto.
  - intros [= <-]. exists its, durs, its, []. split; [reflexivity|].
    split; [rewrite <- ?app_assoc; reflexivity|]. left. auto.
  - destruct (bool_decide (0 < length its)%nat) eqn:Hlen; simpl;
      [destruct (bool_decide (length durs = 0%nat)) eqn:Hdur; simpl|]; intros [= <-].
    + exists its, durs, [UnionIterator DefinitionLevelResourceSpansILSSpan its None], [].
      split; [reflexivity|]. split; [reflexivity|]. right. left.
      apply bool_decide_eq_true in Hlen. apply bool_decide_eq_true in Hdur.
      repeat split.
      * destruct durs; [reflexivity|discriminate].
      * intros ->. simpl in Hlen. lia.
    + exists its, durs, [], its. split; [reflexivity|]. split; [reflexivity|].
      right. right. apply bool_decide_eq_false in Hdur.
      repeat split. right. left. intros ->. apply Hdur. reflexivity.
    + exists its, durs, [], its. split; [reflexivity|]. split; [reflexivity|].
      right. right. apply bool_decide_eq_false in Hlen.
      repeat split. right. right. destruct its; [reflexivity|]. simpl in Hlen. lia.
  - intros [= <-]. exists its, durs, [], its. split; [reflexivity|].
    split; [reflexivity|]. right. right. auto.
Qed.

(** X9: the shape of the resource iterator.  It is a left join at
    batch level over the iterators [createResourceColumIterators]
    builds for the conditions, whose last required child is the span
    iterator, so a batch is only considered once spans matched in it;
    the batch collector carries the overall flag and the minimum
    count.  Under [allConditions] the condition iterators are all
    required.  Otherwise, under [requireAtLeastOneMatch], when there is
    one at least, they are all behind one required union.  In every
    other case they are all optional. *)
Theorem createResourceIterator_shape (spanIterator : Iter) (conditions : list Condition)
    (requireAtLeastOneMatch overall allConditions : bool) (it : Iter) :
  createResourceIterator spanIterator conditions requireAtLeastOneMatch overall
    allConditions = Ret it ->
  exists iters required optional,
    createResourceColumIterators attributeCollector conditions false = Ret iters
    /\ it = LeftJoinIterator DefinitionLevelResourceSpans (required ++ [spanIterator])
              optional
              (batchCollector overall
                 (minCountOf conditions requireAtLeastOneMatch allConditions))
    /\ splitOf DefinitionLevelResourceSpans requireAtLeastOneMatch allConditions
         True iters required optional.
Proof.
  unfold createResourceIterator, minCountOf, splitOf.
  rewrite <- distinctNames_count.
  destruct (createResourceColumIterators attributeCollector conditions false)
    as [its| |]; simpl; try discriminate.
  destruct allConditions, requireAtLeastOneMatch; simpl.
  - repeat match goal with
           | |- context [if ?b then _ else _] => destruct b; simpl
           end;
      intros [= <-];
      exists its, its, []; (split; [reflexivity|]);
      (split; [rewrite <- ?app_assoc; reflexivity|]); left; auto.
  - intros [= <-]. exists its, its, []. split; [reflexivity|].
    split; [reflexivity|]. left. auto.
  - destruct (bool_decide (0 < length its)%nat) eqn:Hlen; simpl; intros [= <-].
    + exists its, [UnionIterator DefinitionLevelResourceSpans its None], [].
      split; [reflexivity|]. split; [reflexivity|]. right. left.
      apply bool_decide_eq_true in Hlen. repeat split.
      intros ->. simpl in Hlen. lia.
    + exists its, [], its. split; [reflexivity|]. split; [reflexivity|].
      right. right. apply bool_decide_eq_false in Hlen.
      repeat split. right. right. destruct its; [reflexivity|]. simpl in Hlen. lia.
  - intros [= <-]. exists its, [], its. split; [reflexivity|].
    split; [reflexivity|]. right. right. auto.
Qed.

End PlanShape.

Lemma createSpanIterator_shape_witness :
  exists it iters durationFilters required optional,
    @createSpanIterator permissiveRegexp [httpMethodCondition] 1 2 true false = Ret it
    /\ @createSpanColumnIterators permissiveRegexp attributeCollector
         [httpMethodCondition] false = Ret (iters, durationFilters)
    /\ iters <> []
    /\ it = LeftJoinIterator DefinitionLevelResourceSpansILSSpan
              (required ++ staticSpanColumns 1 2) optional
              (spanCollector (minCountOf [httpMethodCondition] true false) durationFilters)
    /\ splitOf DefinitionLevelResourceSpansILSSpan true false (durationFilters = [])
         iters required optional.
Proof.
  eexists.
  destruct (@createSpanIterator_shape permissiveRegexp [httpMethodCondition] 1 2 true false
              _ eq_refl) as (iters & durs & required & optional & Hiters & Hit & Hsplit).
  exists iters, durs, required, optional. split; [reflexivity|].
  split; [exact Hiters|]. split; [|split; assumption].
  intros ->. vm_compute in Hiters. discriminate Hiters.
Defined.

Lemma createResourceIterator_shape_witness :
  exists it iters required optional,
    @createResourceIterator permissiveRegexp (Column columnPathSpanID None columnPathSpanID)
      [serviceNameCondition] true true false = Ret it
    /\ @createResourceColumIterators permissiveRegexp attributeCollector
         [serviceNameCondition] false = Ret iters
    /\ iters <> []
    /\ it = LeftJoinIterator DefinitionLevelResourceSpans
              (required ++ [Column columnPathSpanID None columnPathSpanID]) optional
              (batchCollector true (minCountOf [serviceNameCondition] true false))
    /\ splitOf DefinitionLevelResourceSpans true false True iters required optional.
Proof.
  eexists.
  destruct (@createResourceIterator_shape permissiveRegexp
              (Column columnPathSpanID None columnPathSpanID) [serviceNameCondition]
              true true false _ eq_refl) as (iters & required & optional & Hiters & Hit & Hsplit).
  exists iters, required, optional. split; [reflexivity|].
  split; [exact Hiters|]. split; [|split; assumption].
  intros ->. vm_compute in Hiters. discriminate Hiters.
Defined.

(** ** Plans of whole requests (fetch, Fetch) *)

Lemma mingled_effectiveScope (cond : Condition) :
  mingled cond -> effectiveScope cond = AttributeScopeNone.
Proof. intros [Hs Hi]. apply effectiveScope_plain; assumption. Qed.

(** X10: a query with an unscoped attribute enforces no minimum count.
    If some condition is unscoped and not an intrinsic, the plan
    [fetch] returns has, as optional children of the span-level join,
    exactly the iterators [createSpanColumnIterators] builds for the
    conditions of the span plan, and as optional children of the
    batch-level join exactly those [createResourceColumIterators]
    builds for the conditions of the resource plan; nothing but the
    static columns and the span iterator is required; the span
    collector has minimum 0 and the batch collector minimum 0 with the
    overall at-least-one filter on. *)
Theorem fetch_mingled_plan `{!Regexp} (req : FetchSpansRequest) (pf : File)
    (opts : SearchOptions) (g : genIterator) :
  fetch req pf opts = Ret g ->
  Exists mingled (Conditions req) ->
  exists spanIters durationFilters resourceIters,
    createSpanColumnIterators attributeCollector
      (filter toSpanPlan (Conditions req)) false = Ret (spanIters, durationFilters)
    /\ createResourceColumIterators attributeCollector
         (filter toResourcePlan (Conditions req)) false = Ret resourceIters
    /\ tree g = createTraceIterator
                  (LeftJoinIterator DefinitionLevelResourceSpans
                     [LeftJoinIterator DefinitionLevelResourceSpansILSSpan
                        (staticSpanColumns (StartTimeUnixNanos req) (EndTimeUnixNanos req))
                        spanIters (spanCollector 0 durationFilters)]
                     resourceIters (batchCollector true 0)).
Proof.
  intros Hfetch Hmingled. unfold fetch in Hfetch.
  destruct (categorize (Conditions req)) as [cats| |] eqn:Hcats; simpl in Hfetch;
    try discriminate.
  destruct (selectRowGroups (RowGroups pf) opts) as [rgs| |]; simpl in Hfetch;
    try discriminate.
  apply categorize_spec in Hcats as (Hs & Hr & Hm).
  apply Exists_exists in Hmingled as (c & Hin & Hc).
  pose proof (mingled_effectiveScope c Hc) as Hscope.
  assert (Hspan : spanConditions cats <> []).
  { rewrite Hs. intros Hnil.
    assert (Hc' : c ∈ filter toSpanPlan (Conditions req))
      by (apply list_elem_of_filter; split; [left; exact Hscope|exact Hin]).
    rewrite Hnil in Hc'. inversion Hc'. }
  assert (Hres : resourceConditions cats <> []).
  { rewrite Hr. intros Hnil.
    assert (Hc' : c ∈ filter toResourcePlan (Conditions req))
      by (apply list_elem_of_filter; split; [left; exact Hscope|exact Hin]).
    rewrite Hnil in Hc'. inversion Hc'. }
  assert (Hall : effectiveAllConditions req cats = false).
  { unfold effectiveAllConditions. rewrite Hm.
    replace (existsb _ (Conditions req)) with true; [apply andb_false_r|].
    symmetry. apply existsb_exists. exists c. split; [apply list_elem_of_In, Hin|].
    apply bool_decide_eq_true, Hscope. }
  rewrite Hall in Hfetch.
  assert (Hsflag : bool_decide (0 < length (spanConditions cats))%nat
                   && bool_decide (length (resourceConditions cats) = 0%nat) = false).
  { apply andb_false_iff. right. apply bool_decide_eq_false.
    destruct (resourceConditions cats); [congruence|discriminate]. }
  assert (Hbflag : bool_decide (length (spanConditions cats) = 0%nat)
                   && bool_decide (0 < length (resourceConditions cats))%nat = false).
  { apply andb_false_iff. left. apply bool_decide_eq_false.
    destruct (spanConditions cats); [congruence|discriminate]. }
  assert (Hoverall : bool_decide (0 < length (Conditions req))%nat = true).
  { apply bool_decide_eq_true. destruct (Conditions req); [inversion Hin|simpl; lia]. }
  rewrite Hsflag, Hbflag, Hoverall in Hfetch.
  destruct (createSpanIterator _ _ _ _ _) as [spanIter| |] eqn:Hspanit;
    simpl in Hfetch; try discriminate.
  destruct (createResourceIterator _ _ _ _ _) as [resIter| |] eqn:Hresit;
    simpl in Hfetch; try discriminate.
  injection Hfetch as <-. simpl.
  apply createSpanIterator_shape
    in Hspanit as (siters & durs & sreq & sopt & Hsiters & -> & Hsplit).
  apply createResourceIterator_shape
    in Hresit as (riters & rreq & ropt & Hriters & -> & Hrsplit).
  destruct Hsplit as [(? & _)|[(_ & ? & _)|(_ & _ & -> & ->)]]; try discriminate.
  destruct Hrsplit as [(? & _)|[(_ & ? & _)|(_ & _ & -> & ->)]]; try discriminate.
  exists siters, durs, riters. rewrite <- Hs, <- Hr. repeat split; assumption.
Qed.

Lemma routing_example_plan :
  exists g spanIters durationFilters resourceIters,
    @fetch permissiveRegexp routing_example twoRowGroups wholeFile = Ret g
    /\ @createSpanColumnIterators permissiveRegexp attributeCollector
         (filter toSpanPlan (Conditions routing_example)) false
       = Ret (spanIters, durationFilters)
    /\ spanIters <> []
    /\ @createResourceColumIterators permissiveRegexp attributeCollector
         (filter toResourcePlan (Conditions routing_example)) false = Ret resourceIters
    /\ resourceIters <> [].
Proof.
  do 4 eexists. split; [vm_compute; reflexivity|].
  split; [vm_compute; reflexivity|]. split; [discriminate|].
  split; [vm_compute; reflexivity|discriminate].
Qed.

Lemma fetch_mingled_plan_witness :
  exists g spanIters durationFilters resourceIters,
    @fetch permissiveRegexp routing_example twoRowGroups wholeFile = Ret g
    /\ spanIters <> [] /\ resourceIters <> []
    /\ @createSpanColumnIterators permissiveRegexp attributeCollector
         (filter toSpanPlan (Conditions routing_example)) false
       = Ret (spanIters, durationFilters)
    /\ @createResourceColumIterators permissiveRegexp attributeCollector
         (filter toResourcePlan (Conditions routing_example)) false = Ret resourceIters
    /\ tree g = createTraceIterator
                  (LeftJoinIterator DefinitionLevelResourceSpans
                     [LeftJoinIterator DefinitionLevelResourceSpansILSSpan
                        (staticSpanColumns 0 0) spanIters
                        (spanCollector 0 durationFilters)]
                     resourceIters (batchCollector true 0)).
Proof.
  destruct routing_example_plan as (g & si & ds & ri & Hg & Hsi & Hsne & Hri & Hrne).
  destruct (@fetch_mingled_plan permissiveRegexp routing_example twoRowGroups wholeFile
              g Hg) as (siters & durs & riters & Hs & Hr & Htree).
  { apply Exists_cons_hd. split; reflexivity. }
  exists g, siters, durs, riters. split; [exact Hg|].
  split; [congruence|]. split; [congruence|].
  split; [exact Hs|]. split; [exact Hr|exact Htree].
Defined.

Lemma forEach_categorize_total (conditions : list Condition) (st : categories) :
  Forall (fun c => ~ unsupportedScope c) conditions ->
  exists cats, forEach categorizeStep conditions st = Ret cats.
Proof.
  revert st. induction conditions as [|c rest IH]; intros st Hall.
  - eexists. reflexivity.
  - apply Forall_cons in Hall as [Hc Hall]. rewrite forEach_cons.
    unfold categorizeStep at 1.
    destruct (effectiveScope c) as [| | |code] eqn:Hscope; try (apply IH; exact Hall).
    exfalso. apply Hc. exists code. exact Hscope.
Qed.

Lemma forEach_categorize_unsupported (conditions : list Condition) (st : categories) :
  Exists unsupportedScope conditions ->
  forEach categorizeStep conditions st = Fail (Errorf "unsupported traceql scope").
Proof.
  revert st. induction conditions as [|c rest IH]; intros st Hex; [inversion Hex|].
  rewrite forEach_cons. unfold categorizeStep at 1.
  destruct (decide (unsupportedScope c)) as [[code Hc]|Hc].
  - rewrite Hc. reflexivity.
  - apply Exists_cons in Hex as [Hex|Hex]; [contradiction|].
    destruct (effectiveScope c) as [| | |code] eqn:Hscope; try (apply IH; exact Hex).
    exfalso. apply Hc. exists code. exact Hscope.
Qed.

(** X11: the scopes [fetch] supports.  The categorising loop succeeds
    exactly when no condition has an effective scope other than none,
    span or resource; otherwise [fetch] returns the unsupported-scope
    error, before it looks at the row groups, whatever the options. *)
Theorem fetch_unsupported_scope `{!Regexp} (req : FetchSpansRequest) (pf : File)
    (opts : SearchOptions) :
  ((exists cats, categorize (Conditions req) = Ret cats)
   <-> ~ Exists unsupportedScope (Conditions req))
  /\ (Exists unsupportedScope (Conditions req) ->
      fetch req pf opts = Fail (Errorf "unsupported traceql scope")).
Proof.
  split; [split|].
  - intros [cats Hcats] Hex.
    apply (forEach_categorize_unsupported _ (mkCategories false [] [])) in Hex.
    unfold categorize in Hcats. congruence.
  - intros Hno. apply forEach_categorize_total.
    apply Forall_forall. intros c Hin Hc. apply Hno, Exists_exists. eauto.
  - intros Hex. unfold fetch, categorize.
    rewrite forEach_categorize_unsupported by exact Hex. reflexivity.
Qed.

(** X12: validation does not check that the operator fits the operand
    type.  An order comparison of a generic span attribute with a
    string passes [checkConditions]; [Fetch] then opens the file and
    fails only while it builds the iterators, with the error of the
    string predicate wrapped at each level. *)
Theorem Fetch_string_order_fails_after_open `{!Regexp} (b : backendBlock)
    (opts : SearchOptions) (pf : File) (rgs : list RowGroup)
    (attr : Attribute) (op : Operator) (s : string) (start end_ : Z) (all : bool) :
  genericSpanAttribute attr ->
  op ∈ orderOperators ->
  openForSearch b opts = Ret pf ->
  selectRowGroups (RowGroups pf) opts = Ret rgs ->
  let req := mkFetchSpansRequest start end_ [mkCondition attr op [NewStaticString s]] all in
  checkConditions (Conditions req) = None
  /\ Fetch b req opts = (Fail stringOrderError, [OpenForSearch opts]).
Proof.
  intros (Hscope & Hintr & Hwell) Hop Hopen Hslice req.
  assert (Hvalid : checkConditions (Conditions req) = None).
  { unfold orderOperators in Hop. rewrite !elem_of_cons, elem_of_nil in Hop.
    destruct Hop as [->|[->|[->|[->|[]]]]]; reflexivity. }
  split; [exact Hvalid|].
  set (cond := mkCondition attr op [NewStaticString s]).
  assert (Hcat : categorize [cond] = Ret (mkCategories false [cond] [])).
  { unfold categorize. rewrite forEach_cons. unfold categorizeStep.
    rewrite effectiveScope_scoped by (simpl; congruence). simpl. rewrite Hscope.
    reflexivity. }
  assert (Hattr : forall T level keyPath strPath intPath floatPath boolPath,
            createAttributeIterator T [cond] level keyPath strPath intPath floatPath boolPath
            = Fail (Wrap (Errorf "operand not supported for strings")
                      "creating attribute predicate")).
  { intros. unfold orderOperators in Hop. rewrite !elem_of_cons, elem_of_nil in Hop.
    subst cond. destruct Hop as [->|[->|[->|[->|[]]]]]; reflexivity. }
  assert (Hstep : spanColumnStep cond emptyColumnState
                  = Ret (withGeneric cond emptyColumnState)).
  { unfold spanColumnStep. simpl. rewrite Hintr, Hwell. reflexivity. }
  assert (Hcols : createSpanColumnIterators attributeCollector [cond] false
                  = Fail (Wrap (Wrap (Errorf "operand not supported for strings")
                                  "creating attribute predicate")
                            "creating span attribute iterator")).
  { unfold createSpanColumnIterators. rewrite forEach_cons, Hstep.
    cbn [forEach mbind outcome_bind bind mret outcome_ret genericConditions withGeneric
         emptyColumnState app].
    rewrite Hattr. reflexivity. }
  unfold Fetch. rewrite Hvalid, Hopen. f_equal.
  unfold fetch. subst req. cbn [Conditions]. fold cond. rewrite Hcat.
  cbn [mbind outcome_bind bind]. rewrite Hslice.
  cbn [mbind outcome_bind bind spanConditions resourceConditions].
  unfold createSpanIterator. rewrite Hcols. reflexivity.
Qed.

Lemma Fetch_string_order_fails_after_open_witness :
  let req := mkFetchSpansRequest 0 0
               [mkCondition (newSpanAttr "foo") OpGreater [NewStaticString "a"]] false in
  checkConditions (Conditions req) = None
  /\ @Fetch permissiveRegexp openBlock req wholeFile
     = (Fail stringOrderError, [OpenForSearch wholeFile]).
Proof.
  apply (@Fetch_string_order_fails_after_open permissiveRegexp openBlock wholeFile
           twoRowGroups [0%nat; 1%nat] (newSpanAttr "foo") OpGreater "a" 0 0 false).
  - repeat split.
  - unfold orderOperators. apply list_elem_of_here.
  - reflexivity.
  - reflexivity.
Defined.

(** ** The row-group window, completely *)

Lemma selectRowGroups_out_of_file (rgs : list RowGroup) (opts : SearchOptions) :
  0 < TotalPages opts ->
  StartPage opts < 0 \/ Z.of_nat (length rgs) < StartPage opts ->
  MinInt64 <= StartPage opts ->
  MinInt64 <= StartPage opts + TotalPages opts <= MaxInt64 ->
  Z.of_nat (length rgs) - StartPage opts <= MaxInt64 ->
  selectRowGroups rgs opts = Panics "slice bounds out of range".
Proof.
  intros Htotal Hout Hmin Hsum Hlen. unfold selectRowGroups.
  assert (HM : MaxInt64 = 2 ^ 63 - 1) by reflexivity.
  assert (Hm : MinInt64 = - 2 ^ 63) by reflexivity.
  destruct (Z.gtb_spec (TotalPages opts) 0) as [_|]; [|lia].
  rewrite (wrap_int64_id (StartPage opts + TotalPages opts)) by (unfold is_int64; lia).
  destruct (Z.gtb_spec (StartPage opts + TotalPages opts) (Z.of_nat (length rgs)))
    as [Hclamp|Hfit].
  - rewrite (wrap_int64_id (Z.of_nat (length rgs) - StartPage opts))
      by (unfold is_int64; lia).
    replace (StartPage opts + (Z.of_nat (length rgs) - StartPage opts))
      with (Z.of_nat (length rgs)) by lia.
    rewrite wrap_int64_id by (unfold is_int64; lia).
    unfold slice.
    replace ((0 <=? StartPage opts) && (StartPage opts <=? Z.of_nat (length rgs)))
      with false; [reflexivity|].
    symmetry. apply andb_false_iff. rewrite !Z.leb_gt. lia.
  - rewrite wrap_int64_id by (unfold is_int64; lia).
    unfold slice.
    replace (0 <=? StartPage opts) with false; [reflexivity|].
    symmetry. apply Z.leb_gt. lia.
Qed.

(** X13: the row-group window, for a positive [TotalPages] and without
    integer overflow.  A non-negative [StartPage] within the file gives
    the row groups from [StartPage] on, at most [TotalPages] of them:
    as many as the file has left.  A [StartPage] beyond the file, or a
    negative one, makes the slice expression panic. *)
Theorem selectRowGroups_window (rgs : list RowGroup) (opts : SearchOptions) :
  0 < TotalPages opts ->
  MinInt64 <= StartPage opts ->
  StartPage opts + TotalPages opts <= MaxInt64 ->
  Z.of_nat (length rgs) - StartPage opts <= MaxInt64 ->
  Z.of_nat (length rgs) <= MaxInt64 ->
  if decide (0 <= StartPage opts <= Z.of_nat (length rgs)) then
    exists window,
      selectRowGroups rgs opts = Ret window
      /\ window = take (Z.to_nat (TotalPages opts)) (drop (Z.to_nat (StartPage opts)) rgs)
      /\ Z.of_nat (length window)
         = Z.min (TotalPages opts) (Z.of_nat (length rgs) - StartPage opts)
  else selectRowGroups rgs opts = Panics "slice bounds out of range".
Proof.
  intros Htotal Hmin Hsum Hdiff Hlen.
  assert (Hm : MinInt64 = - 2 ^ 63) by reflexivity.
  case_decide as Hin.
  - eexists. split; [apply selectRowGroups_in_file; assumption|].
    split; [reflexivity|]. rewrite length_take, length_drop. lia.
  - apply selectRowGroups_out_of_file; try assumption; lia.
Qed.

Lemma selectRowGroups_window_witness :
  (exists window,
     selectRowGroups [0; 1; 2; 3]%nat (mkSearchOptions 1 2) = Ret window
     /\ window = [1; 2]%nat
     /\ Z.of_nat (length window) = 2)
  /\ selectRowGroups [0; 1]%nat (mkSearchOptions (-1) 2) = Panics "slice bounds out of range".
Proof.
  split.
  - pose proof (selectRowGroups_window [0; 1; 2; 3]%nat (mkSearchOptions 1 2)) as H.
    simpl in H. apply H; unfold MinInt64, MaxInt64; lia.
  - pose proof (selectRowGroups_window [0; 1]%nat (mkSearchOptions (-1) 2)) as H.
    simpl in H. apply H; unfold MinInt64, MaxInt64; lia.
Defined.

(** ** The span collector *)

Lemma spanOtherEntries_inv (P : Attribute -> Prop) (es : list (string * Any))
    (m m' : gmap Attribute Static) :
  (forall name, P (newSpanAttr name)) ->
  (forall k, is_Some (m !! k) -> P k) ->
  spanOtherEntries m es = Ret m' -> forall k, is_Some (m' !! k) -> P k.
Proof.
  intros Hspan. revert m. induction es as [|[key any] es IH]; intros m Hm; simpl.
  - intros [= <-]. exact Hm.
  - destruct any; try discriminate. apply IH.
    intros k. rewrite lookup_insert_is_Some. intros [<-|[_ Hk]]; auto.
Qed.

Lemma spanEntries_inv (P : Attribute -> Prop) (es : list (string * Value)) (span : Span) :
  (forall name, P (newSpanAttr name)) ->
  P (NewIntrinsic IntrinsicName) -> P (NewIntrinsic IntrinsicStatus) ->
  (forall k, is_Some (Attributes span !! k) -> P k) ->
  forall k, is_Some (Attributes (foldl spanEntry span es) !! k) -> P k.
Proof.
  intros Hspan Hname Hstatus. revert span.
  induction es as [|e es IH]; intros span Hm; simpl; [exact Hm|].
  apply IH. unfold spanEntry.
  repeat case_decide; simpl; try exact Hm;
    try (intros k; rewrite lookup_insert_is_Some; intros [<-|[_ Hk]]; auto).
  destruct (Value_Kind e.2) as [[]|]; simpl; try exact Hm;
    intros k; rewrite lookup_insert_is_Some; intros [<-|[_ Hk]]; auto.
Qed.

(** X14: the duration filters only decide whether a span gets its
    duration attribute.  In a span the span collector keeps, the
    intrinsic duration is present exactly when one of the filters is
    nil or accepts the span's end minus start, and then it holds that
    duration; without filters it is never present. *)
Theorem spanCollector_duration_attribute (minAttributes : Z)
    (durationFilters : list (option (GenericPredicate Z))) (res : IteratorResult)
    (span : Span) :
  spanCollector_build minAttributes durationFilters res = Ret (Some span) ->
  Attributes span !! NewIntrinsic IntrinsicDuration
  = if existsb (durationPasses (spanDuration span)) durationFilters
    then Some (NewStaticDuration (spanDuration span))
    else None.
Proof.
  unfold spanCollector_build.
  destruct (spanOtherEntries ∅ (OtherEntries res)) as [attrs| |] eqn:Hattrs;
    simpl; try discriminate.
  set (span0 := foldl spanEntry (mkSpan "" 0 0 attrs) (Entries res)).
  assert (Hnone : Attributes span0 !! NewIntrinsic IntrinsicDuration = None).
  { destruct (Attributes span0 !! NewIntrinsic IntrinsicDuration) eqn:Hk; [|reflexivity].
    exfalso.
    apply (spanEntries_inv (fun k => k <> NewIntrinsic IntrinsicDuration)
             (Entries res) (mkSpan "" 0 0 attrs)) with (k := NewIntrinsic IntrinsicDuration);
      try discriminate; [|fold span0; eauto|reflexivity].
    simpl.
    apply (spanOtherEntries_inv (fun k => k <> NewIntrinsic IntrinsicDuration)
             (OtherEntries res) ∅ attrs); [discriminate| |exact Hattrs].
    intros k [x Hx]. rewrite lookup_empty in Hx. discriminate. }
  unfold spanDuration, durationPasses.
  destruct (decide (0 < length durationFilters)%nat) as [Hlen|Hlen].
  - destruct (existsb _ durationFilters) eqn:Hex; simpl;
      destruct ((minAttributes >? 0) && _); try discriminate; intros [= <-]; simpl;
      rewrite ?Hex, ?lookup_insert_eq; auto.
  - destruct durationFilters; [|simpl in Hlen; lia]. simpl.
    destruct ((minAttributes >? 0) && _); try discriminate; intros [= <-]. exact Hnone.
Qed.

Lemma spanCollector_duration_attribute_witness :
  exists span,
    spanCollector_build 0 [longerThan 20; longerThan 10] timedGroup = Ret (Some span)
    /\ Attributes span !! NewIntrinsic IntrinsicDuration = Some (NewStaticDuration 15).
Proof.
  eexists. split; [vm_compute; reflexivity|].
  rewrite (spanCollector_duration_attribute 0 [longerThan 20; longerThan 10] timedGroup)
    by (vm_compute; reflexivity).
  reflexivity.
Defined.

(** ** The attribute collector, and its groups in the span collector *)

Lemma attributeCollector_fold (es : list (string * Value)) (key : string) (val : Static) :
  let step := fun (kv : string * Static) (e : string * Value) =>
    let '(key, val) := kv in
    match Value_Kind e.2 with
    | None => (key, val)
    | Some _ =>
        if decide (e.1 = "key") then (Value_String e.2, val)
        else if decide (e.1 = "string") then (key, NewStaticString (Value_String e.2))
        else if decide (e.1 = "int") then (key, NewStaticInt (Value_Int64 e.2))
        else if decide (e.1 = "float") then (key, NewStaticFloat (Value_Double e.2))
        else if decide (e.1 = "bool") then (key, NewStaticBool (Value_Boolean e.2))
        else (key, val)
    end in
  (sType (foldl step (key, val) es).2 <> TypeNil
   <-> sType val <> TypeNil \/ Exists typedValueEntry es)
  /\ foldl step (key, val) es = foldl step (key, val) (filter (fun e => ~ isNull e) es).
Proof.
  intros step. revert key val. induction es as [|e es IH]; intros key val.
  - simpl. split; [|reflexivity]. rewrite Exists_nil. tauto.
  - cbn [foldl]. rewrite filter_cons.
    assert (Hstep : step (key, val) e = (key, val) /\ isNull e /\ ~ typedValueEntry e
                    \/ ~ isNull e
                       /\ ((sType (step (key, val) e).2 <> TypeNil /\ typedValueEntry e)
                           \/ ((step (key, val) e).2 = val /\ ~ typedValueEntry e))).
    { unfold step, isNull, typedValueEntry. simpl.
      destruct (Value_Kind e.2) as [k|] eqn:Hkind.
      - right. split; [discriminate|].
        rewrite !elem_of_cons, elem_of_nil.
        destruct (decide (e.1 = "key")) as [Hk|Hk].
        { right. split; [reflexivity|]. rewrite Hk. intros [_ Hin].
          intuition discriminate. }
        destruct (decide (e.1 = "string")) as [Hs|Hs].
        { left. split; [discriminate|]. split; [discriminate|auto]. }
        destruct (decide (e.1 = "int")) as [Hi|Hi].
        { left. split; [discriminate|]. split; [discriminate|auto]. }
        destruct (decide (e.1 = "float")) as [Hf|Hf].
        { left. split; [discriminate|]. split; [discriminate|auto]. }
        destruct (decide (e.1 = "bool")) as [Hb|Hb].
        { left. split; [discriminate|]. split; [discriminate|auto]. }
        right. split; [reflexivity|]. intros [_ Hin]. intuition congruence.
      - left. split; [reflexivity|]. split; [reflexivity|]. intros [Hk _]. congruence. }
    destruct (step (key, val) e) as [key' val'] eqn:Hse. rewrite Exists_cons.
    destruct (IH key' val') as [IHtype IHnull].
    destruct Hstep as [([= -> ->] & Hnull & Hnot)|(Hnonnull & Hcase)].
    + rewrite decide_False by tauto. split; [rewrite IHtype; tauto|exact IHnull].
    + rewrite decide_True by exact Hnonnull. cbn [foldl]. rewrite Hse.
      split; [|exact IHnull]. rewrite IHtype. simpl in Hcase.
      destruct Hcase as [[Hty Htyped]|[-> Hnot]]; tauto.
Qed.

(** X15: what the attribute collector emits.  It always keeps the
    group and reduces it to one key with one static value.  The value
    is of nil type exactly when the group has no non-null entry from a
    typed value column (the key matched without a value), and null
    entries never matter: the group without them gives the same result. *)
Theorem attributeCollector_KeepGroup_value (res : IteratorResult) :
  exists key val,
    attributeCollector_KeepGroup res = mkIteratorResult [] [(key, AnyStatic val)]
    /\ (sType val = TypeNil <-> ~ Exists typedValueEntry (Entries res))
    /\ attributeCollector_KeepGroup
         (mkIteratorResult (filter (fun e => ~ isNull e) (Entries res)) (OtherEntries res))
       = attributeCollector_KeepGroup res.
Proof.
  unfold attributeCollector_KeepGroup. cbn [Entries].
  destruct (attributeCollector_fold (Entries res) "" zeroStatic) as [Htype Hnull].
  cbv zeta in Htype, Hnull. rewrite <- Hnull.
  match goal with
  | |- context [let '(key, val) := ?f in _] => destruct f as [key val] eqn:Hfold
  end.
  exists key, val. split; [reflexivity|]. split; [|reflexivity].
  simpl in Htype. destruct (decide (sType val = TypeNil)) as [Hnil|Hnon].
  - split; [|auto]. intros _ Hex. apply Htype; [auto|exact Hnil].
  - split; [contradiction|]. intros Hno. exfalso.
    apply Htype in Hnon as [Hz|Hex]; [apply Hz; reflexivity|contradiction].
Qed.

Lemma spanOtherEntries_total (groups : list IteratorResult) (m : gmap Attribute Static) :
  exists m',
    spanOtherEntries m (flat_map (fun g => OtherEntries (attributeCollector_KeepGroup g))
                          groups) = Ret m'.
Proof.
  revert m. induction groups as [|g groups IH]; intros m.
  - eexists. reflexivity.
  - destruct (attributeCollector_KeepGroup_value g) as (key & val & Hg & _).
    cbn [flat_map]. rewrite Hg. simpl. apply IH.
Qed.

(** X16: the span collector panics exactly on a side-channel entry
    that is not a static, and never on the groups the attribute
    collector emits: whatever the column entries, the minimum and the
    duration filters, a group whose side-channel entries all come from
    [attributeCollector.KeepGroup] is kept or rejected. *)
Theorem spanCollector_panics_iff (minAttributes : Z)
    (durationFilters : list (option (GenericPredicate Z))) (res : IteratorResult) :
  (panics (spanCollector_build minAttributes durationFilters res)
   <-> Exists (fun e => forall s, e.2 <> AnyStatic s) (OtherEntries res))
  /\ forall groups entries,
       ~ panics (spanCollector_build minAttributes durationFilters
                   (mkIteratorResult entries
                      (flat_map (fun g => OtherEntries (attributeCollector_KeepGroup g))
                         groups))).
Proof.
  assert (Hother : forall es m,
            panics (spanOtherEntries m es)
            <-> Exists (fun e => forall s, e.2 <> AnyStatic s) es).
  { induction es as [|[key any] es IH]; intros m; simpl.
    - rewrite Exists_nil. split; [intros [msg H]; discriminate|tauto].
    - rewrite Exists_cons. simpl. destruct any as [s|sp|ss].
      + rewrite IH. split; [auto|]. intros [Hs|Hex]; [|exact Hex].
        exfalso. apply (Hs s). reflexivity.
      + split; [left; discriminate|]. intros _. eexists. reflexivity.
      + split; [left; discriminate|]. intros _. eexists. reflexivity. }
  assert (Hbuild : forall r,
            panics (spanCollector_build minAttributes durationFilters r)
            <-> panics (spanOtherEntries ∅ (OtherEntries r))).
  { intros r. unfold spanCollector_build.
    destruct (spanOtherEntries ∅ (OtherEntries r)) as [attrs| |]; simpl.
    - split; intros [msg Hp]; [|discriminate].
      repeat match type of Hp with
             | (if ?b then _ else _) = _ => destruct b
             end; discriminate.
    - split; intros [msg Hp]; discriminate.
    - split; intros _; eexists; reflexivity. }
  split.
  - rewrite Hbuild. apply Hother.
  - intros groups entries. rewrite Hbuild. cbn [OtherEntries].
    destruct (spanOtherEntries_total groups ∅) as [m' ->]. apply Ret_no_panic.
Qed.

(** ** The batch collector and the trace collector, exactly *)

Lemma batchCollector_build_exact (overall : bool) (minAttributes : Z) (res : IteratorResult) :
  batchCollector_build overall minAttributes res
  = if decide (batchSpans res = []) then None
    else if (minAttributes >? 0) && (Z.of_nat (size (batchResAttrs res)) <? minAttributes)
    then None
    else if decide (keptSpans overall res = []) then None
    else Some (emptySpanset (keptSpans overall res)).
Proof.
  unfold batchCollector_build, keptSpans, batchSpans, batchResAttrs.
  destruct (foldl batchOtherEntry (∅, []) (OtherEntries res)) as [resAttrs spans].
  cbn [fst snd].
  destruct spans as [|sp spans]; [reflexivity|].
  rewrite decide_False by discriminate. rewrite (decide_False (P := _ :: _ = [])) by discriminate.
  destruct (_ && _); [reflexivity|].
  rewrite copyResAttrs_spec, map_map.
  rewrite (map_ext _ (withResAttrs (foldl batchEntry resAttrs (Entries res))))
    by (intros span; apply removeUnmatched_spec).
  set (final := map _ (sp :: spans)).
  destruct overall.
  - destruct (filter _ final) as [|x xs] eqn:Hf.
    + rewrite !decide_True by reflexivity. reflexivity.
    + rewrite !decide_False by discriminate. reflexivity.
  - destruct final as [|x xs] eqn:Hf.
    + rewrite !decide_True by reflexivity. reflexivity.
    + rewrite !decide_False by discriminate. reflexivity.
Qed.

(** X17: when the batch collector rejects a batch, and what it returns
    otherwise.  A batch is rejected exactly when it has no span, or has
    fewer resource attributes than a positive minimum, or no span is
    left to return.  Otherwise the spanset holds, in the order of the
    batch, every span with the resource attributes merged in and nil
    entries dropped; under the overall flag, only those spans that then
    have an attribute. *)
Theorem batchCollector_rejects_or_returns (overall : bool) (minAttributes : Z)
    (res : IteratorResult) :
  (batchCollector_build overall minAttributes res = None
   <-> batchRejected overall minAttributes res)
  /\ (forall ss, batchCollector_build overall minAttributes res = Some ss ->
        ss = emptySpanset (keptSpans overall res)).
Proof.
  rewrite batchCollector_build_exact. unfold batchRejected.
  destruct (decide (batchSpans res = [])) as [Hspans|Hspans].
  { split; [tauto|discriminate]. }
  destruct (Z.gtb_spec minAttributes 0) as [Hpos|Hpos];
    destruct (Z.ltb_spec (Z.of_nat (size (batchResAttrs res))) minAttributes) as [Hlt|Hge];
    simpl;
    try (destruct (decide (keptSpans overall res = [])) as [Hkept|Hkept]);
    (split; [split; [try discriminate; tauto|try tauto; intros [?|[[? ?]|?]]; try lia; tauto]
            |try discriminate; intros ss [= <-]; reflexivity]).
Qed.

Lemma withResAttrs_identity (resAttrs : gmap Attribute Static) (span : Span) :
  spanIdentity (withResAttrs resAttrs span) = spanIdentity span.
Proof. reflexivity. Qed.

(** X18: what the batch collector guarantees about the spans it
    returns.  Their ids and times are those of spans of the batch, in
    the same order; under the overall flag each has at least one
    attribute; without it no span of the batch is left out. *)
Theorem batchCollector_returned_spans (overall : bool) (minAttributes : Z)
    (res : IteratorResult) (ss : Spanset) :
  batchCollector_build overall minAttributes res = Some ss ->
  map spanIdentity (Spans ss) `sublist_of` map spanIdentity (batchSpans res)
  /\ (overall = true -> Forall (fun span => Attributes span <> ∅) (Spans ss))
  /\ (overall = false -> map spanIdentity (Spans ss) = map spanIdentity (batchSpans res)).
Proof.
  intros Hkept.
  apply (proj2 (batchCollector_rejects_or_returns overall minAttributes res)) in Hkept.
  subst ss. cbn [Spans emptySpanset]. unfold keptSpans.
  assert (Hid : map spanIdentity (map (withResAttrs (batchResAttrs res)) (batchSpans res))
                = map spanIdentity (batchSpans res)).
  { rewrite map_map. apply map_ext. intros span. apply withResAttrs_identity. }
  destruct overall.
  - split; [|split; [intros _|discriminate]].
    + rewrite <- Hid. apply (fmap_sublist spanIdentity), sublist_filter.
    + apply Forall_forall. intros span [Hsize _]%list_elem_of_filter.
      intros Hempty. rewrite Hempty, map_size_empty in Hsize. lia.
  - split; [rewrite Hid; reflexivity|]. split; [discriminate|intros _; exact Hid].
Qed.

Lemma batchCollector_returned_spans_witness :
  exists ss,
    batchCollector_build true 0 cartBatch = Some ss
    /\ map spanIdentity (Spans ss) `sublist_of` map spanIdentity (batchSpans cartBatch)
    /\ (true = true -> Forall (fun span => Attributes span <> ∅) (Spans ss))
    /\ (true = false -> map spanIdentity (Spans ss) = map spanIdentity (batchSpans cartBatch)).
Proof.
  eexists. split; [vm_compute; reflexivity|].
  apply (batchCollector_returned_spans true 0 cartBatch). vm_compute. reflexivity.
Defined.

Lemma traceOtherEntries_fold (es : list (string * Any)) (ss0 : Spanset) :
  let ss := foldl traceOtherEntry ss0 es in
  Spans ss = Spans ss0 ++ spansetSpans es
  /\ TraceID ss = TraceID ss0 /\ RootSpanName ss = RootSpanName ss0
  /\ RootServiceName ss = RootServiceName ss0
  /\ ssStartTimeUnixNanos ss = ssStartTimeUnixNanos ss0
  /\ DurationNanos ss = DurationNanos ss0.
Proof.
  revert ss0. induction es as [|[key any] es IH]; intros ss0; simpl.
  - rewrite app_nil_r. repeat split.
  - destruct (IH (traceOtherEntry ss0 (key, any))) as (H1 & H2 & H3 & H4 & H5 & H6).
    rewrite H1, H2, H3, H4, H5, H6. unfold traceOtherEntry, spansetSpans. simpl.
    destruct any; simpl; rewrite <- ?app_assoc; repeat split.
Qed.

(** X19: the trace collector flattens the batches of a trace.  The
    spans of the final spanset are the spans of the batch spansets of
    the group, concatenated in order; the trace-level fields are read
    from the column entries alone. *)
Theorem traceCollector_flattens (res : IteratorResult) :
  traceCollector_KeepGroup res
  = mkIteratorResult [] [("spanset", AnySpanset (traceCollector_build res))]
  /\ Spans (traceCollector_build res) = spansetSpans (OtherEntries res)
  /\ forall others,
       let ss := traceCollector_build res in
       let ss' := traceCollector_build (mkIteratorResult (Entries res) others) in
       (TraceID ss', RootSpanName ss', RootServiceName ss', ssStartTimeUnixNanos ss',
        DurationNanos ss')
       = (TraceID ss, RootSpanName ss, RootServiceName ss, ssStartTimeUnixNanos ss,
          DurationNanos ss).
Proof.
  split; [reflexivity|]. unfold traceCollector_build. split.
  - destruct (traceOtherEntries_fold (OtherEntries res)
                (foldl traceEntry (emptySpanset []) (Entries res))) as (H1 & _).
    rewrite H1, traceEntries_spans. reflexivity.
  - intros others. cbn [Entries OtherEntries].
    destruct (traceOtherEntries_fold (OtherEntries res)
                (foldl traceEntry (emptySpanset []) (Entries res)))
      as (_ & H2 & H3 & H4 & H5 & H6).
    destruct (traceOtherEntries_fold others
                (foldl traceEntry (emptySpanset []) (Entries res)))
      as (_ & G2 & G3 & G4 & G5 & G6).
    cbv zeta in *. rewrite H2, H3, H4, H5, H6, G2, G3, G4, G5, G6. reflexivity.
Qed.

(** ** Merging sub-iterators that end *)

Lemma pending_at (ls : list (list Spanset)) (i : mergeSpansetIterator)
    (l : list Spanset) (it : subIterator) :
  ls !! cur i = Some l -> mIters i !! cur i = Some it ->
  pending ls i
  = drop (calls it) l
    ++ concat (zip_with (fun l it => drop (calls it) l)
                 (drop (S (cur i)) ls) (drop (S (cur i)) (mIters i))).
Proof.
  intros Hl Hit. unfold pending.
  rewrite (drop_S _ _ _ Hl), (drop_S _ _ _ Hit). reflexivity.
Qed.

Lemma backedBy_insert (ls : list (list Spanset)) (i : mergeSpansetIterator)
    (it : subIterator) (n : nat) :
  backedBy ls i -> mIters i !! cur i = Some it ->
  backedBy ls (mkMergeSpansetIterator (<[cur i := advance it]> (mIters i)) n).
Proof.
  unfold backedBy. simpl. intros Hb Hit.
  destruct (Forall2_lookup_r _ _ _ _ _ Hb Hit) as (l & Hl & Hscript).
  rewrite <- (list_insert_id ls (cur i) l Hl).
  apply Forall2_insert; [exact Hb|exact Hscript].
Qed.

Lemma Next_pending (ls : list (list Spanset)) (i : mergeSpansetIterator) :
  backedBy ls i ->
  (Next i).1 = (head (pending ls i), None)
  /\ backedBy ls (Next i).2
  /\ pending ls (Next i).2 = tail (pending ls i).
Proof.
  apply (Next_cases (fun i r => backedBy ls i ->
           r.1 = (head (pending ls i), None)
           /\ backedBy ls r.2 /\ pending ls r.2 = tail (pending ls i))).
  - intros j Hle Hb. simpl. unfold pending.
    rewrite (drop_ge (mIters j)) by exact Hle.
    destruct (drop (cur j) ls); simpl; auto.
  - intros j it sp e Hit Hscript Hb.
    destruct (Forall2_lookup_r _ _ _ _ _ Hb Hit) as (l & Hl & Hs).
    rewrite Hs in Hscript. discriminate.
  - intros j it sp Hit Hscript Hb.
    destruct (Forall2_lookup_r _ _ _ _ _ Hb Hit) as (l & Hl & Hs).
    rewrite Hs in Hscript. injection Hscript as Hsp.
    pose proof (lookup_lt_Some _ _ _ Hit) as Hlt.
    rewrite (pending_at ls j l it Hl Hit), (drop_S _ _ _ Hsp). simpl.
    split; [reflexivity|]. split; [apply backedBy_insert; assumption|].
    rewrite (pending_at ls (afterRead j it) l (advance it)); simpl;
      [|exact Hl|apply list_lookup_insert_eq; exact Hlt].
    rewrite drop_insert_lt by lia. reflexivity.
  - intros j it Hit Hscript IH Hb.
    destruct (Forall2_lookup_r _ _ _ _ _ Hb Hit) as (l & Hl & Hs).
    rewrite Hs in Hscript. injection Hscript as Hnone.
    assert (Hsame : pending ls (afterSkip j it) = pending ls j).
    { rewrite (pending_at ls j l it Hl Hit).
      rewrite (drop_ge l) by (apply lookup_ge_None; exact Hnone).
      unfold pending, afterSkip. simpl. rewrite drop_insert_lt by lia. reflexivity. }
    rewrite <- Hsame. apply IH. apply backedBy_insert; assumption.
Qed.

Lemma afterCalls_pending (ls : list (list Spanset)) (n : nat) (i : mergeSpansetIterator) :
  backedBy ls i -> (Next (afterCalls n i)).1 = (pending ls i !! n, None).
Proof.
  revert i. induction n as [|n IH]; intros i Hb.
  - simpl. destruct (Next_pending ls i Hb) as (H1 & _). rewrite H1.
    destruct (pending ls i); reflexivity.
  - simpl. destruct (Next_pending ls i Hb) as (_ & H2 & H3).
    rewrite (IH _ H2), H3. destruct (pending ls i); reflexivity.
Qed.

Lemma mergeOf_pending (ls : list (list Spanset)) :
  backedBy ls (mergeOf ls) /\ pending ls (mergeOf ls) = concat ls.
Proof.
  unfold backedBy, pending, mergeOf. simpl. split.
  - induction ls; simpl; constructor; auto.
  - f_equal. rewrite ?drop_0. induction ls as [|l ls IH]; simpl; [reflexivity|].
    f_equal. exact IH.
Qed.

(** X20: merging sub-iterators that end yields their concatenation.
    If the sub-iterators yield the spansets of the lists [ls], each
    followed by nil, the calls of [Next] return, one after the other
    and without error, the spansets of the lists put end to end, and
    nil from then on. *)
Theorem merge_concatenates (ls : list (list Spanset)) (n : nat) :
  (Next (afterCalls n (mergeOf ls))).1 = (concat ls !! n, None).
Proof.
  destruct (mergeOf_pending ls) as [Hb Hp].
  rewrite (afterCalls_pending ls n _ Hb), Hp. reflexivity.
Qed.

(** ** SLO accounting: the counters and the histogram *)

Lemma counterValue_Inc_ne (t tenant : string) (c : gmap string nat) :
  t <> tenant -> counterValue t (Inc tenant c) = counterValue t c.
Proof. intros Hne. unfold counterValue, Inc. rewrite lookup_insert_ne by congruence. reflexivity. Qed.

Lemma sloHook_all (cfg : SLOConfig) (resp : option Response) (tenant : string)
    (bytesProcessed latency : Z) (err : option error) (m : metrics) :
  allByTenantCounter (sloHook cfg resp tenant bytesProcessed latency err m)
  = Inc tenant (allByTenantCounter m).
Proof.
  unfold sloHook. destruct err as [e|]; simpl.
  - destruct (_ || _); reflexivity.
  - destruct (match resp with Some r => StatusCode r >=? 500 | None => false end);
      [reflexivity|].
    destruct (f64_ltb f64_zero (ThroughputBytesSLO cfg)); simpl;
      repeat match goal with
             | |- context [if ?b then _ else _] => destruct b; simpl
             end; reflexivity.
Qed.

(** X21: every call counts the query once.  The counter of all queries
    of the tenant goes up by exactly one, whatever the response or the
    error; the within-SLO counter of the tenant goes up by at most one;
    the counters of every other tenant keep their values. *)
Theorem sloHook_counts_every_query (cfg : SLOConfig) (resp : option Response)
    (tenant : string) (bytesProcessed latency : Z) (err : option error) (m : metrics) :
  let m' := sloHook cfg resp tenant bytesProcessed latency err m in
  counterValue tenant (allByTenantCounter m')
  = S (counterValue tenant (allByTenantCounter m))
  /\ (counterValue tenant (withinSLOByTenantCounter m)
      <= counterValue tenant (withinSLOByTenantCounter m')
      <= S (counterValue tenant (withinSLOByTenantCounter m)))%nat
  /\ forall t, t <> tenant ->
       counterValue t (allByTenantCounter m') = counterValue t (allByTenantCounter m)
       /\ counterValue t (withinSLOByTenantCounter m')
          = counterValue t (withinSLOByTenantCounter m).
Proof.
  intros m'. subst m'. rewrite sloHook_all, sloHook_cases. cbv zeta.
  split; [apply counterValue_Inc|]. split.
  - match goal with |- context [if ?b then _ else _] => destruct b end;
      rewrite ?counterValue_Inc; lia.
  - intros t Hne. split; [apply counterValue_Inc_ne, Hne|].
    match goal with |- context [if ?b then _ else _] => destruct b end;
      rewrite ?counterValue_Inc_ne by exact Hne; reflexivity.
Qed.

(** X22: the handler keeps the within-SLO counter of each tenant at or
    below its counter of all queries. *)
Theorem sloHook_within_le_all (cfg : SLOConfig) (resp : option Response)
    (tenant : string) (bytesProcessed latency : Z) (err : option error) (m : metrics)
    (Hinv : forall t, (counterValue t (withinSLOByTenantCounter m)
                       <= counterValue t (allByTenantCounter m))%nat) :
  let m' := sloHook cfg resp tenant bytesProcessed latency err m in
  forall t, (counterValue t (withinSLOByTenantCounter m')
             <= counterValue t (allByTenantCounter m'))%nat.
Proof.
  intros m' t. subst m'. rewrite sloHook_all, sloHook_cases. cbv zeta.
  specialize (Hinv t).
  destruct (decide (t = tenant)) as [->|Hne].
  - match goal with |- context [if ?b then _ else _] => destruct b end;
      rewrite ?counterValue_Inc; lia.
  - match goal with |- context [if ?b then _ else _] => destruct b end;
      rewrite ?counterValue_Inc_ne by exact Hne; lia.
Qed.

Lemma sloHook_within_le_all_witness :
  (counterValue "t1" (withinSLOByTenantCounter
                        (sloHook (mkSLOConfig 0 f64_zero) None "t1" 0 0 None
                           (mkMetrics ∅ ∅ [])))
   <= counterValue "t1" (allByTenantCounter
                           (sloHook (mkSLOConfig 0 f64_zero) None "t1" 0 0 None
                              (mkMetrics ∅ ∅ []))))%nat.
Proof.
  apply (sloHook_within_le_all (mkSLOConfig 0 f64_zero) None "t1" 0 0 None
           (mkMetrics ∅ ∅ [])).
  intros t. unfold counterValue. simpl. rewrite lookup_empty. simpl. lia.
Defined.

Lemma sloHook_histogram (cfg : SLOConfig) (resp : option Response)
    (tenant : string) (bytesProcessed latency : Z) (err : option error) (m : metrics) :
  searchThroughput (sloHook cfg resp tenant bytesProcessed latency err m)
  = match err, resp with
    | Some _, _ => searchThroughput m
    | None, Some r =>
        if (StatusCode r <? 500) && f64_ltb f64_zero (ThroughputBytesSLO cfg)
        then searchThroughput m ++ [(tenant, throughputOf bytesProcessed latency)]
        else searchThroughput m
    | None, None =>
        if f64_ltb f64_zero (ThroughputBytesSLO cfg)
        then searchThroughput m ++ [(tenant, throughputOf bytesProcessed latency)]
        else searchThroughput m
    end.
Proof.
  unfold sloHook. destruct err as [e|]; simpl.
  - destruct (_ || _); reflexivity.
  - destruct resp as [r|].
    + rewrite Z.geb_leb. destruct (Z.leb_spec 500 (StatusCode r)), (Z.ltb_spec (StatusCode r) 500);
        try lia; simpl; [reflexivity|].
      destruct (f64_ltb f64_zero (ThroughputBytesSLO cfg)); simpl;
        repeat match goal with
               | |- context [if ?b then _ else _] => destruct b; simpl
               end; reflexivity.
    + destruct (f64_ltb f64_zero (ThroughputBytesSLO cfg)); simpl;
        repeat match goal with
               | |- context [if ?b then _ else _] => destruct b; simpl
               end; reflexivity.
Qed.

(** X23: the throughput histogram gets one observation, the throughput
    of the query under the tenant, exactly when the query has no
    error, the response is no server error and the throughput bound is
    configured; the duration bound and the verdict play no part. *)
Theorem sloHook_throughput_observed (cfg : SLOConfig) (resp : option Response)
    (tenant : string) (bytesProcessed latency : Z) (err : option error) (m : metrics) :
  let m' := sloHook cfg resp tenant bytesProcessed latency err m in
  let observed :=
    err = None /\ ~ serverError resp
    /\ f64_ltb f64_zero (ThroughputBytesSLO cfg) = true in
  (observed ->
   searchThroughput m'
   = searchThroughput m ++ [(tenant, throughputOf bytesProcessed latency)])
  /\ (~ observed -> searchThroughput m' = searchThroughput m).
Proof.
  cbv zeta. rewrite sloHook_histogram. unfold serverError.
  destruct err as [e|]; [split; [intros [? _]; discriminate|reflexivity]|].
  destruct resp as [r|].
  - destruct (Z.ltb_spec (StatusCode r) 500) as [Hlt|Hge]; simpl.
    + destruct (f64_ltb f64_zero (ThroughputBytesSLO cfg)).
      * split; [reflexivity|]. intros Hn. exfalso. apply Hn.
        split; [reflexivity|]. split; [lia|reflexivity].
      * split; [intros (_ & _ & ?); discriminate|reflexivity].
    + split; [intros (_ & Hno & _); contradiction|reflexivity].
  - destruct (f64_ltb f64_zero (ThroughputBytesSLO cfg)).
    + split; [reflexivity|]. intros Hn. exfalso. apply Hn.
      split; [reflexivity|]. split; [tauto|reflexivity].
    + split; [intros (_ & _ & ?); discriminate|reflexivity].
Qed.

(** ** The block meta (ObjectAdded, hashColumns) *)

Import backend metaprops.

Lemma ascii_compare_trans (a b c : Ascii.ascii) (o : comparison) :
  Ascii.compare a b = o -> Ascii.compare b c = o -> Ascii.compare a c = o.
Proof.
  unfold Ascii.compare. destruct o; intros H1 H2.
  - apply N.compare_eq_iff in H1, H2. apply N.compare_eq_iff. congruence.
  - rewrite N.compare_lt_iff in *. lia.
  - rewrite N.compare_gt_iff in *. lia.
Qed.

Lemma string_compare_refl (s : string) : String.compare s s = Eq.
Proof.
  induction s as [|a s IH]; simpl; [reflexivity|].
  unfold Ascii.compare. rewrite N.compare_refl. exact IH.
Qed.

Lemma string_compare_lt_trans (s1 s2 s3 : string) :
  String.compare s1 s2 = Lt -> String.compare s2 s3 = Lt -> String.compare s1 s3 = Lt.
Proof.
  revert s2 s3. induction s1 as [|a s1 IH]; intros [|b s2] [|c s3]; simpl;
    try discriminate; try reflexivity.
  destruct (Ascii.compare a b) eqn:Hab; try discriminate;
    destruct (Ascii.compare b c) eqn:Hbc; try discriminate; intros H1 H2.
  - apply Ascii.compare_eq_iff in Hab, Hbc. subst.
    unfold Ascii.compare. rewrite N.compare_refl. eauto.
  - apply Ascii.compare_eq_iff in Hab. subst. rewrite Hbc. reflexivity.
  - apply Ascii.compare_eq_iff in Hbc. subst. rewrite Hab. reflexivity.
  - rewrite (ascii_compare_trans a b c Lt); auto.
Qed.

Lemma bytes_Compare_cases (a b : string) :
  (bytes_Compare a b = -1 /\ String.compare a b = Lt)
  \/ (bytes_Compare a b = 0 /\ a = b)
  \/ (bytes_Compare a b = 1 /\ String.compare b a = Lt).
Proof.
  unfold bytes_Compare. destruct (String.compare a b) eqn:Hc.
  - right. left. split; [reflexivity|]. apply String.compare_eq_iff, Hc.
  - left. auto.
  - right. right. split; [reflexivity|]. rewrite String.compare_antisym, Hc. reflexivity.
Qed.

Lemma bytes_Compare_le_trans (a b c : string) :
  bytes_Compare a b <= 0 -> bytes_Compare b c <= 0 -> bytes_Compare a c <= 0.
Proof.
  intros H1 H2.
  destruct (bytes_Compare_cases a b) as [[E1 L1]|[[E1 ->]|[E1 L1]]]; try lia;
    destruct (bytes_Compare_cases b c) as [[E2 L2]|[[E2 ->]|[E2 L2]]]; try lia.
  unfold bytes_Compare. rewrite (string_compare_lt_trans a b c L1 L2). lia.
Qed.

Lemma bytes_Compare_refl (a : string) : bytes_Compare a a = 0.
Proof. unfold bytes_Compare. rewrite string_compare_refl. reflexivity. Qed.

Lemma bytes_Compare_flip (a b : string) :
  bytes_Compare a b = 1 -> bytes_Compare b a <= 0.
Proof.
  intros H. destruct (bytes_Compare_cases a b) as [[E1 L1]|[[E1 ->]|[E1 L1]]]; try lia.
  unfold bytes_Compare. rewrite L1. lia.
Qed.

Lemma bytes_Compare_flip' (a b : string) :
  bytes_Compare a b = -1 -> bytes_Compare b a = 1.
Proof.
  unfold bytes_Compare. rewrite (String.compare_antisym a b).
  destruct (String.compare b a); simpl; intros; congruence.
Qed.

Lemma bytes_Compare_range (a b : string) :
  bytes_Compare a b = -1 \/ bytes_Compare a b = 0 \/ bytes_Compare a b = 1.
Proof. unfold bytes_Compare. destruct (String.compare a b); auto. Qed.

Lemma len_zero (s : string) : (len s =? 0) = true <-> s = EmptyString.
Proof.
  unfold len. destruct s; simpl; split; intros; try reflexivity; try discriminate.
Qed.

Lemma addObjects_snoc (b : BlockMeta) (objs : list Object) (o : Object) :
  addObjects b (objs ++ [o])
  = ObjectAdded (addObjects b objs) (objID o) (objStart o) (objEnd o).
Proof. unfold addObjects. rewrite fold_left_app. reflexivity. Qed.

Lemma MinID_ObjectAdded (b : BlockMeta) (id : string) (s e : Z) :
  MinID (ObjectAdded b id s e)
  = if (len (MinID b) =? 0) || (bytes_Compare id (MinID b) =? -1) then id else MinID b.
Proof. reflexivity. Qed.

Lemma MaxID_ObjectAdded (b : BlockMeta) (id : string) (s e : Z) :
  MaxID (ObjectAdded b id s e)
  = if (len (MaxID b) =? 0) || (bytes_Compare id (MaxID b) =? 1) then id else MaxID b.
Proof. reflexivity. Qed.

Lemma idBounds_first (b : BlockMeta) (o : Object) :
  MinID b = EmptyString -> MaxID b = EmptyString ->
  idBounds (ObjectAdded b (objID o) (objStart o) (objEnd o)) [o].
Proof.
  intros Hmin Hmax. unfold idBounds.
  rewrite MinID_ObjectAdded, MaxID_ObjectAdded, Hmin, Hmax. simpl.
  split; [|split].
  - exists o. split; [apply list_elem_of_singleton|]; reflexivity.
  - exists o. split; [apply list_elem_of_singleton|]; reflexivity.
  - intros o' ->%list_elem_of_singleton. rewrite bytes_Compare_refl. lia.
Qed.

Lemma idBounds_step (b : BlockMeta) (objs : list Object) (o : Object) :
  MinID b <> EmptyString -> MaxID b <> EmptyString ->
  idBounds b objs ->
  idBounds (ObjectAdded b (objID o) (objStart o) (objEnd o)) (objs ++ [o]).
Proof.
  intros Hmin Hmax (Hlo & Hhi & Hall). unfold idBounds.
  rewrite MinID_ObjectAdded, MaxID_ObjectAdded.
  destruct (len (MinID b) =? 0) eqn:E1; [apply len_zero in E1; contradiction|].
  destruct (len (MaxID b) =? 0) eqn:E2; [apply len_zero in E2; contradiction|].
  simpl. clear E1 E2.
  split; [|split].
  - destruct (Z.eqb_spec (bytes_Compare (objID o) (MinID b)) (-1)).
    + exists o. split; [|reflexivity]. apply elem_of_app. right. apply list_elem_of_singleton. reflexivity.
    + destruct Hlo as (o' & Hin & Heq). exists o'. split; [|exact Heq].
      apply elem_of_app. left. exact Hin.
  - destruct (Z.eqb_spec (bytes_Compare (objID o) (MaxID b)) 1).
    + exists o. split; [|reflexivity]. apply elem_of_app. right. apply list_elem_of_singleton. reflexivity.
    + destruct Hhi as (o' & Hin & Heq). exists o'. split; [|exact Heq].
      apply elem_of_app. left. exact Hin.
  - intros o' [Hin| ->%list_elem_of_singleton]%elem_of_app.
    + destruct (Hall o' Hin) as [Hl Hh]. split.
      * destruct (Z.eqb_spec (bytes_Compare (objID o) (MinID b)) (-1)); [|exact Hl].
        apply (bytes_Compare_le_trans _ (MinID b)); [lia|exact Hl].
      * destruct (Z.eqb_spec (bytes_Compare (objID o) (MaxID b)) 1) as [E|E]; [|exact Hh].
        apply (bytes_Compare_le_trans _ (MaxID b)); [exact Hh|].
        apply bytes_Compare_flip, E.
    + split.
      * destruct (Z.eqb_spec (bytes_Compare (objID o) (MinID b)) (-1)) as [E|E].
        -- rewrite bytes_Compare_refl. lia.
        -- destruct (bytes_Compare_cases (objID o) (MinID b)) as [[E1 L1]|[[E1 Heq]|[E1 L1]]];
             [contradiction| |].
           ++ rewrite Heq, bytes_Compare_refl. lia.
           ++ apply bytes_Compare_flip, E1.
      * destruct (Z.eqb_spec (bytes_Compare (objID o) (MaxID b)) 1) as [E|E].
        -- rewrite bytes_Compare_refl. lia.
        -- destruct (bytes_Compare_range (objID o) (MaxID b)) as [H|[H|H]]; lia.
Qed.

Lemma idBounds_nonempty (b : BlockMeta) (objs : list Object) :
  Forall (fun o => objID o <> EmptyString) objs ->
  idBounds b objs -> MinID b <> EmptyString /\ MaxID b <> EmptyString.
Proof.
  intros Hne ((o1 & Hin1 & E1) & (o2 & Hin2 & E2) & _).
  rewrite Forall_forall in Hne. rewrite E1, E2. split; apply Hne; assumption.
Qed.

(** X24: the smallest and the largest id.  After objects with
    non-empty ids are added to a meta without ids, [MinID] and [MaxID]
    are ids of added objects, and in the order of [bytes.Compare] no
    added id is below [MinID] or above [MaxID]. *)
Theorem ObjectAdded_id_bounds (b : BlockMeta) (objs : list Object)
    (Hfresh : fresh b) (Hsome : objs <> [])
    (Hids : Forall (fun o => objID o <> EmptyString) objs) :
  idBounds (addObjects b objs) objs.
Proof.
  destruct Hfresh as (Hmin & Hmax & _). revert Hsome Hids.
  induction objs as [|o objs IH] using rev_ind; [congruence|].
  intros _ Hne. apply Forall_app in Hne as [Hne Ho].
  rewrite addObjects_snoc. destruct objs as [|o' objs'].
  - apply idBounds_first; assumption.
  - assert (Hb : idBounds (addObjects b (o' :: objs')) (o' :: objs'))
      by (apply IH; [discriminate|exact Hne]).
    destruct (idBounds_nonempty _ _ Hne Hb).
    apply idBounds_step; assumption.
Qed.

Lemma ObjectAdded_id_bounds_witness :
  idBounds (addObjects sampleMeta sampleObjects) sampleObjects.
Proof.
  apply (ObjectAdded_id_bounds sampleMeta sampleObjects).
  - repeat split.
  - discriminate.
  - repeat constructor; discriminate.
Defined.

Lemma ObjectAdded_empty_id (b : BlockMeta) (s e : Z) :
  MinID (ObjectAdded b EmptyString s e) = EmptyString.
Proof.
  change (MinID (ObjectAdded b EmptyString s e))
    with (if (len (MinID b) =? 0) || (bytes_Compare EmptyString (MinID b) =? -1)
          then EmptyString else MinID b).
  destruct (MinID b) as [|a m]; reflexivity.
Qed.

(** X25: an empty id makes the meta forget its smallest id.  Adding an
    object with an empty id leaves [MinID] empty, and the id of the
    object added next becomes [MinID] whatever was added before. *)
Theorem ObjectAdded_empty_id_forgets (b : BlockMeta) (id : string) (s e s' e' : Z) :
  MinID (ObjectAdded b EmptyString s e) = EmptyString
  /\ MinID (ObjectAdded (ObjectAdded b EmptyString s e) id s' e') = id.
Proof.
  split; [apply ObjectAdded_empty_id|].
  change (MinID (ObjectAdded ?b0 id s' e'))
    with (if (len (MinID b0) =? 0) || (bytes_Compare id (MinID b0) =? -1)
          then id else MinID b0).
  rewrite ObjectAdded_empty_id. reflexivity.
Qed.

Lemma time_Unix_uint32 (s : Z) :
  is_uint32 s -> time_Unix s = mkTime (s + unixToInternal) 0.
Proof.
  unfold is_uint32, time_Unix, unixToInternal. intros Hs.
  rewrite wrap_int64_id; [reflexivity|]. unfold is_int64, MinInt64, MaxInt64. lia.
Qed.

Lemma StartTime_ObjectAdded (b : BlockMeta) (id : string) (s e : Z) :
  StartTime (ObjectAdded b id s e)
  = if s >? 0 then
      if IsZero (StartTime b) || Before (time_Unix s) (StartTime b) then time_Unix s
      else StartTime b
    else StartTime b.
Proof. reflexivity. Qed.

Lemma EndTime_ObjectAdded (b : BlockMeta) (id : string) (s e : Z) :
  EndTime (ObjectAdded b id s e)
  = if e >? 0 then
      if IsZero (EndTime b) || After (time_Unix e) (EndTime b) then time_Unix e
      else EndTime b
    else EndTime b.
Proof. reflexivity. Qed.

Lemma startBounds_step (b : BlockMeta) (objs : list Object) (o : Object) :
  Forall timesInRange objs -> timesInRange o ->
  startBounds b objs ->
  startBounds (ObjectAdded b (objID o) (objStart o) (objEnd o)) (objs ++ [o]).
Proof.
  intros Hr [Ho _] Hb. rewrite Forall_forall in Hr. unfold startBounds.
  rewrite StartTime_ObjectAdded.
  destruct (Z.gtb_spec (objStart o) 0) as [Hpos|Hzero].
  - right. destruct Hb as [[Hz Hall]|(o0 & Hin & Hpos0 & Ht & Hmin)].
    + rewrite Hz. simpl. exists o. split; [apply elem_of_app; right; apply list_elem_of_singleton; reflexivity|].
      split; [lia|]. split; [first [reflexivity | symmetry; apply time_Unix_uint32; assumption]|].
      intros o' [Hin'| ->%list_elem_of_singleton]%elem_of_app Hpos'; [|lia].
      specialize (Hall o' Hin'). lia.
    + destruct (Hr o0 Hin) as [Hr0 _].
      rewrite Ht, (time_Unix_uint32 _ Ho), (time_Unix_uint32 _ Hr0).
      unfold IsZero, Before, unixToInternal; simpl.
      destruct (Z.eqb_spec (objStart o0 + 62135596800) 0) as [E|_]; [unfold is_uint32 in Hr0; lia|].
      rewrite Z.ltb_irrefl, andb_false_r, orb_false_r. simpl.
      destruct (Z.ltb_spec (objStart o + 62135596800) (objStart o0 + 62135596800)) as [Hlt|Hge].
      * exists o. split; [apply elem_of_app; right; apply list_elem_of_singleton; reflexivity|].
        split; [lia|]. split; [first [reflexivity | symmetry; apply time_Unix_uint32; assumption]|].
        intros o' [Hin'| ->%list_elem_of_singleton]%elem_of_app Hpos'; [|lia].
        specialize (Hmin o' Hin' Hpos'). lia.
      * exists o0. split; [apply elem_of_app; left; exact Hin|].
        split; [lia|]. split; [first [reflexivity | symmetry; apply time_Unix_uint32; assumption]|].
        intros o' [Hin'| ->%list_elem_of_singleton]%elem_of_app Hpos'; [|lia].
        apply Hmin; assumption.
  - assert (objStart o = 0) by (unfold is_uint32 in Ho; lia).
    destruct Hb as [[Hz Hall]|(o0 & Hin & Hpos0 & Ht & Hmin)].
    + left. split; [exact Hz|].
      intros o' [Hin'| ->%list_elem_of_singleton]%elem_of_app; auto.
    + right. exists o0. split; [apply elem_of_app; left; exact Hin|].
      split; [lia|]. split; [exact Ht|].
      intros o' [Hin'| ->%list_elem_of_singleton]%elem_of_app Hpos'; [|lia].
      apply Hmin; assumption.
Qed.

Lemma endBounds_step (b : BlockMeta) (objs : list Object) (o : Object) :
  Forall timesInRange objs -> timesInRange o ->
  endBounds b objs ->
  endBounds (ObjectAdded b (objID o) (objStart o) (objEnd o)) (objs ++ [o]).
Proof.
  intros Hr [_ Ho] Hb. rewrite Forall_forall in Hr. unfold endBounds.
  rewrite EndTime_ObjectAdded.
  destruct (Z.gtb_spec (objEnd o) 0) as [Hpos|Hzero].
  - right. destruct Hb as [[Hz Hall]|(o0 & Hin & Hpos0 & Ht & Hmax)].
    + rewrite Hz. simpl. exists o. split; [apply elem_of_app; right; apply list_elem_of_singleton; reflexivity|].
      split; [lia|]. split; [first [reflexivity | symmetry; apply time_Unix_uint32; assumption]|].
      intros o' [Hin'| ->%list_elem_of_singleton]%elem_of_app; [|lia].
      specialize (Hall o' Hin'). lia.
    + destruct (Hr o0 Hin) as [_ Hr0].
      rewrite Ht, (time_Unix_uint32 _ Ho), (time_Unix_uint32 _ Hr0).
      unfold IsZero, After, unixToInternal; simpl.
      destruct (Z.eqb_spec (objEnd o0 + 62135596800) 0) as [E|_]; [unfold is_uint32 in Hr0; lia|].
      rewrite andb_false_r, orb_false_r. simpl.
      destruct (Z.gtb_spec (objEnd o + 62135596800) (objEnd o0 + 62135596800)) as [Hlt|Hge].
      * exists o. split; [apply elem_of_app; right; apply list_elem_of_singleton; reflexivity|].
        split; [lia|]. split; [first [reflexivity | symmetry; apply time_Unix_uint32; assumption]|].
        intros o' [Hin'| ->%list_elem_of_singleton]%elem_of_app; [|lia].
        specialize (Hmax o' Hin'). lia.
      * exists o0. split; [apply elem_of_app; left; exact Hin|].
        split; [lia|]. split; [first [reflexivity | symmetry; apply time_Unix_uint32; assumption]|].
        intros o' [Hin'| ->%list_elem_of_singleton]%elem_of_app; [|lia].
        apply Hmax; assumption.
  - assert (objEnd o = 0) by (unfold is_uint32 in Ho; lia).
    destruct Hb as [[Hz Hall]|(o0 & Hin & Hpos0 & Ht & Hmax)].
    + left. split; [exact Hz|].
      intros o' [Hin'| ->%list_elem_of_singleton]%elem_of_app; auto.
    + right. exists o0. split; [apply elem_of_app; left; exact Hin|].
      split; [lia|]. split; [exact Ht|].
      intros o' [Hin'| ->%list_elem_of_singleton]%elem_of_app; [|lia].
      apply Hmax; assumption.
Qed.

(** X26: the start and the end time.  After objects are added to a
    meta without times, the start time is the earliest start among the
    objects with a start other than zero and the end time the latest
    end among those with an end other than zero; a time stays the zero
    time when every object had zero there. *)
Theorem ObjectAdded_time_bounds (b : BlockMeta) (objs : list Object)
    (Hfresh : fresh b) (Hrange : Forall timesInRange objs) :
  startBounds (addObjects b objs) objs /\ endBounds (addObjects b objs) objs.
Proof.
  destruct Hfresh as (_ & _ & Hs & He).
  induction objs as [|o objs IH] using rev_ind.
  - split; left; (split; [first [exact Hs | exact He]|]); intros o Hin; inversion Hin.
  - apply Forall_app in Hrange as [Hr Ho]. rewrite Forall_singleton in Ho.
    destruct (IH Hr) as [IHs IHe]. rewrite addObjects_snoc. split.
    + apply startBounds_step; assumption.
    + apply endBounds_step; assumption.
Qed.

Lemma ObjectAdded_time_bounds_witness :
  startBounds (addObjects sampleMeta sampleObjects) sampleObjects
  /\ endBounds (addObjects sampleMeta sampleObjects) sampleObjects.
Proof.
  apply (ObjectAdded_time_bounds sampleMeta sampleObjects).
  - repeat split.
  - repeat constructor; unfold is_uint32; simpl; lia.
Defined.

Lemma wrap_int64_add (a c : Z) : wrap_int64 (wrap_int64 a + c) = wrap_int64 (a + c).
Proof.
  unfold wrap_int64, int64_of_uint64. rewrite !Z.mod_mod by lia.
  assert (E : ((if a mod 2 ^ 64 <? 2 ^ 63 then a mod 2 ^ 64 else a mod 2 ^ 64 - 2 ^ 64) + c)
              mod 2 ^ 64 = (a + c) mod 2 ^ 64).
  { destruct (a mod 2 ^ 64 <? 2 ^ 63).
    - rewrite Z.add_mod_idemp_l by lia. reflexivity.
    - replace (a mod 2 ^ 64 - 2 ^ 64 + c) with ((a mod 2 ^ 64 + c) + (-1) * 2 ^ 64) by lia.
      rewrite Z.mod_add by lia. rewrite Z.add_mod_idemp_l by lia. reflexivity. }
  rewrite E. reflexivity.
Qed.

(** X27: the object count and the settings.  Adding objects raises
    [TotalObjects] by their number, with the wrap-around of [int], and
    changes none of the fields besides the ids, the times and the
    count. *)
Theorem ObjectAdded_counts_and_keeps (b : BlockMeta) (objs : list Object)
    (Hint : is_int64 (TotalObjects b)) :
  let b' := addObjects b objs in
  TotalObjects b' = wrap_int64 (TotalObjects b + Z.of_nat (length objs))
  /\ sameSettings b b'.
Proof.
  induction objs as [|o objs IH] using rev_ind; cbv zeta.
  - simpl. rewrite Z.add_0_r, wrap_int64_id by exact Hint.
    unfold sameSettings. repeat split.
  - rewrite addObjects_snoc. destruct IH as [IHn IHs]. split.
    + change (TotalObjects (ObjectAdded ?b _ _ _)) with (wrap_int64 (TotalObjects b + 1)).
      rewrite IHn, wrap_int64_add, length_app. simpl. f_equal. lia.
    + exact IHs.
Qed.

Lemma ObjectAdded_counts_and_keeps_witness :
  TotalObjects (addObjects sampleMeta sampleObjects) = 3
  /\ sameSettings sampleMeta (addObjects sampleMeta sampleObjects).
Proof.
  apply (ObjectAdded_counts_and_keeps sampleMeta sampleObjects).
  unfold is_int64, MinInt64, MaxInt64. simpl. lia.
Defined.

Lemma append_cons (a : Ascii.ascii) (s t : string) :
  String a s +:+ t = String a (s +:+ t).
Proof. reflexivity. Qed.

Lemma append_assoc (s1 s2 s3 : string) : (s1 +:+ s2) +:+ s3 = s1 +:+ (s2 +:+ s3).
Proof.
  induction s1 as [|a s1 IH]; [reflexivity|]. rewrite !append_cons, IH. reflexivity.
Qed.

Lemma append_empty_r (s : string) : s +:+ EmptyString = s.
Proof.
  induction s as [|a s IH]; [reflexivity|]. rewrite append_cons, IH. reflexivity.
Qed.

Lemma hashWrites_fold (d : list DedicatedColumn) (h : string) :
  fold_left
    (fun h c => h +:+ Scope c +:+ separatorByte +:+ Name c +:+ separatorByte +:+ Type_ c)
    d h
  = h +:+ fold_right (fun c r => columnBytes c +:+ r) EmptyString d.
Proof.
  revert h. induction d as [|c d IH]; intros h; simpl.
  - rewrite append_empty_r. reflexivity.
  - rewrite IH. unfold columnBytes. rewrite !append_assoc. reflexivity.
Qed.

Lemma hashWrites_cons (c : DedicatedColumn) (d : list DedicatedColumn) :
  hashWrites (c :: d) = columnBytes c +:+ hashWrites d.
Proof.
  unfold hashWrites. rewrite !hashWrites_fold. reflexivity.
Qed.

Lemma append_nil (t : string) : EmptyString +:+ t = t.
Proof. reflexivity. Qed.

Lemma split_at_separator (s1 s2 r1 r2 : string) :
  hasSeparator s1 = false -> hasSeparator s2 = false ->
  s1 +:+ separatorByte +:+ r1 = s2 +:+ separatorByte +:+ r2 ->
  s1 = s2 /\ r1 = r2.
Proof.
  unfold separatorByte.
  revert s2. induction s1 as [|a s1 IH]; intros [|b s2];
    rewrite ?append_cons, ?append_nil; simpl hasSeparator.
  - intros _ _ [= ->]. auto.
  - destruct (Ascii.eqb_spec b (Ascii.Ascii true true true true true true true true));
      [discriminate|]. intros _ _ [= E _]. congruence.
  - destruct (Ascii.eqb_spec a (Ascii.Ascii true true true true true true true true));
      [discriminate|]. intros _ _ [= E _]. congruence.
  - destruct (Ascii.eqb_spec a (Ascii.Ascii true true true true true true true true));
      [discriminate|].
    destruct (Ascii.eqb_spec b (Ascii.Ascii true true true true true true true true));
      [discriminate|].
    intros H1 H2 [= -> E]. destruct (IH s2 H1 H2 E) as [-> ->]. auto.
Qed.

Lemma validColumn_type (c : DedicatedColumn) :
  validColumn c -> Type_ c = DedicatedColumnTypeString.
Proof.
  intros [Ht _]. unfold ToStaticType in Ht. case_decide; [assumption|discriminate].
Qed.

Lemma hashWrites_injective (d1 d2 : list DedicatedColumn) :
  Forall validColumn d1 -> Forall validColumn d2 ->
  hashWrites d1 = hashWrites d2 -> d1 = d2.
Proof.
  revert d2. induction d1 as [|c1 d1 IH]; intros [|c2 d2] H1 H2.
  - reflexivity.
  - rewrite hashWrites_cons. unfold columnBytes. destruct (Scope c2); discriminate.
  - rewrite hashWrites_cons. unfold columnBytes. destruct (Scope c1); discriminate.
  - rewrite !hashWrites_cons.
    apply Forall_cons in H1 as [Hc1 H1]. apply Forall_cons in H2 as [Hc2 H2].
    pose proof (validColumn_type _ Hc1) as T1. pose proof (validColumn_type _ Hc2) as T2.
    destruct Hc1 as (_ & S1 & N1). destruct Hc2 as (_ & S2 & N2).
    unfold columnBytes. rewrite !append_assoc. intros E.
    apply split_at_separator in E as [ES E]; [|assumption..].
    apply split_at_separator in E as [EN E]; [|assumption..].
    rewrite T1, T2 in E. injection E as E.
    destruct c1, c2; simpl in *. subst. f_equal. apply IH; assumption.
Qed.

(** X28: the hash tells valid column lists apart as far as xxhash
    does.  When two different non-empty lists of valid columns get the
    same hash, the bytes hashed for them differ and xxhash gives the
    same sum for both. *)
Theorem hashColumns_distinguishes (hash : XXHash) (d1 d2 : list DedicatedColumn)
    (H1 : Forall validColumn d1) (H2 : Forall validColumn d2)
    (Hne1 : d1 <> []) (Hne2 : d2 <> []) (Hdiff : d1 <> d2)
    (Hsame : hashColumns d1 = hashColumns d2) :
  hashWrites d1 <> hashWrites d2
  /\ xxhash_Sum64 (hashWrites d1) = xxhash_Sum64 (hashWrites d2).
Proof.
  revert Hsame.
  unfold hashColumns. destruct d1 as [|c1 d1]; [congruence|].
  destruct d2 as [|c2 d2]; [congruence|]. simpl length.
  rewrite !Nat2Z.inj_succ.
  destruct (Z.eqb_spec (Z.succ (Z.of_nat (length d1))) 0); [lia|].
  destruct (Z.eqb_spec (Z.succ (Z.of_nat (length d2))) 0); [lia|].
  intros E. split; [|exact E].
  intros Hw. apply Hdiff. apply hashWrites_injective; assumption.
Qed.

Lemma hashColumns_distinguishes_witness :
  hashWrites sampleColumns <> hashWrites otherColumns
  /\ @xxhash_Sum64 lengthHash (hashWrites sampleColumns)
     = @xxhash_Sum64 lengthHash (hashWrites otherColumns).
Proof.
  apply (hashColumns_distinguishes lengthHash sampleColumns otherColumns).
  - repeat constructor.
  - repeat constructor.
  - discriminate.
  - discriminate.
  - discriminate.
  - reflexivity.
Defined.
